(** * Notion driver: chunk planner and segmented range reader

    A shallow embedding of the chunked upload path of
    [drivers/notion/driver.go] ([Put], [putSingleFile], [putChunkedFile])
    and of the chunked download path of [types.go] of package [notion], in
    its revision with the bounds checks and the retry loop
    ([ChunkedRangeReadCloser.RangeRead], [ChunkedReader.Read],
    [createChunkReader]), with [Link] and the file branch of [Copy], which
    stand between the two.

    Go [int64] values are integers of [Z] with the wrap-around of the
    machine operations written out (module [I64]).  Everything the driver
    reaches over the network or in the database is an oracle of the record
    [Backend]; every call is appended to a trace, and the oracle sees the
    trace so far, so that a backend may answer the same call differently
    over time. *)

From Stdlib Require Import ZArith List Lia String Bool Arith DecimalString.
From Stdlib.Strings Require Import Byte.
Import ListNotations.
Open Scope Z_scope.

(** ** Machine integers *)

Module I64.

Definition min_int : Z := - 2 ^ 63.
Definition max_int : Z := 2 ^ 63 - 1.

Definition in_range (z : Z) : Prop := min_int <= z <= max_int.

(** Two's complement reduction of an exact result to 64 bits. *)
Definition wrap (z : Z) : Z := (z + 2 ^ 63) mod 2 ^ 64 - 2 ^ 63.

Definition add (a b : Z) : Z := wrap (a + b).
Definition sub (a b : Z) : Z := wrap (a - b).
Definition mul (a b : Z) : Z := wrap (a * b).
(** Go's [/] on integers truncates toward zero. *)
Definition div (a b : Z) : Z := wrap (Z.quot a b).

(** The helpers [max] and [min] at the end of [types.go]. *)
Definition max (a b : Z) : Z := if a >? b then a else b.
Definition min (a b : Z) : Z := if a <? b then a else b.

End I64.

(** ** Data model ([types.go]) *)

Record NotionService := {
  cookie : string;
  token : string;
  spaceID : string;
  databaseID : string;
  filePageID : string;
  userId : string
}.

Record File := {
  File_ID : Z;
  File_Name : string;
  File_Size : Z;
  File_SHA1 : string;
  File_NotionPageID : string;
  File_DirectoryID : Z;
  File_IsChunked : bool;
  File_ChunkSize : Z;
  File_Deleted : bool
}.

Record FileChunk := {
  ID : Z;
  FileID : Z;
  ChunkIndex : Z;
  ChunkSize : Z;
  StartOffset : Z;
  EndOffset : Z;
  NotionPageID : string;
  SHA1 : string;
  Deleted : bool
}.

Record NotionFile := { URL : string; ExpiryTime : string }.

Record FileObject := {
  FileObject_Type : string;
  FileObject_Name : string;
  FileObject_File : NotionFile
}.

Record PropertyResponse := {
  PropertyResponse_Object : string;
  PropertyResponse_Type : string;
  Files : list FileObject
}.

(** [http_range.Range]: a start offset and a length, [-1] for "to the end". *)
Record Range := { Start : Z; Length : Z }.

(** ** Errors

    [fmt.Errorf] renders a format string; the embedding keeps the format as
    a constructor and the rendered arguments as its fields.  [error] values
    of the collaborators are [External]. *)

Inductive panic : Set :=
| NilReader          (* method call on a nil [io.ReadCloser] *)
| SliceBounds.       (* [p[:n]] with [n] negative *)

Inductive error : Set :=
| EOF                                                   (* io.EOF *)
| External (msg : string)
| InvalidRangeStart (start : Z)
| RangeStartExceeds (start fileSize : Z)
| NoChunksFound (start last fileSize : Z) (totalChunks : nat)
| GetLinkFailed (chunk : nat) (attempts : Z) (cause : error)
| ChunkHasNoFile (chunk : nat)
| CreateReaderFailed (chunk : nat) (attempts : Z) (cause : error)
| NewRequestFailed (cause : error)
| SendRequestFailed (cause : error)
| BadStatus (code : Z) (url : string)
| Canceled
| CacheFailed (cause : error)
| CreateFileRecordFailed (cause : error)
| CreateChunkPageFailed (cause : error)
| UploadChunkFailed (i : Z) (cause : error)
| SaveChunksFailed (cause : error)
| ExistsCheckFailed (cause : error)
| CreatePageFailed (cause : error)
| UploadFailed (cause : error)
| SaveFileFailed (cause : error)
| Panic (p : panic).                (* a run-time panic, not an [error] value *)

Definition Result (A : Type) : Type := (error + A)%type.

Definition is_EOF (e : error) : bool :=
  match e with EOF => true | _ => false end.

(** ** The remote side *)

(** The [Range] header [createChunkReader] sets: [bytes=first-last] or
    [bytes=first-]. *)
Inductive RangeHeader : Set :=
| RangeBounded (first last : Z)
| RangeFrom (first : Z).

Record Request := {
  Method : string;
  Req_URL : string;
  Req_Range : RangeHeader;
  UserAgent : string;
  Accept : string;
  AcceptEncoding : string;
  Timeout : Z                       (* of the client, in nanoseconds *)
}.

(** A response body as the reader sees it: the bytes still to come, how
    many of them one [Read] hands over at most, how the stream ends
    ([EOF], or the error of a broken transfer), and whether the end is
    reported together with the last bytes or by a [Read] of its own. *)
Record Body := {
  payload : list byte;
  burst : positive;
  final : error;
  eager : bool
}.

Record Response := { StatusCode : Z; Resp_Body : Body }.

(** A [model.FileStreamer] by what the driver asks of it: name, size, MIME
    type, and where its bytes come from, the stream handed to [Put] or
    [io.NewSectionReader(tempFile, off, n)] over the cached copy. *)
Inductive source : Set :=
| Incoming
| SectionReader (off n : Z).

Record FileStreamer := {
  name : string;
  size : Z;
  mimetype : string;
  reader : source
}.

(** A [model.Obj] by its ID, and the [model.Object] the driver returns. *)
Record Obj := { Obj_ID : string }.

Record Object := {
  Object_ID : string;
  Object_Name : string;
  Object_Size : Z;
  IsFolder : bool
}.

Inductive event : Type :=
| EvGetPageProperty (pageID propertyID : string)
| EvDo (req : Request)
| EvSleep (d : Z)                   (* time.Duration, nanoseconds *)
| EvBodyRead (len : nat)
| EvBodyClose
| EvIsCanceled
| EvCacheFullInTempFile
| EvCloseTempFile
| EvCreateDatabasePage (title : string)
| EvUpload (s : FileStreamer) (pageID : string)
| EvDbFirstFile (fileName : string) (dirID : string)
| EvDbCreateFile (f : File)
| EvDbCreateChunks (chunks : list FileChunk).

Definition trace : Type := list event.

Inductive lookup : Type :=
| Found (f : File)
| RecordNotFound
| OtherError (e : error).

Record Backend := {
  GetPageProperty : trace -> string -> string -> Result PropertyResponse;
  NewRequest : string -> option error;          (* http.NewRequest on a URL *)
  Do : trace -> Request -> Result Response;     (* http.Client.Do *)
  IsCanceled : trace -> bool;
  CacheFullInTempFile : trace -> option error;
  CreateDatabasePage : trace -> string -> Result string;
  UploadAndUpdateFilePut : trace -> FileStreamer -> string -> Result string;
  DbFirstFile : trace -> string -> string -> lookup;
  DbCreateFile : trace -> File -> Result Z;     (* the ID the insert assigns *)
  DbCreateChunks : trace -> list FileChunk -> option error;
  Base : string -> string;                      (* filepath.Base *)
  Atoi : string -> Z                            (* strconv.Atoi, value only *)
}.

(** ** A state monad over the trace *)

Definition M (A : Type) : Type := trace -> A * trace.

Definition ret {A : Type} (a : A) : M A := fun w => (a, w).

Definition bind {A B : Type} (m : M A) (k : A -> M B) : M B :=
  fun w => let (a, w') := m w in k a w'.

(** One call of the backend: answered from the trace so far, then logged. *)
Definition call {A : Type} (ev : event) (f : trace -> A) : M A :=
  fun w => (f w, w ++ [ev]).

Declare Scope go_scope.
Delimit Scope go_scope with go.
Notation "x <- m ;; k" := (bind m (fun x => k))
  (at level 61, m at next level, right associativity) : go_scope.
Notation "m ;;; k" := (bind m (fun _ => k))
  (at level 61, right associativity) : go_scope.
Open Scope go_scope.

(** [io.Reader.Read] of a response body on a buffer of [k] bytes. *)
Definition body_read (b : Body) (k : nat) : list byte * option error * Body :=
  match payload b with
  | [] => ([], Some (final b), b)
  | _ :: _ =>
      let n := Nat.min k (Pos.to_nat (burst b)) in
      let out := firstn n (payload b) in
      let rest := skipn n (payload b) in
      let b' := {| payload := rest; burst := burst b;
                   final := final b; eager := eager b |} in
      match rest with
      | [] => if eager b then (out, Some (final b), b') else (out, None, b')
      | _ :: _ => (out, None, b')
      end
  end.

(** ** The range reader ([types.go]) *)

Record ChunkedRangeReadCloser := {
  crc_notionClient : NotionService;
  crc_chunks : list FileChunk;
  fileSize : Z
}.

Record ChunkedReader := {
  notionClient : NotionService;
  chunks : list FileChunk;
  requestStart : Z;
  requestEnd : Z;
  currentChunk : nat;
  currentReader : option Body;
  currentOffset : Z;
  totalRead : Z
}.

Definition NewChunkedRangeReadCloser (client : NotionService)
    (cs : list FileChunk) (fsize : Z) : ChunkedRangeReadCloser :=
  {| crc_notionClient := client; crc_chunks := cs; fileSize := fsize |}.

(** Lines 312-321 of [RangeRead]: the "to end" sentinel and the clamp.
    Returns the adjusted range and [requestEnd]. *)
Definition clampRange (fsize : Z) (httpRange : Range) : Range * Z :=
  let httpRange1 :=
    if Length httpRange =? -1
    then {| Start := Start httpRange;
            Length := I64.sub fsize (Start httpRange) |}
    else httpRange in
  let requestEnd := I64.add (Start httpRange1) (Length httpRange1) in
  if requestEnd >? fsize
  then ({| Start := Start httpRange1;
           Length := I64.sub fsize (Start httpRange1) |}, fsize)
  else (httpRange1, requestEnd).

(** The overlap test of the selection loop. *)
Definition overlaps (start requestEnd : Z) (chunk : FileChunk) : bool :=
  (StartOffset chunk <? requestEnd) && (EndOffset chunk >? start).

Definition RangeRead (c : ChunkedRangeReadCloser) (httpRange : Range)
  : M (Result ChunkedReader) :=
  if Start httpRange <? 0 then
    ret (inl (InvalidRangeStart (Start httpRange)))
  else if Start httpRange >=? fileSize c then
    ret (inl (RangeStartExceeds (Start httpRange) (fileSize c)))
  else
    let (httpRange', requestEnd) := clampRange (fileSize c) httpRange in
    let neededChunks :=
      filter (overlaps (Start httpRange') requestEnd) (crc_chunks c) in
    if (List.length neededChunks =? 0)%nat then
      ret (inl (NoChunksFound (Start httpRange') (I64.sub requestEnd 1)
                  (fileSize c) (List.length (crc_chunks c))))
    else
      ret (inr {| notionClient := crc_notionClient c;
                  chunks := neededChunks;
                  requestStart := Start httpRange';
                  requestEnd := requestEnd;
                  currentChunk := 0;
                  currentReader := None;
                  currentOffset := 0;
                  totalRead := 0 |}).

Definition Second : Z := 1000000000.
Definition Minute : Z := 60 * Second.
Definition StatusOK : Z := 200.
Definition StatusPartialContent : Z := 206.

Definition rangeHeader (offset length : Z) : RangeHeader :=
  if length >? 0
  then RangeBounded offset (I64.sub (I64.add offset length) 1)
  else RangeFrom offset.

(** The request [createChunkReader] builds, and the timeout of its client. *)
Definition chunkRequest (url : string) (offset length : Z) : Request :=
  {| Method := "GET"; Req_URL := url;
     Req_Range := rangeHeader offset length;
     UserAgent := "Mozilla/5.0 (Windows NT 10.0; Win64; x64) AppleWebKit/537.36";
     Accept := "*/*";
     AcceptEncoding := "identity";
     Timeout := 30 * Minute |}.

Definition createChunkReader (be : Backend) (url : string)
    (offset length : Z) : M (Result Body) :=
  match NewRequest be url with
  | Some err => ret (inl (NewRequestFailed err))
  | None =>
      let req := chunkRequest url offset length in
      resp <- call (EvDo req) (fun w => Do be w req) ;;
      match resp with
      | inl err => ret (inl (SendRequestFailed err))
      | inr resp =>
          if negb (StatusCode resp =? StatusPartialContent)
             && negb (StatusCode resp =? StatusOK)
          then call EvBodyClose (fun _ => tt) ;;;
               ret (inl (BadStatus (StatusCode resp) url))
          else ret (inr (Resp_Body resp))
      end
  end.

Definition maxRetries : Z := 3.

(** How one run of the retry loop of [Read] ends: a [return] out of
    [Read], or the loop is left with [reader] set ([None] is Go's nil). *)
Inductive loop_exit : Type :=
| LoopReturn (err : error)
| LoopLeft (reader : option Body).

(** The loop [for retry := 0; retry < maxRetries; retry++]; [n] counts the
    iterations still allowed, [maxRetries - retry]. *)
Fixpoint retryLoop (be : Backend) (r : ChunkedReader) (chunk : FileChunk)
    (chunkStart chunkEnd : Z) (n : nat) (retry : Z) : M loop_exit :=
  match n with
  | O => ret (LoopLeft None)
  | S n' =>
      property <- call (EvGetPageProperty (NotionPageID chunk)
                          (filePageID (notionClient r)))
                    (fun w => GetPageProperty be w (NotionPageID chunk)
                                (filePageID (notionClient r))) ;;
      match property with
      | inl err =>
          if retry =? maxRetries - 1 then
            ret (LoopReturn (GetLinkFailed (currentChunk r)
                               (I64.add retry 1) err))
          else
            call (EvSleep (I64.mul Second (I64.add retry 1))) (fun _ => tt) ;;;
            retryLoop be r chunk chunkStart chunkEnd n' (I64.add retry 1)
      | inr property =>
          match Files property with
          | [] => ret (LoopReturn (ChunkHasNoFile (currentChunk r)))
          | file0 :: _ =>
              reader <- createChunkReader be (URL (FileObject_File file0))
                          chunkStart (I64.sub chunkEnd chunkStart) ;;
              match reader with
              | inl err =>
                  if retry =? maxRetries - 1 then
                    ret (LoopReturn (CreateReaderFailed (currentChunk r)
                                       (I64.add retry 1) err))
                  else
                    call (EvSleep (I64.mul Second (I64.add retry 1)))
                      (fun _ => tt) ;;;
                    retryLoop be r chunk chunkStart chunkEnd n'
                      (I64.add retry 1)
              | inr body => ret (LoopLeft (Some body))
              end
          end
      end
  end.

Definition ReadResult : Type := (list byte * option error) * ChunkedReader.

Definition with_reader (r : ChunkedReader) (reader : option Body)
    (offset : Z) : ChunkedReader :=
  {| notionClient := notionClient r; chunks := chunks r;
     requestStart := requestStart r; requestEnd := requestEnd r;
     currentChunk := currentChunk r; currentReader := reader;
     currentOffset := offset; totalRead := totalRead r |}.

Definition with_progress (r : ChunkedReader) (reader : option Body)
    (cursor : nat) (total : Z) : ChunkedReader :=
  {| notionClient := notionClient r; chunks := chunks r;
     requestStart := requestStart r; requestEnd := requestEnd r;
     currentChunk := cursor; currentReader := reader;
     currentOffset := currentOffset r; totalRead := total |}.

(** The intra-chunk range of lines 372-373. *)
Definition chunkStartOf (r : ChunkedReader) (chunk : FileChunk) : Z :=
  I64.sub (I64.max (requestStart r) (StartOffset chunk)) (StartOffset chunk).
Definition chunkEndOf (r : ChunkedReader) (chunk : FileChunk) : Z :=
  I64.sub (I64.min (requestEnd r) (EndOffset chunk)) (StartOffset chunk).

(** Lines 363-409: make sure a chunk is open.  [inl] is a [return] out of
    [Read]. *)
Definition openCurrent (be : Backend) (r : ChunkedReader)
  : M (ReadResult + ChunkedReader) :=
  match currentReader r with
  | Some _ => ret (inr r)
  | None =>
      match nth_error (chunks r) (currentChunk r) with
      | None => ret (inl (([], Some EOF), r))
      | Some chunk =>
          let chunkStart := chunkStartOf r chunk in
          let chunkEnd := chunkEndOf r chunk in
          ex <- retryLoop be r chunk chunkStart chunkEnd
                  (Z.to_nat maxRetries) 0 ;;
          match ex with
          | LoopReturn err => ret (inl (([], Some err), r))
          | LoopLeft reader => ret (inr (with_reader r reader chunkStart))
          end
      end
  end.

(** Lines 411-438: read from the open chunk and handle its end. *)
Definition deliver (r : ChunkedReader) (p : nat) : M ReadResult :=
  let remainingBytes :=
    I64.sub (I64.sub (requestEnd r) (requestStart r)) (totalRead r) in
  if (Z.of_nat p >? remainingBytes) && (remainingBytes <? 0) then
    ret (([], Some (Panic SliceBounds)), r)
  else
    let p' := if Z.of_nat p >? remainingBytes
              then Z.to_nat remainingBytes else p in
    match currentReader r with
    | None => ret (([], Some (Panic NilReader)), r)
    | Some body =>
        res <- call (EvBodyRead p') (fun _ => body_read body p') ;;
        let '(data, err, body') := res in
        let total := I64.add (totalRead r) (Z.of_nat (List.length data)) in
        match err with
        | None =>
            ret ((data, None),
                 with_progress r (Some body') (currentChunk r) total)
        | Some e =>
            if is_EOF e then
              call EvBodyClose (fun _ => tt) ;;;
              let r' := with_progress r None (S (currentChunk r)) total in
              if (totalRead r' <? I64.sub (requestEnd r') (requestStart r'))
                 && (currentChunk r' <? List.length (chunks r'))%nat
              then ret ((data, None), r')
              else ret ((data, Some e), r')
            else
              call EvBodyClose (fun _ => tt) ;;;
              ret ((data, Some e),
                   with_progress r None (currentChunk r) total)
        end
    end.

Definition Read (be : Backend) (r : ChunkedReader) (p : nat) : M ReadResult :=
  if totalRead r >=? I64.sub (requestEnd r) (requestStart r) then
    ret (([], Some EOF), r)
  else
    o <- openCurrent be r ;;
    match o with
    | inl res => ret res
    | inr r' => deliver r' p
    end.

(** [Close] of the reader. *)
Definition Close (r : ChunkedReader) : M (option error) :=
  match currentReader r with
  | Some _ => call EvBodyClose (fun _ => None)
  | None => ret None
  end.

(** Successive [Read] calls on buffers of the given sizes, whatever each
    call returns. *)
Fixpoint reads (be : Backend) (r : ChunkedReader) (ps : list nat)
  : M (list (list byte * option error) * ChunkedReader) :=
  match ps with
  | [] => ret ([], r)
  | p :: ps' =>
      res <- Read be r p ;;
      let (out, r') := res in
      rest <- reads be r' ps' ;;
      let (outs, r'') := rest in
      ret (out :: outs, r'')
  end.

Definition delivered (outs : list (list byte * option error)) : list byte :=
  List.concat (map fst outs).

(** ** The upload path ([driver.go]) *)

(** [4.5 * 1024 * 1024 * 1024] and [5 * 1024 * 1024 * 1024], exact untyped
    constants of Go. *)
Definition MaxChunkSize : Z := 4831838208.
Definition ChunkThreshold : Z := 5368709120.

(** [strconv.Itoa] and [%d]. *)
Definition Itoa (z : Z) : string := NilZero.string_of_int (Z.to_int z).

Definition object_of (f : File) : Object :=
  {| Object_ID := Itoa (File_ID f); Object_Name := File_Name f;
     Object_Size := File_Size f; IsFolder := false |}.

Definition with_ID (f : File) (id : Z) : File :=
  {| File_ID := id; File_Name := File_Name f; File_Size := File_Size f;
     File_SHA1 := File_SHA1 f; File_NotionPageID := File_NotionPageID f;
     File_DirectoryID := File_DirectoryID f;
     File_IsChunked := File_IsChunked f; File_ChunkSize := File_ChunkSize f;
     File_Deleted := File_Deleted f |}.

Definition putSingleFile (be : Backend) (fileName : string) (fileSize : Z)
    (dirID : Z) (file : FileStreamer) : M (Result Object) :=
  page <- call (EvCreateDatabasePage fileName)
            (fun w => CreateDatabasePage be w fileName) ;;
  match page with
  | inl err => ret (inl (CreatePageFailed err))
  | inr pageID =>
      hash <- call (EvUpload file pageID)
                (fun w => UploadAndUpdateFilePut be w file pageID) ;;
      match hash with
      | inl err => ret (inl (UploadFailed err))
      | inr hash1 =>
          let f := {| File_ID := 0; File_Name := fileName;
                      File_Size := fileSize; File_SHA1 := hash1;
                      File_NotionPageID := pageID;
                      File_DirectoryID := dirID; File_IsChunked := false;
                      File_ChunkSize := 0; File_Deleted := false |} in
          created <- call (EvDbCreateFile f) (fun w => DbCreateFile be w f) ;;
          match created with
          | inl err => ret (inl (SaveFileFailed err))
          | inr id => ret (inr (object_of (with_ID f id)))
          end
      end
  end.

(** The loop [for i := int64(0); i < chunkCount; i++] of [putChunkedFile];
    [n] counts the iterations still to run, [chunkCount - i].  The progress
    callback only scales a percentage for the caller and is left out. *)
Fixpoint uploadChunks (be : Backend) (maxChunkSize : Z) (fileName : string)
    (fileSize : Z) (fID : Z) (file : FileStreamer)
    (n : nat) (i : Z) (chunks : list FileChunk) : M (Result (list FileChunk)) :=
  match n with
  | O => ret (inr chunks)
  | S n' =>
      canceled <- call EvIsCanceled (IsCanceled be) ;;
      if (canceled : bool) then ret (inl Canceled)
      else
        let startOffset := I64.mul i maxChunkSize in
        let endOffset := I64.add startOffset maxChunkSize in
        let endOffset := if endOffset >? fileSize then fileSize
                         else endOffset in
        let chunkSize := I64.sub endOffset startOffset in
        let chunkName := (fileName ++ ".chunk" ++ Itoa i)%string in
        page <- call (EvCreateDatabasePage chunkName)
                  (fun w => CreateDatabasePage be w chunkName) ;;
        match page with
        | inl err => ret (inl (CreateChunkPageFailed err))
        | inr pageID =>
            let chunkStream :=
              {| name := chunkName; size := chunkSize;
                 mimetype := mimetype file;
                 reader := SectionReader startOffset chunkSize |} in
            hash <- call (EvUpload chunkStream pageID)
                      (fun w => UploadAndUpdateFilePut be w chunkStream
                                  pageID) ;;
            match hash with
            | inl err => ret (inl (UploadChunkFailed i err))
            | inr hash1 =>
                let chunk :=
                  {| ID := 0; FileID := fID; ChunkIndex := i;
                     ChunkSize := chunkSize; StartOffset := startOffset;
                     EndOffset := endOffset; NotionPageID := pageID;
                     SHA1 := hash1; Deleted := false |} in
                uploadChunks be maxChunkSize fileName fileSize fID file
                  n' (I64.add i 1) (chunks ++ [chunk])
            end
        end
  end.

(** [putChunkedFile] with the chunk size as an argument; the driver runs
    it at [MaxChunkSize]. *)
Definition putChunkedFileWith (maxChunkSize : Z) (be : Backend)
    (fileName : string) (fileSize : Z) (dirID : Z) (file : FileStreamer)
  : M (Result Object) :=
  let chunkCount :=
    I64.div (I64.sub (I64.add fileSize maxChunkSize) 1) maxChunkSize in
  cached <- call EvCacheFullInTempFile (CacheFullInTempFile be) ;;
  match cached with
  | Some err => ret (inl (CacheFailed err))
  | None =>
      (* [defer tempFile.Close()] *)
      res <- (let f := {| File_ID := 0; File_Name := fileName;
                          File_Size := fileSize; File_SHA1 := "";
                          File_NotionPageID := "";
                          File_DirectoryID := dirID; File_IsChunked := true;
                          File_ChunkSize := maxChunkSize;
                          File_Deleted := false |} in
              created <- call (EvDbCreateFile f)
                           (fun w => DbCreateFile be w f) ;;
              match created with
              | inl err => ret (inl (CreateFileRecordFailed err))
              | inr id =>
                  up <- uploadChunks be maxChunkSize fileName fileSize id
                          file (Z.to_nat chunkCount) 0 [] ;;
                  match up with
                  | inl err => ret (inl err)
                  | inr chunks =>
                      saved <- call (EvDbCreateChunks chunks)
                                 (fun w => DbCreateChunks be w chunks) ;;
                      match saved with
                      | Some err => ret (inl (SaveChunksFailed err))
                      | None => ret (inr (object_of (with_ID f id)))
                      end
                  end
              end) ;;
      call EvCloseTempFile (fun _ => tt) ;;;
      ret res
  end.

Definition putChunkedFile : Backend -> string -> Z -> Z -> FileStreamer ->
                            M (Result Object) :=
  putChunkedFileWith MaxChunkSize.

Definition Put (be : Backend) (dstDir : Obj) (file : FileStreamer)
  : M (Result Object) :=
  existing <- call (EvDbFirstFile (Base be (name file)) (Obj_ID dstDir))
                (fun w => DbFirstFile be w (Base be (name file))
                            (Obj_ID dstDir)) ;;
  match existing with
  | Found existingFile => ret (inr (object_of existingFile))
  | OtherError err => ret (inl (ExistsCheckFailed err))
  | RecordNotFound =>
      let fileSize := size file in
      let fileName := Base be (name file) in
      let dirID := Atoi be (Obj_ID dstDir) in
      if fileSize >? ChunkThreshold
      then putChunkedFile be fileName fileSize dirID file
      else putSingleFile be fileName fileSize dirID file
  end.

(** ** [Link] ([driver.go])

    The two queries of [Link] are answered by the tables as they stand
    when the link is made. *)

Record Database := {
  (* Where("id = ? AND deleted = ?", id, false).First(&f) *)
  FileByID : string -> Result File;
  (* Where("file_id = ? AND deleted = ?", id, false).Order("chunk_index")
     .Find(&chunks) *)
  ChunksOf : Z -> Result (list FileChunk)
}.

(** The [model.Link] the driver fills: a direct URL or a range reader. *)
Record ModelLink := {
  Link_URL : string;
  RangeReadCloser : option ChunkedRangeReadCloser
}.

Inductive link_error : Type :=
| GetFileInfoFailed (cause : error)
| GetChunksFailed (cause : error)
| NoChunkData
| GetFileURLFailed (cause : error)
| IndexOutOfRange.                 (* the panic of [property.Files[0]] *)

Definition Link (be : Backend) (db : Database) (client : NotionService)
    (NotionFilePageID : string) (file : Obj)
  : M (link_error + ModelLink) :=
  match FileByID db (Obj_ID file) with
  | inl err => ret (inl (GetFileInfoFailed err))
  | inr f =>
      if File_IsChunked f then
        match ChunksOf db (File_ID f) with
        | inl err => ret (inl (GetChunksFailed err))
        | inr chunks =>
            if (List.length chunks =? 0)%nat then ret (inl NoChunkData)
            else
              let rangeReadCloser :=
                NewChunkedRangeReadCloser client chunks (File_Size f) in
              ret (inr {| Link_URL := "";
                          RangeReadCloser := Some rangeReadCloser |})
        end
      else
        property <- call (EvGetPageProperty (File_NotionPageID f)
                            NotionFilePageID)
                      (fun w => GetPageProperty be w (File_NotionPageID f)
                                  NotionFilePageID) ;;
        match property with
        | inl err => ret (inl (GetFileURLFailed err))
        | inr property =>
            match Files property with
            | [] => ret (inl IndexOutOfRange)
            | file0 :: _ =>
                ret (inr {| Link_URL := URL (FileObject_File file0);
                            RangeReadCloser := None |})
            end
        end
  end.

(** ** [Copy] of a file ([driver.go])

    The branch of [Copy] for a source that is not a directory.  The new
    row is built from five fields of the source row; [IsChunked] and
    [ChunkSize] are left at their zero values. *)

Inductive copy_error : Type :=
| GetSourceFileFailed (cause : error)
| CopyFileRecordFailed (cause : error).

Definition Copy_file (be : Backend) (db : Database) (srcObj dstDir : Obj)
  : M (copy_error + Object) :=
  match FileByID db (Obj_ID srcObj) with
  | inl err => ret (inl (GetSourceFileFailed err))
  | inr srcFile =>
      let dstDirID := Atoi be (Obj_ID dstDir) in
      let newFile := {| File_ID := 0; File_Name := File_Name srcFile;
                        File_Size := File_Size srcFile;
                        File_SHA1 := File_SHA1 srcFile;
                        File_NotionPageID := File_NotionPageID srcFile;
                        File_DirectoryID := dstDirID;
                        File_IsChunked := false; File_ChunkSize := 0;
                        File_Deleted := false |} in
      created <- call (EvDbCreateFile newFile)
                   (fun w => DbCreateFile be w newFile) ;;
      match created with
      | inl err => ret (inl (CopyFileRecordFailed err))
      | inr id => ret (inr (object_of (with_ID newFile id)))
      end
  end.

(** ** Vocabulary of the statements *)

(** The bytes of [data] at offsets [a] (included) to [b] (excluded). *)
Definition slice (data : list byte) (a b : Z) : list byte :=
  firstn (Z.to_nat (b - a)) (skipn (Z.to_nat a) data).

(** What a server that honours a [Range] header sends of an object. *)
Definition serve (object : list byte) (h : RangeHeader) : list byte :=
  match h with
  | RangeBounded first last => slice object first (last + 1)
  | RangeFrom first => skipn (Z.to_nat first) object
  end.

(** The contiguity invariant of a chunk list: it starts at [from], each
    chunk ends where the next one starts, and the last one ends at [to]. *)
Fixpoint contiguous (from : Z) (cs : list FileChunk) (to : Z) : Prop :=
  match cs with
  | [] => from = to
  | c :: cs' =>
      StartOffset c = from /\ from <= EndOffset c /\
      contiguous (EndOffset c) cs' to
  end.

(** Every resolution and every remote read succeeds: whenever it is asked,
    the backend resolves the page of each chunk to a file whose URL can be
    requested, and answers a request on that URL with the bytes of the
    chunk that the [Range] header names, ended by a clean EOF. *)
Definition honest (be : Backend) (propertyID : string) (data : list byte)
    (cs : list FileChunk) : Prop :=
  forall c, In c cs ->
  forall w, exists property file0 files,
    GetPageProperty be w (NotionPageID c) propertyID = inr property /\
    Files property = file0 :: files /\
    NewRequest be (URL (FileObject_File file0)) = None /\
    forall w' req, Req_URL req = URL (FileObject_File file0) ->
      exists resp,
        Do be w' req = inr resp /\
        (StatusCode resp = StatusPartialContent \/
         StatusCode resp = StatusOK) /\
        payload (Resp_Body resp) =
          serve (slice data (StartOffset c) (EndOffset c)) (Req_Range req) /\
        final (Resp_Body resp) = EOF.

(** A request as the data model has it: a start inside the file and a
    length that is the sentinel or a non-negative [int64]. *)
Definition valid_request (fsize : Z) (rng : Range) : Prop :=
  0 <= Start rng < fsize /\
  (Length rng = -1 \/ 0 <= Length rng <= I64.max_int).

(** The end of the range a valid request asks for. *)
Definition requested_end (fsize : Z) (rng : Range) : Z :=
  if Length rng =? -1 then fsize
  else Z.min (Start rng + Length rng) fsize.

(** What one [Read] returned: no error or EOF; EOF. *)
Definition clean (out : list byte * option error) : Prop :=
  snd out = None \/ snd out = Some EOF.

Definition at_EOF (out : list byte * option error) : Prop :=
  snd out = Some EOF.

(** A trace that continues another one. *)
Definition extends (w w' : trace) : Prop := exists t, w' = w ++ t.

(** Counting the resolutions and listing the sleeps of a trace. *)
Definition is_resolution (ev : event) : bool :=
  match ev with EvGetPageProperty _ _ => true | _ => false end.

Definition sleeps (w : trace) : list Z :=
  flat_map (fun ev => match ev with EvSleep d => [d] | _ => [] end) w.

Definition resolutions (w : trace) : nat :=
  List.length (filter is_resolution w).

(** A reader never holds an open body beyond its last chunk. *)
Definition cursor_ok (r : ChunkedReader) : Prop :=
  currentReader r <> None ->
  (currentChunk r < List.length (chunks r))%nat.



(** The upload collaborators never fail and the upload is not canceled.
    Of the insert of the chunk records this asks for a list that is not
    empty only: gorm's [Create] refuses an empty slice. *)
Definition cooperative (be : Backend) : Prop :=
  (forall w, IsCanceled be w = false) /\
  (forall w, CacheFullInTempFile be w = None) /\
  (forall w title, exists pageID, CreateDatabasePage be w title = inr pageID) /\
  (forall w s pageID, exists hash,
      UploadAndUpdateFilePut be w s pageID = inr hash) /\
  (forall w f, exists id, DbCreateFile be w f = inr id) /\
  (forall w chunks, chunks <> [] -> DbCreateChunks be w chunks = None).

(** The record the plan asks for at index [i]. *)
Definition planned (maxChunkSize fsize : Z) (i : Z) (chunk : FileChunk)
  : Prop :=
  ChunkIndex chunk = i /\
  StartOffset chunk = i * maxChunkSize /\
  EndOffset chunk = Z.min (i * maxChunkSize + maxChunkSize) fsize /\
  ChunkSize chunk = EndOffset chunk - StartOffset chunk.

(** The part of the requested range [s, e) that lies in a chunk. *)
Definition sub_range (data : list byte) (s e : Z) (c : FileChunk)
  : list byte :=
  slice data (Z.max s (StartOffset c)) (Z.min e (EndOffset c)).

(** The bytes a reader still has to hand out: what is left of the open
    read, then the parts of the chunks after it. *)
Definition pending (data : list byte) (r : ChunkedReader) : list byte :=
  match currentReader r with
  | Some b =>
      payload b ++
      List.concat (map (sub_range data (requestStart r) (requestEnd r))
                     (skipn (S (currentChunk r)) (chunks r)))
  | None =>
      List.concat (map (sub_range data (requestStart r) (requestEnd r))
                     (skipn (currentChunk r) (chunks r)))
  end.

(** The state of a reader on the range [s, e) of [data] that has handed
    out [acc]: its byte count is the length of [acc], and [acc] followed by
    what is pending is the requested range. *)
Definition in_flight (data : list byte) (client : NotionService)
    (needed : list FileChunk) (s e : Z) (acc : list byte)
    (r : ChunkedReader) : Prop :=
  chunks r = needed /\ requestStart r = s /\ requestEnd r = e /\
  notionClient r = client /\
  totalRead r = Z.of_nat (List.length acc) /\
  acc ++ pending data r = slice data s e /\
  forall b, currentReader r = Some b ->
            final b = EOF /\ (currentChunk r < List.length needed)%nat.

(** A bound on the number of [Read] calls that still return without EOF. *)
Definition budget (data : list byte) (r : ChunkedReader) : nat :=
  List.length (pending data r) + (List.length (chunks r) - currentChunk r).

(** Ranges [(a, b)] that follow one another from [from] to [to]. *)
Fixpoint tiles (from : Z) (l : list (Z * Z)) (to : Z) : Prop :=
  match l with
  | [] => from = to
  | (a, b) :: l' => a = from /\ a <= b /\ tiles b l' to
  end.

(** The range of file offsets that the reader asks of a chunk: the
    intra-chunk range of [Read], moved by the start of the chunk. *)
Definition file_range (r : ChunkedReader) (c : FileChunk) : Z * Z :=
  (StartOffset c + chunkStartOf r c, StartOffset c + chunkEndOf r c).

(** The response bodies a part [t] of a trace obtained, when the backend
    [be] answered it after [pre]; the bodies it closed; the body a reader
    holds. *)
Fixpoint responses (be : Backend) (pre t : trace) : nat :=
  match t with
  | [] => 0
  | ev :: t' =>
      (match ev with
       | EvDo req => match Do be pre req with inr _ => 1 | inl _ => 0 end
       | _ => 0
       end + responses be (pre ++ [ev]) t')%nat
  end.

Definition closes (t : trace) : nat :=
  List.length (filter (fun ev => match ev with
                                 | EvBodyClose => true
                                 | _ => false
                                 end) t).

Definition holds (r : ChunkedReader) : nat :=
  match currentReader r with Some _ => 1 | None => 0 end.

(** The uploads of a trace, stream and page, in order; its writes to the
    database. *)
Definition uploads (t : trace) : list (FileStreamer * string) :=
  flat_map (fun ev => match ev with
                      | EvUpload s pageID => [(s, pageID)]
                      | _ => []
                      end) t.

Definition is_db_write (ev : event) : bool :=
  match ev with
  | EvDbCreateFile _ | EvDbCreateChunks _ => true
  | _ => false
  end.

Definition db_writes (t : trace) : list event := filter is_db_write t.

(** The upload that stands behind a chunk record of the file [fileName]:
    the section of the cached file that the record names, sent to the page
    of the record under the name of the chunk. *)
Definition upload_of (fileName mime : string) (c : FileChunk)
  : FileStreamer * string :=
  ({| name := (fileName ++ ".chunk" ++ Itoa (ChunkIndex c))%string;
      size := ChunkSize c;
      mimetype := mime;
      reader := SectionReader (StartOffset c) (ChunkSize c) |},
   NotionPageID c).

(** A chunk row as the database returns it for a record that was saved:
    the record, under the ID the insert assigned. *)
Definition stored_as (c row : FileChunk) : Prop :=
  FileID row = FileID c /\ ChunkIndex row = ChunkIndex c /\
  ChunkSize row = ChunkSize c /\ StartOffset row = StartOffset c /\
  EndOffset row = EndOffset c /\ NotionPageID row = NotionPageID c /\
  SHA1 row = SHA1 c /\ Deleted row = Deleted c.

(** The tables hold what the trace [t] wrote: under [key], the file row
    that was inserted, and for it the chunk rows that were inserted. *)
Definition table_holds (db : Database) (t : trace) (key : string) : Prop :=
  exists f rows,
    FileByID db key = inr f /\
    (forall f0, In (EvDbCreateFile f0) t -> f = with_ID f0 (File_ID f)) /\
    ChunksOf db (File_ID f) = inr rows /\
    (forall saved, In (EvDbCreateChunks saved) t ->
                   Forall2 stored_as saved rows).

(** The server holds what was uploaded: the page of an upload of a
    section of [data] resolves to a file whose URL can be requested, and a
    request on that URL is answered with the bytes of the section that the
    [Range] header names, ended by a clean EOF. *)
Definition serves (be : Backend) (propertyID : string) (data : list byte)
    (up : FileStreamer * string) : Prop :=
  match reader (fst up) with
  | Incoming => True
  | SectionReader off n =>
      forall w, exists property file0 files,
        GetPageProperty be w (snd up) propertyID = inr property /\
        Files property = file0 :: files /\
        NewRequest be (URL (FileObject_File file0)) = None /\
        forall w' req, Req_URL req = URL (FileObject_File file0) ->
          exists resp,
            Do be w' req = inr resp /\
            (StatusCode resp = StatusPartialContent \/
             StatusCode resp = StatusOK) /\
            payload (Resp_Body resp) =
              serve (slice data off (off + n)) (Req_Range req) /\
            final (Resp_Body resp) = EOF
  end.

(** The offsets the upload loop computes for the record of a chunk, from
    its index. *)
Definition cut (maxChunkSize fsize : Z) (c : FileChunk) : Prop :=
  StartOffset c = I64.mul (ChunkIndex c) maxChunkSize /\
  EndOffset c =
    (if I64.add (StartOffset c) maxChunkSize >? fsize then fsize
     else I64.add (StartOffset c) maxChunkSize) /\
  ChunkSize c = I64.sub (EndOffset c) (StartOffset c).

(** The file row [putChunkedFile] inserts before it uploads. *)
Definition chunked_row (maxChunkSize : Z) (fileName : string)
    (fileSize dirID : Z) : File :=
  {| File_ID := 0; File_Name := fileName; File_Size := fileSize;
     File_SHA1 := ""; File_NotionPageID := ""; File_DirectoryID := dirID;
     File_IsChunked := true; File_ChunkSize := maxChunkSize;
     File_Deleted := false |}.

(** Counting the requests sent and the reads of a body. *)
Definition requests (t : trace) : nat :=
  List.length (filter (fun ev => match ev with
                                 | EvDo _ => true
                                 | _ => false
                                 end) t).

Definition body_reads (t : trace) : nat :=
  List.length (filter (fun ev => match ev with
                                 | EvBodyRead _ => true
                                 | _ => false
                                 end) t).

(** The file table holds, under [key], the row that the trace [t]
    inserted. *)
Definition row_holds (db : Database) (t : trace) (key : string) : Prop :=
  exists f,
    FileByID db key = inr f /\
    forall f0, In (EvDbCreateFile f0) t -> f = with_ID f0 (File_ID f).

(** Every entry into a chunk of [cs] ends well: whatever fails before,
    within its three attempts the retry loop obtains a read of the chunk,
    which the server answers with the bytes of the chunk that the [Range]
    header names, ended by a clean EOF. *)
Definition settles (be : Backend) (propertyID : string) (data : list byte)
    (cs : list FileChunk) : Prop :=
  forall c, In c cs ->
  forall r lo hi w, filePageID (notionClient r) = propertyID ->
  exists body w',
    retryLoop be r c lo hi (Z.to_nat maxRetries) 0 w =
      (LoopLeft (Some body), w') /\
    payload body =
      serve (slice data (StartOffset c) (EndOffset c))
        (rangeHeader lo (I64.sub hi lo)) /\
    final body = EOF.

(** ** Fixtures *)

Definition demo_client : NotionService :=
  {| cookie := ""; token := ""; spaceID := ""; databaseID := "";
     filePageID := "files"; userId := "" |}.

Definition demo_chunk (i s e : Z) (page : string) : FileChunk :=
  {| ID := i + 1; FileID := 1; ChunkIndex := i; ChunkSize := e - s;
     StartOffset := s; EndOffset := e; NotionPageID := page;
     SHA1 := ""; Deleted := false |}.

Definition demo_data : list byte :=
  list_byte_of_string "abcdefghijklmnopqrstuvwxyz".

Definition demo_chunks : list FileChunk :=
  [demo_chunk 0 0 10 "p0"; demo_chunk 1 10 20 "p1"; demo_chunk 2 20 26 "p2"].

Definition demo_closer : ChunkedRangeReadCloser :=
  NewChunkedRangeReadCloser demo_client demo_chunks 26.

Definition demo_property (urls : list string) : PropertyResponse :=
  {| PropertyResponse_Object := "property_item";
     PropertyResponse_Type := "files";
     Files := map (fun u => {| FileObject_Type := "file";
                               FileObject_Name := u;
                               FileObject_File :=
                                 {| URL := u; ExpiryTime := "" |} |}) urls |}.

(** A backend out of a resolver and a file server; the upload side
    accepts everything but an empty list of chunk records, which the
    database refuses. *)
Definition demo_backend
    (resolve : trace -> string -> Result PropertyResponse)
    (respond : trace -> Request -> Result Response) : Backend :=
  {| GetPageProperty := fun w pageID _ => resolve w pageID;
     NewRequest := fun _ => None;
     Do := respond;
     IsCanceled := fun _ => false;
     CacheFullInTempFile := fun _ => None;
     CreateDatabasePage := fun _ title => inr ("page:" ++ title)%string;
     UploadAndUpdateFilePut := fun _ s _ => inr ("sha1:" ++ name s)%string;
     DbCreateFile := fun _ _ => inr 7;
     DbFirstFile := fun _ _ _ => RecordNotFound;
     DbCreateChunks := fun _ chunks =>
       match chunks with
       | [] => Some (External "empty slice found")
       | _ :: _ => None
       end;
     Base := fun s => s;
     Atoi := fun _ => 1 |}.

Definition demo_object (url : string) : list byte :=
  match find (fun c => String.eqb (NotionPageID c) url) demo_chunks with
  | Some c => slice demo_data (StartOffset c) (EndOffset c)
  | None => []
  end.

(** Serves the requested range of the chunk objects, three bytes a read. *)
Definition respond_range (_ : trace) (req : Request) : Result Response :=
  inr {| StatusCode := StatusPartialContent;
         Resp_Body := {| payload := serve (demo_object (Req_URL req))
                                      (Req_Range req);
                         burst := 3; final := EOF; eager := false |} |}.

(** Ignores the [Range] header and sends the whole object. *)
Definition respond_full (_ : trace) (req : Request) : Result Response :=
  inr {| StatusCode := StatusOK;
         Resp_Body := {| payload := demo_object (Req_URL req);
                         burst := 100; final := EOF; eager := true |} |}.

(** Breaks every transfer after two bytes. *)
Definition respond_broken (_ : trace) (req : Request) : Result Response :=
  inr {| StatusCode := StatusPartialContent;
         Resp_Body := {| payload := firstn 2 (serve (demo_object (Req_URL req))
                                                (Req_Range req));
                         burst := 3; final := External "connection reset";
                         eager := false |} |}.

Definition resolve_ok (_ : trace) (pageID : string)
  : Result PropertyResponse := inr (demo_property [pageID]).



(** Fails until two resolutions have been made, then answers. *)
Definition resolve_flaky (w : trace) (pageID : string)
  : Result PropertyResponse :=
  if (resolutions w <? 2)%nat then inl (External "rate limited")
  else inr (demo_property [pageID]).

Definition honest_backend : Backend := demo_backend resolve_ok respond_range.
Definition flaky_backend : Backend := demo_backend resolve_flaky respond_range.
Definition full_backend : Backend := demo_backend resolve_ok respond_full.
Definition broken_backend : Backend := demo_backend resolve_ok respond_broken.

Definition demo_reader (cs : list FileChunk) (s e : Z) : ChunkedReader :=
  {| notionClient := demo_client; chunks := cs;
     requestStart := s; requestEnd := e; currentChunk := 0;
     currentReader := None; currentOffset := 0; totalRead := 0 |}.

Definition demo_upload (sz : Z) : FileStreamer :=
  {| name := "big.bin"; size := sz;
     mimetype := "application/octet-stream"; reader := Incoming |}.


(** The layout of the spec's 10 GB scenario. *)
Definition big_chunks : list FileChunk :=
  [demo_chunk 0 0 4500000000 "b0";
   demo_chunk 1 4500000000 9000000000 "b1";
   demo_chunk 2 9000000000 10000000000 "b2"].

Definition demo_dir : Obj := {| Obj_ID := "1" |}.

(** A chunked file row and the tables that hold it and its chunks. *)
Definition demo_file : File :=
  {| File_ID := 1; File_Name := "alphabet.txt"; File_Size := 26;
     File_SHA1 := ""; File_NotionPageID := ""; File_DirectoryID := 1;
     File_IsChunked := true; File_ChunkSize := 10; File_Deleted := false |}.

Definition demo_db : Database :=
  {| FileByID := fun id => if String.eqb id "1" then inr demo_file
                           else inl (External "record not found");
     ChunksOf := fun id => if id =? 1 then inr demo_chunks else inr [] |}.

(** The demo file as an upload, and a backend that refuses the upload of
    its second chunk. *)
Definition alphabet : FileStreamer :=
  {| name := "alphabet.txt"; size := 26; mimetype := "text/plain";
     reader := Incoming |}.

Definition refusing_backend : Backend :=
  {| GetPageProperty := fun w pageID _ => resolve_ok w pageID;
     NewRequest := fun _ => None;
     Do := respond_range;
     IsCanceled := fun _ => false;
     CacheFullInTempFile := fun _ => None;
     CreateDatabasePage := fun _ title => inr ("page:" ++ title)%string;
     UploadAndUpdateFilePut := fun _ s _ =>
       if String.eqb (name s) "alphabet.txt.chunk1"
       then inl (External "upload refused")
       else inr ("sha1:" ++ name s)%string;
     DbCreateFile := fun _ _ => inr 7;
     DbFirstFile := fun _ _ _ => RecordNotFound;
     DbCreateChunks := fun _ _ => None;
     Base := fun s => s;
     Atoi := fun _ => 1 |}.

(** A store for the demo file uploaded in chunks of 10 bytes: the server
    holds the three sections under the pages of the chunks, and the tables
    hold the file row under ID 7 and its three chunk rows. *)
Definition stored_object (url : string) : list byte :=
  if String.eqb url "page:alphabet.txt.chunk0" then slice demo_data 0 10
  else if String.eqb url "page:alphabet.txt.chunk1" then slice demo_data 10 20
  else if String.eqb url "page:alphabet.txt.chunk2" then slice demo_data 20 26
  else [].

Definition respond_stored (_ : trace) (req : Request) : Result Response :=
  inr {| StatusCode := StatusPartialContent;
         Resp_Body := {| payload := serve (stored_object (Req_URL req))
                                      (Req_Range req);
                         burst := 3; final := EOF; eager := false |} |}.

Definition store_backend : Backend := demo_backend resolve_ok respond_stored.

Definition stored_chunk (i s e : Z) (suffix : string) : FileChunk :=
  {| ID := i + 1; FileID := 7; ChunkIndex := i; ChunkSize := e - s;
     StartOffset := s; EndOffset := e;
     NotionPageID := ("page:alphabet.txt.chunk" ++ suffix)%string;
     SHA1 := ("sha1:alphabet.txt.chunk" ++ suffix)%string;
     Deleted := false |}.

Definition store_db : Database :=
  {| FileByID := fun id =>
       if String.eqb id "7"
       then inr (with_ID (chunked_row 10 "alphabet.txt" 26 1) 7)
       else inl (External "record not found");
     ChunksOf := fun id =>
       if id =? 7
       then inr [stored_chunk 0 0 10 "0"; stored_chunk 1 10 20 "1";
                 stored_chunk 2 20 26 "2"]
       else inr [] |}.

(** The tables after the demo file was uploaded as a single file. *)
Definition single_db : Database :=
  {| FileByID := fun id =>
       if String.eqb id "7"
       then inr {| File_ID := 7; File_Name := "alphabet.txt";
                   File_Size := 26; File_SHA1 := "sha1:alphabet.txt";
                   File_NotionPageID := "page:alphabet.txt";
                   File_DirectoryID := 1; File_IsChunked := false;
                   File_ChunkSize := 0; File_Deleted := false |}
       else inl (External "record not found");
     ChunksOf := fun _ => inr [] |}.





(** * Properties *)

(** ** Machine arithmetic inside its range *)

Lemma wrap_small (z : Z) : I64.in_range z -> I64.wrap z = z.
Proof.
  unfold I64.in_range, I64.wrap, I64.min_int, I64.max_int. intros H.
  rewrite Z.mod_small by lia. lia.
Qed.

Lemma max_is_Zmax (a b : Z) : I64.max a b = Z.max a b.
Proof. unfold I64.max. destruct (Z.gtb_spec a b); lia. Qed.

Lemma min_is_Zmin (a b : Z) : I64.min a b = Z.min a b.
Proof. unfold I64.min. destruct (Z.ltb_spec a b); lia. Qed.

Lemma add_small (a b : Z) : I64.in_range (a + b) -> I64.add a b = a + b.
Proof. apply wrap_small. Qed.

Lemma sub_small (a b : Z) : I64.in_range (a - b) -> I64.sub a b = a - b.
Proof. apply wrap_small. Qed.

Lemma mul_small (a b : Z) : I64.in_range (a * b) -> I64.mul a b = a * b.
Proof. apply wrap_small. Qed.

Lemma wrap_in_range (z : Z) : I64.in_range (I64.wrap z).
Proof.
  unfold I64.in_range, I64.wrap, I64.min_int, I64.max_int.
  pose proof (Z.mod_pos_bound (z + 2 ^ 63) (2 ^ 64) ltac:(lia)). lia.
Qed.

(** Intermediate wrap-around cancels when the final result fits. *)
Lemma sub_add_small (a b c : Z) :
  I64.in_range (a + b - c) -> I64.sub (I64.add a b) c = a + b - c.
Proof.
  intros H. unfold I64.sub, I64.add.
  transitivity (I64.wrap (a + b - c)); [|apply wrap_small; exact H].
  unfold I64.wrap. f_equal.
  replace ((a + b + 2 ^ 63) mod 2 ^ 64 - 2 ^ 63 - c + 2 ^ 63)
    with ((a + b + 2 ^ 63) mod 2 ^ 64 - c) by lia.
  rewrite Zminus_mod_idemp_l. f_equal. lia.
Qed.

Ltac in64 := unfold I64.in_range, I64.min_int, I64.max_int in *.

Ltac run := unfold bind, ret, call in *; cbn [fst snd] in *.

(** ** Bounds of a range request *)

Lemma RangeRead_pure (c : ChunkedRangeReadCloser) (httpRange : Range)
    (w : trace) :
  snd (RangeRead c httpRange w) = w.
Proof.
  unfold RangeRead.
  destruct (Start httpRange <? 0); [reflexivity|].
  destruct (Start httpRange >=? fileSize c); [reflexivity|].
  destruct (clampRange (fileSize c) httpRange) as [rng' e].
  destruct (_ =? _)%nat; reflexivity.
Qed.

Lemma clampRange_start (fsize : Z) (httpRange : Range) :
  Start (fst (clampRange fsize httpRange)) = Start httpRange.
Proof.
  unfold clampRange.
  destruct (Length httpRange =? -1); cbn [Start Length];
    destruct (_ >? fsize); reflexivity.
Qed.

Lemma clampRange_le (fsize : Z) (httpRange : Range) :
  snd (clampRange fsize httpRange) <= fsize.
Proof.
  unfold clampRange.
  destruct (Length httpRange =? -1); cbn [Start Length];
    match goal with |- context [?a >? ?b] => destruct (Z.gtb_spec a b) end;
    cbn [snd]; lia.
Qed.

Lemma clampRange_sentinel (fsize : Z) (httpRange : Range) :
  0 <= Start httpRange < fsize -> fsize <= I64.max_int ->
  Length httpRange = -1 ->
  clampRange fsize httpRange =
    ({| Start := Start httpRange; Length := fsize - Start httpRange |}, fsize).
Proof.
  intros Hs Hf HL. unfold clampRange.
  destruct (Z.eqb_spec (Length httpRange) (-1)) as [_|]; [|contradiction].
  cbn [Start Length].
  rewrite sub_small by (in64; lia).
  rewrite add_small by (in64; lia).
  replace (Start httpRange + (fsize - Start httpRange)) with fsize by lia.
  destruct (Z.gtb_spec fsize fsize); [lia | reflexivity].
Qed.

Lemma clampRange_length (fsize : Z) (httpRange : Range) :
  0 <= Start httpRange < fsize -> fsize <= I64.max_int ->
  Length httpRange <> -1 ->
  I64.in_range (Start httpRange + Length httpRange) ->
  clampRange fsize httpRange =
    ({| Start := Start httpRange;
        Length := Z.min (Length httpRange) (fsize - Start httpRange) |},
     Z.min (Start httpRange + Length httpRange) fsize).
Proof.
  intros Hs Hf HL Hr. unfold clampRange.
  destruct (Z.eqb_spec (Length httpRange) (-1)) as [|_]; [contradiction|].
  rewrite add_small by assumption.
  destruct (Z.gtb_spec (Start httpRange + Length httpRange) fsize).
  - rewrite sub_small by (in64; lia). f_equal; [f_equal|]; lia.
  - destruct httpRange as [s l]; cbn [Start Length] in *.
    f_equal; [f_equal|]; lia.
Qed.

(** C4.  [RangeRead] never touches the backend; it rejects a negative
    start and a start at or beyond the file size; otherwise the end it
    derives is at most the file size, the sentinel length [-1] stands for
    [fileSize - start], any other length gives [min (start + length)
    fileSize], and the reader or the "no chunks" error it returns carries
    these bounds. *)
Theorem RangeRead_bounds (c : ChunkedRangeReadCloser) (httpRange : Range)
    (w : trace) :
  snd (RangeRead c httpRange w) = w /\
  (Start httpRange < 0 ->
   fst (RangeRead c httpRange w) =
     inl (InvalidRangeStart (Start httpRange))) /\
  (0 <= Start httpRange -> fileSize c <= Start httpRange ->
   fst (RangeRead c httpRange w) =
     inl (RangeStartExceeds (Start httpRange) (fileSize c))) /\
  (0 <= Start httpRange < fileSize c -> fileSize c <= I64.max_int ->
   let httpRange' := fst (clampRange (fileSize c) httpRange) in
   let e := snd (clampRange (fileSize c) httpRange) in
   e <= fileSize c /\
   (Length httpRange = -1 ->
    Length httpRange' = fileSize c - Start httpRange /\ e = fileSize c) /\
   (Length httpRange <> -1 ->
    I64.in_range (Start httpRange + Length httpRange) ->
    e = Z.min (Start httpRange + Length httpRange) (fileSize c)) /\
   (fst (RangeRead c httpRange w) =
      inl (NoChunksFound (Start httpRange) (I64.sub e 1) (fileSize c)
             (List.length (crc_chunks c))) \/
    exists r, fst (RangeRead c httpRange w) = inr r /\
              requestStart r = Start httpRange /\ requestEnd r = e /\
              currentChunk r = 0%nat /\ currentReader r = None /\
              totalRead r = 0)).
Proof.
  split; [apply RangeRead_pure|].
  split; [|split].
  - intros H. unfold RangeRead.
    destruct (Z.ltb_spec (Start httpRange) 0); [reflexivity | lia].
  - intros H0 H1. unfold RangeRead.
    destruct (Z.ltb_spec (Start httpRange) 0); [lia|].
    destruct (Z.geb_spec (Start httpRange) (fileSize c)); [reflexivity | lia].
  - intros Hs Hf. cbv zeta.
    split; [apply clampRange_le|].
    split; [|split].
    + intros HL. rewrite clampRange_sentinel by assumption. split; reflexivity.
    + intros HL Hr. rewrite clampRange_length by assumption. reflexivity.
    + unfold RangeRead.
      destruct (Z.ltb_spec (Start httpRange) 0); [lia|].
      destruct (Z.geb_spec (Start httpRange) (fileSize c)); [lia|].
      pose proof (clampRange_start (fileSize c) httpRange) as Hst.
      destruct (clampRange (fileSize c) httpRange) as [rng' e].
      cbn [fst snd] in *.
      destruct (_ =? _)%nat; cbn [ret fst]; rewrite Hst.
      * left. reflexivity.
      * right. eexists. split; [reflexivity|]. cbn. auto.
Qed.

(** The spec's scenario [{start: -1, length: 100}], a start at the file
    size, the sentinel and a length that runs over the end, on the demo
    file. *)
Lemma RangeRead_bounds_witness :
  RangeRead demo_closer {| Start := -1; Length := 100 |} [] =
    (inl (InvalidRangeStart (-1)), []) /\
  RangeRead demo_closer {| Start := 26; Length := 1 |} [] =
    (inl (RangeStartExceeds 26 26), []) /\
  snd (clampRange 26 {| Start := 8; Length := -1 |}) = 26 /\
  snd (clampRange 26 {| Start := 8; Length := 100 |}) = Z.min (8 + 100) 26.
Proof.
  pose proof (RangeRead_bounds demo_closer {| Start := -1; Length := 100 |} [])
    as (Ha & Hb & _).
  pose proof (RangeRead_bounds demo_closer {| Start := 26; Length := 1 |} [])
    as (Hc & _ & Hd & _).
  pose proof (RangeRead_bounds demo_closer {| Start := 8; Length := -1 |} [])
    as (_ & _ & _ & He).
  pose proof (RangeRead_bounds demo_closer {| Start := 8; Length := 100 |} [])
    as (_ & _ & _ & Hf).
  cbn [Start Length demo_closer NewChunkedRangeReadCloser fileSize] in *.
  specialize (Hb ltac:(lia)).
  specialize (Hd ltac:(lia) ltac:(lia)).
  specialize (He ltac:(lia) ltac:(unfold I64.max_int; lia)).
  specialize (Hf ltac:(lia) ltac:(unfold I64.max_int; lia)).
  cbv zeta in He, Hf.
  destruct He as (_ & He & _). specialize (He eq_refl).
  destruct Hf as (_ & _ & Hf & _).
  specialize (Hf ltac:(lia) ltac:(in64; lia)).
  split; [|split; [|split]].
  - rewrite (surjective_pairing (RangeRead _ _ _)). rewrite Ha, Hb. reflexivity.
  - rewrite (surjective_pairing (RangeRead _ _ _)). rewrite Hc, Hd. reflexivity.
  - apply He.
  - apply Hf.
Defined.

(** ** The trace only grows *)

Lemma extends_refl (w : trace) : extends w w.
Proof. exists []. now rewrite app_nil_r. Qed.

Lemma extends_trans (w1 w2 w3 : trace) :
  extends w1 w2 -> extends w2 w3 -> extends w1 w3.
Proof. intros [t1 ->] [t2 ->]. exists (t1 ++ t2). now rewrite app_assoc. Qed.

Lemma extends_snoc (w w' : trace) (ev : event) :
  extends w w' -> extends w (w' ++ [ev]).
Proof. intros [t ->]. exists (t ++ [ev]). now rewrite app_assoc. Qed.

Ltac ext_step :=
  first [apply extends_refl | eassumption | (apply extends_snoc; ext_step)].
Ltac ext := cbn [snd] in *; try ext_step.

Lemma createChunkReader_extends (be : Backend) (url : string)
    (offset length : Z) (w : trace) :
  extends w (snd (createChunkReader be url offset length w)).
Proof.
  unfold createChunkReader. destruct (NewRequest be url); run; [ext|].
  destruct (Do be w _) as [err|resp]; [ext|].
  destruct (_ && _); ext.
Qed.

Lemma retryLoop_extends (be : Backend) (r : ChunkedReader)
    (chunk : FileChunk) (lo hi : Z) (n : nat) :
  forall retry w, extends w (snd (retryLoop be r chunk lo hi n retry w)).
Proof.
  induction n as [|n IH]; intros retry w; cbn [retryLoop].
  - run. ext.
  - unfold bind at 1, call at 1.
    destruct (GetPageProperty be w _ _) as [err|property].
    + destruct (retry =? maxRetries - 1); run; [ext|].
      eapply extends_trans; [|apply IH]. ext.
    + destruct (Files property) as [|file0 files]; run; [ext|].
      pose proof (createChunkReader_extends be (URL (FileObject_File file0))
                    lo (I64.sub hi lo)
                    (w ++ [EvGetPageProperty (NotionPageID chunk)
                             (filePageID (notionClient r))])) as Hc.
      destruct (createChunkReader be _ lo _ _) as [[err|body] w1];
        cbn [snd] in Hc.
      * destruct (retry =? maxRetries - 1).
        -- eapply extends_trans; [|exact Hc]. ext.
        -- eapply extends_trans; [|apply IH].
           apply extends_snoc. eapply extends_trans; [|exact Hc]. ext.
      * eapply extends_trans; [|exact Hc]. ext.
Qed.

Lemma openCurrent_extends (be : Backend) (r : ChunkedReader) (w : trace) :
  extends w (snd (openCurrent be r w)).
Proof.
  unfold openCurrent. destruct (currentReader r); run; [ext|].
  destruct (nth_error _ _) as [chunk|]; [|ext].
  pose proof (retryLoop_extends be r chunk (chunkStartOf r chunk)
                (chunkEndOf r chunk) (Z.to_nat maxRetries) 0 w) as H.
  destruct (retryLoop be r chunk _ _ _ 0 w) as [[err|reader] w1]; ext.
Qed.

Lemma deliver_extends (r : ChunkedReader) (p : nat) (w : trace) :
  extends w (snd (deliver r p w)).
Proof.
  unfold deliver. destruct (_ && _); run; [ext|].
  destruct (currentReader r) as [body|]; [|ext].
  destruct (body_read body _) as [[data [e|]] body']; [|ext].
  destruct (is_EOF e); [destruct (_ && _)|]; ext.
Qed.

Lemma Read_extends (be : Backend) (r : ChunkedReader) (p : nat) (w : trace) :
  extends w (snd (Read be r p w)).
Proof.
  unfold Read. destruct (_ >=? _); run; [ext|].
  pose proof (openCurrent_extends be r w) as H.
  destruct (openCurrent be r w) as [[res|r'] w1]; [ext|].
  eapply extends_trans; [exact H | apply deliver_extends].
Qed.

(** ** Selection of the chunks and the range fetched from each *)

Lemma RangeRead_in_bounds (c : ChunkedRangeReadCloser) (httpRange : Range)
    (w : trace) :
  0 <= Start httpRange < fileSize c ->
  RangeRead c httpRange w =
    (let e := snd (clampRange (fileSize c) httpRange) in
     let sel := filter (overlaps (Start httpRange) e) (crc_chunks c) in
     match sel with
     | [] => inl (NoChunksFound (Start httpRange) (I64.sub e 1) (fileSize c)
                    (List.length (crc_chunks c)))
     | _ :: _ => inr {| notionClient := crc_notionClient c; chunks := sel;
                        requestStart := Start httpRange; requestEnd := e;
                        currentChunk := 0; currentReader := None;
                        currentOffset := 0; totalRead := 0 |}
     end, w).
Proof.
  intros Hs. unfold RangeRead.
  destruct (Z.ltb_spec (Start httpRange) 0); [lia|].
  destruct (Z.geb_spec (Start httpRange) (fileSize c)); [lia|].
  pose proof (clampRange_start (fileSize c) httpRange) as Hst.
  destruct (clampRange (fileSize c) httpRange) as [rng' e].
  cbn [fst snd] in *. rewrite Hst. cbv zeta.
  destruct (filter _ _); reflexivity.
Qed.

(** The first attempt of the retry loop, when the resolution answers with a
    file: one resolution, then one GET for the range it was given. *)
Lemma retryLoop_first (be : Backend) (r : ChunkedReader) (chunk : FileChunk)
    (lo hi : Z) (n : nat) (retry : Z) (w : trace)
    (property : PropertyResponse) (file0 : FileObject)
    (files : list FileObject) :
  GetPageProperty be w (NotionPageID chunk) (filePageID (notionClient r)) =
    inr property ->
  Files property = file0 :: files ->
  NewRequest be (URL (FileObject_File file0)) = None ->
  extends
    (w ++ [EvGetPageProperty (NotionPageID chunk)
             (filePageID (notionClient r));
           EvDo (chunkRequest (URL (FileObject_File file0)) lo
                   (I64.sub hi lo))])
    (snd (retryLoop be r chunk lo hi (S n) retry w)).
Proof.
  intros Hres Hfiles Hnew. cbn [retryLoop].
  unfold bind at 1, call at 1. rewrite Hres, Hfiles.
  unfold bind at 1, createChunkReader. rewrite Hnew.
  unfold bind at 1, call at 1.
  replace (w ++ [EvGetPageProperty (NotionPageID chunk)
                   (filePageID (notionClient r));
                 EvDo (chunkRequest (URL (FileObject_File file0)) lo
                         (I64.sub hi lo))])
    with ((w ++ [EvGetPageProperty (NotionPageID chunk)
                   (filePageID (notionClient r))]) ++
          [EvDo (chunkRequest (URL (FileObject_File file0)) lo
                   (I64.sub hi lo))])
    by (rewrite <- app_assoc; reflexivity).
  destruct (Do be _ _) as [err|resp].
  - unfold ret at 1. destruct (retry =? maxRetries - 1); run; [ext|].
    eapply extends_trans; [|apply retryLoop_extends]. ext.
  - destruct (_ && _); run.
    + destruct (retry =? maxRetries - 1); [ext|].
      eapply extends_trans; [|apply retryLoop_extends]. ext.
    + ext.
Qed.

Lemma rangeHeader_bounded (lo hi : Z) :
  0 <= lo -> lo < hi -> hi <= I64.max_int ->
  rangeHeader lo (hi - lo) = RangeBounded lo (hi - 1).
Proof.
  intros H0 H1 H2. unfold rangeHeader.
  destruct (Z.gtb_spec (hi - lo) 0); [|lia].
  rewrite add_small by (in64; lia). rewrite sub_small by (in64; lia).
  f_equal. lia.
Qed.

(** C3.  For an in-bounds request with derived end [e], [RangeRead] keeps
    exactly the chunks with [StartOffset < e] and [EndOffset > start], in
    the order of the list, and answers the "no chunks" error with the
    bounds, the file size and the chunk count when there is none.  A reader
    on this selection that enters a chunk resolves its page and then
    requests the range [max start StartOffset - StartOffset,
    min e EndOffset - StartOffset) of the chunk object. *)
Theorem RangeRead_selection (c : ChunkedRangeReadCloser) (httpRange : Range)
    (w : trace) :
  0 <= Start httpRange < fileSize c ->
  fileSize c <= I64.max_int ->
  let s := Start httpRange in
  let e := snd (clampRange (fileSize c) httpRange) in
  let sel := filter (fun chunk => (StartOffset chunk <? e)
                                  && (EndOffset chunk >? s)) (crc_chunks c) in
  (forall chunk, In chunk sel <->
     In chunk (crc_chunks c) /\ StartOffset chunk < e /\ EndOffset chunk > s) /\
  (sel = [] ->
   RangeRead c httpRange w =
     (inl (NoChunksFound s (I64.sub e 1) (fileSize c)
             (List.length (crc_chunks c))), w)) /\
  (sel <> [] ->
   exists r0, RangeRead c httpRange w = (inr r0, w) /\
     chunks r0 = sel /\ requestStart r0 = s /\ requestEnd r0 = e /\
     currentChunk r0 = 0%nat /\ currentReader r0 = None /\ totalRead r0 = 0) /\
  (forall be r chunk p w1 property file0 files,
     chunks r = sel -> requestStart r = s -> requestEnd r = e ->
     currentReader r = None ->
     nth_error sel (currentChunk r) = Some chunk ->
     totalRead r < e - s ->
     GetPageProperty be w1 (NotionPageID chunk)
       (filePageID (notionClient r)) = inr property ->
     Files property = file0 :: files ->
     NewRequest be (URL (FileObject_File file0)) = None ->
     0 <= StartOffset chunk -> EndOffset chunk <= I64.max_int ->
     let lo := Z.max s (StartOffset chunk) - StartOffset chunk in
     let hi := Z.min e (EndOffset chunk) - StartOffset chunk in
     exists req,
       extends (w1 ++ [EvGetPageProperty (NotionPageID chunk)
                         (filePageID (notionClient r)); EvDo req])
         (snd (Read be r p w1)) /\
       Req_URL req = URL (FileObject_File file0) /\
       Req_Range req = rangeHeader lo (hi - lo) /\
       (lo < hi -> Req_Range req = RangeBounded lo (hi - 1))).
Proof.
  intros Hs Hf s e sel.
  assert (He : e <= fileSize c) by apply clampRange_le.
  split; [|split; [|split]].
  - intros chunk. unfold sel. rewrite filter_In, andb_true_iff.
    rewrite Z.ltb_lt, Z.gtb_gt. reflexivity.
  - intros Hnil. rewrite RangeRead_in_bounds by assumption. cbv zeta.
    change (filter (overlaps (Start httpRange)
                      (snd (clampRange (fileSize c) httpRange)))
              (crc_chunks c)) with sel.
    rewrite Hnil. reflexivity.
  - intros Hne. rewrite RangeRead_in_bounds by assumption. cbv zeta.
    change (filter (overlaps (Start httpRange)
                      (snd (clampRange (fileSize c) httpRange)))
              (crc_chunks c)) with sel.
    destruct sel as [|c0 sel'] eqn:Esel; [contradiction|].
    eexists. split; [reflexivity|]. cbn. repeat split.
  - intros be r chunk p w1 property file0 files Hch Hrs Hre Hcur Hnth Htot
      Hres Hfiles Hnew Hc0 Hc1 lo hi.
    assert (Hin : In chunk sel) by (eapply nth_error_In; eassumption).
    unfold sel in Hin. rewrite filter_In, andb_true_iff in Hin.
    rewrite Z.ltb_lt, Z.gtb_gt in Hin. destruct Hin as (_ & Hlt & Hgt).
    assert (Elo : chunkStartOf r chunk = lo).
    { unfold chunkStartOf, lo. rewrite Hrs, max_is_Zmax.
      apply sub_small. in64. fold s. lia. }
    assert (Ehi : chunkEndOf r chunk = hi).
    { unfold chunkEndOf, hi. rewrite Hre, min_is_Zmin.
      apply sub_small. in64. fold s. lia. }
    assert (Elen : I64.sub hi lo = hi - lo).
    { apply sub_small. unfold hi, lo. in64. fold s. lia. }
    exists (chunkRequest (URL (FileObject_File file0)) lo (hi - lo)).
    split; [|split; [reflexivity|split; [reflexivity|]]].
    + unfold Read. rewrite Hre, Hrs.
      rewrite sub_small by (in64; fold s; lia).
      destruct (Z.geb_spec (totalRead r) (e - s)); [lia|].
      unfold bind at 1, openCurrent. rewrite Hcur, Hch, Hnth.
      unfold bind at 1. rewrite Elo, Ehi.
      pose proof (retryLoop_first be r chunk lo hi 2 0 w1 property file0
                    files Hres Hfiles Hnew) as Hfirst.
      change (Z.to_nat maxRetries) with 3%nat.
      rewrite Elen in Hfirst.
      destruct (retryLoop be r chunk lo hi 3 0 w1) as [[err|reader] w2];
        cbn [snd] in Hfirst; run; [exact Hfirst|].
      eapply extends_trans; [exact Hfirst | apply deliver_extends].
    + intros Hlh. cbn [chunkRequest Req_Range].
      apply rangeHeader_bounded; unfold lo, hi in *; fold s; lia.
Qed.

(** The request for offsets 8 to 15 of the demo file selects the first two
    chunks, and the reader asks the first one for its bytes 8 and 9. *)
Lemma RangeRead_selection_witness :
  (exists r0,
     RangeRead demo_closer {| Start := 8; Length := 7 |} [] = (inr r0, []) /\
     chunks r0 = [demo_chunk 0 0 10 "p0"; demo_chunk 1 10 20 "p1"]) /\
  (exists req,
     extends [EvGetPageProperty "p0" "files"; EvDo req]
       (snd (Read honest_backend
               (demo_reader [demo_chunk 0 0 10 "p0"; demo_chunk 1 10 20 "p1"]
                  8 15) 4 [])) /\
     Req_Range req = RangeBounded 8 9).
Proof.
  pose proof (RangeRead_selection demo_closer {| Start := 8; Length := 7 |} []
                ltac:(cbn; lia) ltac:(cbn; unfold I64.max_int; lia)) as H.
  cbv zeta in H. destruct H as (_ & _ & H3 & H4). split.
  - destruct H3 as (r0 & E & Hc & _).
    { intros X. vm_compute in X. discriminate X. }
    exists r0. split; [exact E|]. rewrite Hc. reflexivity.
  - destruct (H4 honest_backend
                (demo_reader [demo_chunk 0 0 10 "p0"; demo_chunk 1 10 20 "p1"]
                   8 15)
                (demo_chunk 0 0 10 "p0") 4%nat [] (demo_property ["p0"%string])
                {| FileObject_Type := "file"; FileObject_Name := "p0";
                   FileObject_File := {| URL := "p0"; ExpiryTime := "" |} |}
                [])
      as (req & Hext & _ & _ & Hb);
      try reflexivity; try (vm_compute; congruence).
    exists req. split; [exact Hext|]. apply Hb. reflexivity.
Defined.

(** The spec's scenario: [{start: 4 400 000 000, length: 200 000 000}]
    over the 10 GB layout maps to the range [4.4e9, 4.5e9) of chunk 0 and
    the range [0, 1e8) of chunk 1. *)
Example scenario_two_chunks :
  exists r,
    RangeRead (NewChunkedRangeReadCloser demo_client big_chunks 10000000000)
      {| Start := 4400000000; Length := 200000000 |} [] = (inr r, []) /\
    map (fun c => (ChunkIndex c, chunkStartOf r c, chunkEndOf r c))
      (chunks r) =
    [(0, 4400000000, 4500000000); (1, 0, 100000000)].
Proof. eexists. split; reflexivity. Qed.

(** ** Contiguous chunk lists *)

Lemma contiguous_bounds (cs : list FileChunk) :
  forall from to, contiguous from cs to ->
  from <= to /\
  forall c, In c cs ->
    from <= StartOffset c /\ StartOffset c <= EndOffset c /\ EndOffset c <= to.
Proof.
  induction cs as [|c0 cs IH]; intros from to H; cbn [contiguous] in H.
  - split; [lia|]. intros c [].
  - destruct H as (H0 & H1 & H2). destruct (IH _ _ H2) as (Hle & Hin).
    split; [lia|]. intros c [<-|Hc]; [lia|].
    specialize (Hin c Hc). lia.
Qed.

(** No boundary of a contiguous list lies strictly inside one of its
    chunks. *)
Lemma contiguous_no_straddle (cs : list FileChunk) :
  forall from to, contiguous from cs to ->
  forall c1 c2, In c1 cs -> In c2 cs ->
    ~ (StartOffset c1 < StartOffset c2 < EndOffset c1) /\
    ~ (StartOffset c1 < EndOffset c2 < EndOffset c1).
Proof.
  induction cs as [|c0 cs IH]; intros from to H c1 c2 H1 H2; [destruct H1|].
  cbn [contiguous] in H. destruct H as (H0 & Hle & Hrest).
  destruct (contiguous_bounds _ _ _ Hrest) as (_ & Hb).
  destruct H1 as [<-|H1], H2 as [<-|H2].
  - lia.
  - specialize (Hb c2 H2). lia.
  - specialize (Hb c1 H1). lia.
  - eapply IH; eassumption.
Qed.

Lemma filter_nil {A : Type} (f : A -> bool) (l : list A) :
  (forall x, In x l -> f x = false) -> filter f l = [].
Proof.
  induction l as [|a l IH]; intros H; [reflexivity|]. cbn [filter].
  rewrite (H a (or_introl eq_refl)). apply IH. intros x Hx. apply H. now right.
Qed.

Lemma clampRange_zero (fsize start : Z) :
  0 <= start < fsize -> fsize <= I64.max_int ->
  snd (clampRange fsize {| Start := start; Length := 0 |}) = start.
Proof.
  intros Hs Hf. rewrite clampRange_length; cbn [Start Length snd];
    solve [lia | assumption | in64; lia].
Qed.

(** C10.  On a contiguous chunk list, a request of length 0 whose start is
    a chunk boundary (the start or the end of a chunk, offset 0 included)
    selects no chunk and gets the "no chunks" error; one whose start lies
    strictly inside a chunk gets a reader, and every [Read] of that reader
    returns no bytes and EOF without reaching the backend. *)
Theorem zero_length_request (c : ChunkedRangeReadCloser) (start : Z)
    (w : trace) :
  contiguous 0 (crc_chunks c) (fileSize c) ->
  0 <= start < fileSize c ->
  fileSize c <= I64.max_int ->
  ((exists chunk, In chunk (crc_chunks c) /\
                  (StartOffset chunk = start \/ EndOffset chunk = start)) ->
   RangeRead c {| Start := start; Length := 0 |} w =
     (inl (NoChunksFound start (start - 1) (fileSize c)
             (List.length (crc_chunks c))), w)) /\
  ((exists chunk, In chunk (crc_chunks c) /\
                  StartOffset chunk < start < EndOffset chunk) ->
   exists r, RangeRead c {| Start := start; Length := 0 |} w = (inr r, w) /\
     forall be p w1, Read be r p w1 = (([], Some EOF), r, w1)).
Proof.
  intros Hcont Hs Hf. split.
  - intros (b & Hb & Hedge).
    rewrite RangeRead_in_bounds by assumption. cbv zeta.
    rewrite clampRange_zero by assumption. cbn [Start].
    rewrite filter_nil.
    + rewrite sub_small by (in64; lia). reflexivity.
    + intros x Hx. unfold overlaps.
      destruct (contiguous_no_straddle _ _ _ Hcont x b Hx Hb) as (Ha & Hc).
      destruct (Z.ltb_spec (StartOffset x) start);
        destruct (Z.gtb_spec (EndOffset x) start); try reflexivity.
      exfalso. destruct Hedge as [E|E]; rewrite <- E in *; lia.
  - intros (b & Hb & Hin).
    rewrite RangeRead_in_bounds by assumption. cbv zeta.
    rewrite clampRange_zero by assumption. cbn [Start].
    assert (Hsel : In b (filter (overlaps start start) (crc_chunks c))).
    { apply filter_In. split; [assumption|]. unfold overlaps.
      apply andb_true_iff. rewrite Z.ltb_lt, Z.gtb_gt. lia. }
    destruct (filter _ _) as [|c0 sel]; [destruct Hsel|].
    eexists. split; [reflexivity|].
    intros be p w1. unfold Read. cbn [totalRead requestEnd requestStart].
    rewrite sub_small by (in64; lia).
    destruct (Z.geb_spec 0 (start - start)); [reflexivity | lia].
Qed.

(** On the demo file, offset 10 is the boundary of the first two chunks and
    offset 11 lies inside the second. *)
Lemma zero_length_request_witness :
  RangeRead demo_closer {| Start := 10; Length := 0 |} [] =
    (inl (NoChunksFound 10 9 26 3), []) /\
  exists r, RangeRead demo_closer {| Start := 11; Length := 0 |} [] =
              (inr r, []) /\
            Read honest_backend r 4 [] = (([], Some EOF), r, []).
Proof.
  assert (Hc : contiguous 0 (crc_chunks demo_closer) (fileSize demo_closer)).
  { cbn. repeat split; lia. }
  assert (Hf : fileSize demo_closer <= I64.max_int).
  { cbn. unfold I64.max_int. lia. }
  split.
  - refine (proj1 (zero_length_request demo_closer 10 [] Hc _ Hf) _).
    + cbn. lia.
    + exists (demo_chunk 1 10 20 "p1"). split; [cbn; tauto | left; reflexivity].
  - destruct (proj2 (zero_length_request demo_closer 11 [] Hc
                       ltac:(cbn; lia) Hf)) as (r & Hr & Hread).
    + exists (demo_chunk 1 10 20 "p1"). split; [cbn; tauto | cbn; lia].
    + exists r. split; [exact Hr | apply Hread].
Defined.

(** ** Exhaustion *)

Lemma Read_exhausted (be : Backend) (r : ChunkedReader) (p : nat)
    (w : trace) :
  cursor_ok r ->
  totalRead r >= I64.sub (requestEnd r) (requestStart r) \/
  (currentChunk r >= List.length (chunks r))%nat ->
  Read be r p w = (([], Some EOF), r, w).
Proof.
  intros Hok Hex. unfold Read.
  destruct (Z.geb_spec (totalRead r)
              (I64.sub (requestEnd r) (requestStart r))); [reflexivity|].
  destruct Hex as [Hex|Hex]; [lia|].
  unfold bind, openCurrent.
  destruct (currentReader r) as [body|] eqn:Ecur.
  - exfalso. unfold cursor_ok in Hok. rewrite Ecur in Hok.
    specialize (Hok ltac:(discriminate)). lia.
  - destruct (nth_error (chunks r) (currentChunk r)) eqn:Enth; [|reflexivity].
    exfalso. apply nth_error_None in Hex. congruence.
Qed.

Lemma reads_exhausted (be : Backend) (r : ChunkedReader) (ps : list nat)
    (w : trace) :
  cursor_ok r ->
  totalRead r >= I64.sub (requestEnd r) (requestStart r) \/
  (currentChunk r >= List.length (chunks r))%nat ->
  reads be r ps w = (map (fun _ => ([], Some EOF)) ps, r, w).
Proof.
  intros Hok Hex. induction ps as [|p ps IH]; [reflexivity|].
  cbn [reads map]. unfold bind at 1. rewrite Read_exhausted by assumption.
  unfold bind at 1. rewrite IH. reflexivity.
Qed.

Lemma deliver_cursor_ok (r : ChunkedReader) (p : nat) (w : trace) :
  (currentChunk r < List.length (chunks r))%nat ->
  cursor_ok (snd (fst (deliver r p w))).
Proof.
  intros Hlt. unfold deliver, cursor_ok.
  destruct (_ && _); run; [intros _; exact Hlt|].
  destruct (currentReader r) as [body|]; cbn; [|intros _; exact Hlt].
  destruct (body_read body _) as [[data [e|]] body']; cbn;
    [|intros _; exact Hlt].
  destruct (is_EOF e); [destruct (_ && _)|]; cbn; congruence.
Qed.

Lemma Read_cursor_ok (be : Backend) (r : ChunkedReader) (p : nat)
    (w : trace) :
  cursor_ok r -> cursor_ok (snd (fst (Read be r p w))).
Proof.
  intros Hok. unfold Read. destruct (_ >=? _); run; [exact Hok|].
  unfold openCurrent.
  destruct (currentReader r) as [body|] eqn:Ecur.
  - apply deliver_cursor_ok. apply Hok. congruence.
  - destruct (nth_error (chunks r) (currentChunk r)) as [chunk|] eqn:Enth;
      [|exact Hok].
    unfold bind.
    destruct (retryLoop be r chunk _ _ _ 0 w) as [[err|reader] w1];
      [exact Hok|].
    apply deliver_cursor_ok. cbn. apply nth_error_Some. congruence.
Qed.

Lemma reads_cursor_ok (be : Backend) (ps : list nat) :
  forall r w, cursor_ok r -> cursor_ok (snd (fst (reads be r ps w))).
Proof.
  induction ps as [|p ps IH]; intros r w Hok; [exact Hok|].
  cbn [reads]. unfold bind at 1.
  pose proof (Read_cursor_ok be r p w Hok) as H1.
  destruct (Read be r p w) as [[out r1] w1]. cbn [fst snd] in H1.
  unfold bind at 1. specialize (IH r1 w1 H1).
  destruct (reads be r1 ps w1) as [[outs r2] w2]. exact IH.
Qed.

Lemma RangeRead_cursor_ok (c : ChunkedRangeReadCloser) (httpRange : Range)
    (w : trace) (r : ChunkedReader) :
  fst (RangeRead c httpRange w) = inr r -> cursor_ok r.
Proof.
  unfold RangeRead.
  destruct (_ <? 0); [discriminate|]. destruct (_ >=? _); [discriminate|].
  destruct (clampRange _ _) as [rng' e].
  destruct (_ =? _)%nat; [discriminate|].
  cbn. intros [= <-]. unfold cursor_ok. cbn. congruence.
Qed.

(** C7.  Once a reader obtained from [RangeRead] has delivered the
    requested number of bytes, or has moved past its last chunk, every
    further [Read] returns no bytes and EOF, and leaves the reader and the
    trace as they are: nothing is resolved, opened, read or closed. *)
Theorem exhaustion_is_terminal (c : ChunkedRangeReadCloser)
    (httpRange : Range) (be : Backend) (w0 : trace) (r0 : ChunkedReader)
    (before : list nat) :
  fst (RangeRead c httpRange w0) = inr r0 ->
  let r := snd (fst (reads be r0 before w0)) in
  let w := snd (reads be r0 before w0) in
  totalRead r >= I64.sub (requestEnd r) (requestStart r) \/
  (currentChunk r >= List.length (chunks r))%nat ->
  forall after,
    reads be r after w = (map (fun _ => ([], Some EOF)) after, r, w).
Proof.
  intros Hr0 r w Hex after. apply reads_exhausted; [|exact Hex].
  apply reads_cursor_ok. eapply RangeRead_cursor_ok. eassumption.
Qed.

(** After offsets 8 to 15 of the demo file have been read, two more calls
    change nothing. *)
Lemma exhaustion_is_terminal_witness :
  exists r0,
    fst (RangeRead demo_closer {| Start := 8; Length := 7 |} []) = inr r0 /\
    let r := snd (fst (reads honest_backend r0 [4; 4; 4; 4]%nat [])) in
    let w := snd (reads honest_backend r0 [4; 4; 4; 4]%nat []) in
    reads honest_backend r [4; 4]%nat w =
      ([([], Some EOF); ([], Some EOF)], r, w).
Proof.
  eexists. split; [reflexivity|]. cbv zeta.
  apply (exhaustion_is_terminal demo_closer {| Start := 8; Length := 7 |}
           honest_backend [] _ [4; 4; 4; 4]%nat eq_refl).
  left. vm_compute. discriminate.
Defined.

(** ** What a [Read] leaves alone, and the cap on the byte count *)

Lemma body_read_length (b : Body) (k : nat) :
  (List.length (fst (fst (body_read b k))) <= k)%nat.
Proof.
  unfold body_read. destruct (payload b) as [|x l] eqn:E; cbn; [lia|].
  assert (H : (List.length (firstn (Nat.min k (Pos.to_nat (burst b))) (x :: l))
               <= k)%nat).
  { rewrite length_firstn. lia. }
  destruct (skipn _ (x :: l)); [destruct (eager b)|]; cbn [fst]; exact H.
Qed.

Lemma openCurrent_frame (be : Backend) (r : ChunkedReader) (w : trace) :
  match fst (openCurrent be r w) with
  | inl (out, r') => r' = r /\ fst out = []
  | inr r' => exists reader offset, r' = with_reader r reader offset
  end.
Proof.
  unfold openCurrent. destruct (currentReader r) as [body|] eqn:E; run.
  - exists (Some body), (currentOffset r). destruct r; cbn in *. now subst.
  - destruct (nth_error _ _) as [chunk|]; cbn; [|auto].
    unfold bind. destruct (retryLoop _ _ _ _ _ _ _ _) as [[err|reader] w1];
      cbn; eauto.
Qed.

Lemma deliver_count (r : ChunkedReader) (p : nat) (w : trace) :
  I64.in_range (requestEnd r - requestStart r) ->
  0 <= totalRead r < requestEnd r - requestStart r ->
  let res := fst (deliver r p w) in
  chunks (snd res) = chunks r /\ requestStart (snd res) = requestStart r /\
  requestEnd (snd res) = requestEnd r /\
  notionClient (snd res) = notionClient r /\
  totalRead (snd res) = totalRead r + Z.of_nat (List.length (fst (fst res))) /\
  totalRead (snd res) <= requestEnd r - requestStart r /\
  (List.length (fst (fst res)) <= p)%nat.
Proof.
  intros Hr Ht. unfold deliver.
  rewrite (sub_small (requestEnd r)) by assumption.
  rewrite sub_small by (in64; lia).
  set (remaining := requestEnd r - requestStart r - totalRead r).
  assert (Hrem : 0 < remaining) by (unfold remaining; lia).
  destruct (Z.ltb_spec remaining 0); [lia|]. rewrite andb_false_r.
  set (p' := if Z.of_nat p >? remaining then Z.to_nat remaining else p).
  assert (Hp' : (p' <= p)%nat /\ Z.of_nat p' <= remaining).
  { unfold p'. destruct (Z.gtb_spec (Z.of_nat p) remaining); lia. }
  cbv zeta.
  destruct (currentReader r) as [body|]; run; [|cbn; repeat split; lia].
  pose proof (body_read_length body p') as Hlen.
  destruct (body_read body p') as [[data err] body']. cbn [fst] in Hlen.
  assert (Hadd : I64.add (totalRead r) (Z.of_nat (List.length data)) =
                 totalRead r + Z.of_nat (List.length data)).
  { apply add_small. in64. unfold remaining in *. lia. }
  destruct err as [e|]; [destruct (is_EOF e); [destruct (_ && _)|]|];
    cbn; rewrite Hadd; unfold remaining in *; repeat split; lia.
Qed.

Lemma Read_count (be : Backend) (r : ChunkedReader) (p : nat) (w : trace) :
  I64.in_range (requestEnd r - requestStart r) ->
  0 <= totalRead r <= requestEnd r - requestStart r ->
  let res := fst (Read be r p w) in
  chunks (snd res) = chunks r /\ requestStart (snd res) = requestStart r /\
  requestEnd (snd res) = requestEnd r /\
  notionClient (snd res) = notionClient r /\
  totalRead (snd res) = totalRead r + Z.of_nat (List.length (fst (fst res))) /\
  totalRead (snd res) <= requestEnd r - requestStart r /\
  (List.length (fst (fst res)) <= p)%nat.
Proof.
  intros Hr Ht. unfold Read. rewrite sub_small by assumption.
  destruct (Z.geb_spec (totalRead r) (requestEnd r - requestStart r)).
  { cbn. repeat split; lia. }
  unfold bind. pose proof (openCurrent_frame be r w) as Hf.
  destruct (openCurrent be r w) as [[[out r1]|r1] w1]; cbn [fst] in Hf.
  - destruct Hf as [-> Hout]. cbn. rewrite Hout. cbn. repeat split; lia.
  - destruct Hf as (reader & offset & ->).
    apply (deliver_count (with_reader r reader offset) p w1);
      cbn [requestEnd requestStart totalRead with_reader];
      [assumption | lia].
Qed.

Lemma reads_count (be : Backend) (ps : list nat) :
  forall r w outs r' w',
  I64.in_range (requestEnd r - requestStart r) ->
  0 <= totalRead r <= requestEnd r - requestStart r ->
  reads be r ps w = (outs, r', w') ->
  chunks r' = chunks r /\ requestStart r' = requestStart r /\
  requestEnd r' = requestEnd r /\
  totalRead r' = totalRead r + Z.of_nat (List.length (delivered outs)) /\
  totalRead r' <= requestEnd r - requestStart r /\
  Forall2 (fun p out => (List.length (fst out) <= p)%nat) ps outs.
Proof.
  induction ps as [|p ps IH]; intros r w outs r' w' Hr Ht H.
  { injection H as <- <- <-. cbn. repeat split; try lia. constructor. }
  cbn [reads] in H. unfold bind in H.
  pose proof (Read_count be r p w Hr Ht) as H1. cbv zeta in H1.
  destruct (Read be r p w) as [[out r1] w1]. cbn [fst snd] in H1.
  destruct H1 as (Hc & Hs & He & _ & Htot & Hcap & Hlen).
  destruct (reads be r1 ps w1) as [[outs1 r2] w2] eqn:E2.
  injection H as <- <- <-.
  apply IH in E2; [|rewrite Hs, He; assumption | rewrite Hs, He; lia].
  destruct E2 as (Hc2 & Hs2 & He2 & Htot2 & Hcap2 & Hall).
  unfold delivered in *. cbn [map List.concat]. rewrite length_app.
  repeat split; try congruence; try lia. constructor; assumption.
Qed.

Lemma RangeRead_valid (c : ChunkedRangeReadCloser) (httpRange : Range)
    (w : trace) (r : ChunkedReader) :
  valid_request (fileSize c) httpRange ->
  fileSize c <= I64.max_int ->
  Start httpRange + Length httpRange <= I64.max_int ->
  fst (RangeRead c httpRange w) = inr r ->
  requestStart r = Start httpRange /\
  requestEnd r = requested_end (fileSize c) httpRange /\
  Start httpRange <= requestEnd r <= fileSize c /\
  chunks r = filter (overlaps (requestStart r) (requestEnd r)) (crc_chunks c) /\
  notionClient r = crc_notionClient c /\
  currentChunk r = 0%nat /\ currentReader r = None /\ totalRead r = 0.
Proof.
  intros [Hs HL] Hf Hov H. rewrite RangeRead_in_bounds in H by assumption.
  cbv zeta in H. cbn [fst] in H.
  assert (He : snd (clampRange (fileSize c) httpRange) =
               requested_end (fileSize c) httpRange).
  { unfold requested_end. destruct (Z.eqb_spec (Length httpRange) (-1)) as [E|E].
    - rewrite clampRange_sentinel by assumption. reflexivity.
    - rewrite clampRange_length; try assumption; [reflexivity|].
      in64. lia. }
  rewrite He in H.
  destruct (filter _ _) as [|c0 sel] eqn:Esel; [discriminate|].
  injection H as <-. cbn. rewrite Esel.
  repeat split; try reflexivity; unfold requested_end;
    destruct (Z.eqb_spec (Length httpRange) (-1)); lia.
Qed.

(** C9.  For a valid request, whatever the backend sends, the byte count of
    the reader equals the number of bytes handed out so far and never
    exceeds the requested length [end - start]; no call hands out more
    than its buffer holds; and at the cap every [Read] is an EOF that
    reaches nothing. *)
Theorem totalRead_capped (c : ChunkedRangeReadCloser) (httpRange : Range)
    (be : Backend) (w0 : trace) (r0 : ChunkedReader) (ps : list nat) :
  valid_request (fileSize c) httpRange ->
  fileSize c <= I64.max_int ->
  Start httpRange + Length httpRange <= I64.max_int ->
  fst (RangeRead c httpRange w0) = inr r0 ->
  let cap := requested_end (fileSize c) httpRange - Start httpRange in
  let outs := fst (fst (reads be r0 ps w0)) in
  let r := snd (fst (reads be r0 ps w0)) in
  requestEnd r - requestStart r = cap /\
  totalRead r = Z.of_nat (List.length (delivered outs)) /\
  totalRead r <= cap /\
  Forall2 (fun p out => (List.length (fst out) <= p)%nat) ps outs /\
  (totalRead r = cap -> forall p w, Read be r p w = (([], Some EOF), r, w)).
Proof.
  intros Hv Hf Hov Hr0 cap outs r.
  destruct (RangeRead_valid _ _ _ _ Hv Hf Hov Hr0)
    as (Hs & He & Hle & _ & _ & _ & _ & Ht0).
  assert (Hr : I64.in_range (requestEnd r0 - requestStart r0)).
  { destruct Hv as [Hv _]. in64. lia. }
  destruct (reads_count be ps r0 w0 outs r (snd (reads be r0 ps w0)) Hr
              ltac:(lia)) as (_ & Hs' & He' & Htot & Hcap & Hall).
  { unfold outs, r. now rewrite <- !surjective_pairing. }
  assert (Ecap : requestEnd r - requestStart r = cap)
    by (unfold cap; congruence).
  split; [exact Ecap|]. split; [lia|]. split; [lia|]. split; [exact Hall|].
  intros Hfull p w. apply Read_exhausted.
  - apply reads_cursor_ok. eapply RangeRead_cursor_ok. eassumption.
  - left. rewrite sub_small; [lia|]. rewrite Hs', He'. exact Hr.
Qed.

(** Offsets 8 to 15 of the demo file against a backend that answers every
    range request with the whole object: seven bytes and no more. *)
Lemma totalRead_capped_witness :
  exists r0,
    fst (RangeRead demo_closer {| Start := 8; Length := 7 |} []) = inr r0 /\
    let r := snd (fst (reads full_backend r0 [100; 100]%nat [])) in
    totalRead r <= 7 /\ totalRead r = 7.
Proof.
  exists (demo_reader [demo_chunk 0 0 10 "p0"; demo_chunk 1 10 20 "p1"] 8 15).
  split; [reflexivity|].
  pose proof (totalRead_capped demo_closer {| Start := 8; Length := 7 |}
                full_backend []
                (demo_reader [demo_chunk 0 0 10 "p0"; demo_chunk 1 10 20 "p1"]
                   8 15)
                [100; 100]%nat) as H.
  specialize (H ltac:(unfold valid_request; cbn; in64; lia)
                ltac:(cbn; in64; lia) ltac:(cbn; in64; lia) eq_refl).
  cbv zeta in H. destruct H as (_ & _ & Hcap & _).
  cbv zeta. split; [exact Hcap | reflexivity].
Defined.

(** ** A broken transfer *)

Lemma is_EOF_false (e : error) : e <> EOF -> is_EOF e = false.
Proof. destruct e; intros H; try reflexivity. contradiction. Qed.






(** The open question of the design notes, on the demo file: each retry
    of a transfer that breaks after two bytes hands out the same two bytes
    again, and they count against the cap. *)
Example scenario_retry_redelivers :
  let res := reads broken_backend
               (demo_reader [demo_chunk 0 0 10 "p0"; demo_chunk 1 10 20 "p1"]
                  8 15)
               (repeat 4%nat 5) [] in
  map snd (fst (fst res)) =
    [None; Some (External "connection reset");
     None; Some (External "connection reset"); None] /\
  delivered (fst (fst res)) = list_byte_of_string "ijijij" /\
  currentChunk (snd (fst res)) = 0%nat /\
  totalRead (snd (fst res)) = 6.
Proof. cbv zeta. repeat split. Qed.

(** ** The retry loop *)

Lemma resolutions_app (t1 t2 : trace) :
  resolutions (t1 ++ t2) = (resolutions t1 + resolutions t2)%nat.
Proof. unfold resolutions. now rewrite filter_app, length_app. Qed.

Lemma sleeps_app (t1 t2 : trace) : sleeps (t1 ++ t2) = sleeps t1 ++ sleeps t2.
Proof. unfold sleeps. apply flat_map_app. Qed.















(** The spec's scenario: the resolution fails twice and succeeds on the
    third attempt; the chunk is opened, no error reaches the caller, and
    the range is delivered whole. *)
Example scenario_third_attempt :
  let res := reads flaky_backend
               (demo_reader [demo_chunk 0 0 10 "p0"; demo_chunk 1 10 20 "p1"]
                  8 15)
               (repeat 4%nat 6) [] in
  delivered (fst (fst res)) = list_byte_of_string "ijklmno" /\
  Forall clean (fst (fst res)) /\
  sleeps (snd res) = [1 * Second; 2 * Second] /\
  resolutions (snd res) = 4%nat.
Proof.
  cbv zeta. split; [reflexivity|]. split; [|split; reflexivity].
  vm_compute. repeat (apply Forall_cons; [auto|]). apply Forall_nil.
Qed.

(** ** The loop always ends inside

    Started as [Read] starts it, the retry loop is never left with a nil
    reader: its last round returns.  With [deliver_open], which shows that
    the buffer is never cut at a negative length, this rules out the two
    panics of the model. *)

Lemma retryLoop_never_nil (be : Backend) (r : ChunkedReader)
    (chunk : FileChunk) (lo hi : Z) (n : nat) :
  forall retry w w',
    0 <= retry -> Z.of_nat n + retry = maxRetries -> (0 < n)%nat ->
    retryLoop be r chunk lo hi n retry w <> (LoopLeft None, w').
Proof.
  unfold maxRetries.
  induction n as [|n IH]; intros retry w w' H0 Hsum Hn; [lia|].
  assert (Hadd : I64.add retry 1 = retry + 1)
    by (apply add_small; in64; lia).
  assert (Hnext : forall w1,
            (retry =? 3 - 1) = false ->
            retryLoop be r chunk lo hi n (I64.add retry 1) w1 <>
              (LoopLeft None, w')).
  { intros w1 Hne. apply Z.eqb_neq in Hne. rewrite Hadd.
    apply IH; lia. }
  cbn [retryLoop]. unfold bind at 1, call at 1.
  destruct (GetPageProperty be w _ _) as [err|property].
  - unfold maxRetries. destruct (retry =? 3 - 1) eqn:Elast; run.
    + discriminate.
    + apply Hnext. reflexivity.
  - destruct (Files property) as [|file0 files]; run; [discriminate|].
    destruct (createChunkReader be _ _ _ _) as [[err|body] w1].
    + unfold maxRetries. destruct (retry =? 3 - 1) eqn:Elast.
      * discriminate.
      * apply Hnext. reflexivity.
    + discriminate.
Qed.

(** ** The upload path *)

(** C6 (amended).  When no file of that name exists in the directory, [Put]
    takes the chunked path exactly for sizes strictly above
    [ChunkThreshold], 5 GiB, and the single-file path for every size up to
    and including it; the chunked path runs with the chunk size
    [MaxChunkSize], 4.5 GiB. *)
Theorem Put_dispatch (be : Backend) (dstDir : Obj) (file : FileStreamer)
    (w : trace) :
  DbFirstFile be w (Base be (name file)) (Obj_ID dstDir) = RecordNotFound ->
  let w1 := w ++ [EvDbFirstFile (Base be (name file)) (Obj_ID dstDir)] in
  let fileName := Base be (name file) in
  let dirID := Atoi be (Obj_ID dstDir) in
  (size file > ChunkThreshold ->
   Put be dstDir file w =
     putChunkedFileWith MaxChunkSize be fileName (size file) dirID file w1) /\
  (size file <= ChunkThreshold ->
   Put be dstDir file w =
     putSingleFile be fileName (size file) dirID file w1) /\
  ChunkThreshold = 5 * 1024 * 1024 * 1024 /\
  2 * MaxChunkSize = 9 * 1024 * 1024 * 1024.
Proof.
  intros Hlookup w1 fileName dirID.
  split; [|split; [|split; reflexivity]]; intros Hsize;
    unfold Put, bind, call; rewrite Hlookup;
    destruct (Z.gtb_spec (size file) ChunkThreshold); try lia; reflexivity.
Qed.

(** One byte above the threshold goes the chunked way, the threshold itself
    the single-file way. *)
Lemma Put_dispatch_witness :
  Put honest_backend demo_dir (demo_upload (ChunkThreshold + 1)) [] =
    putChunkedFileWith MaxChunkSize honest_backend "big.bin"
      (ChunkThreshold + 1) 1 (demo_upload (ChunkThreshold + 1))
      [EvDbFirstFile "big.bin" "1"] /\
  Put honest_backend demo_dir (demo_upload ChunkThreshold) [] =
    putSingleFile honest_backend "big.bin" ChunkThreshold 1
      (demo_upload ChunkThreshold) [EvDbFirstFile "big.bin" "1"].
Proof.
  split.
  - apply (proj1 (Put_dispatch honest_backend demo_dir
                    (demo_upload (ChunkThreshold + 1)) [] eq_refl)).
    unfold demo_upload, ChunkThreshold. cbn [size]. lia.
  - apply (proj1 (proj2 (Put_dispatch honest_backend demo_dir
                           (demo_upload ChunkThreshold) [] eq_refl))).
    unfold demo_upload, ChunkThreshold. cbn [size]. lia.
Defined.

(** C6 as first stated fails at the limit itself: [Put] uploads an input
    of exactly 5 GiB as a single file, with no temporary copy and no chunk
    record. *)
Lemma Put_at_threshold_counterexample :
  size (demo_upload ChunkThreshold) >= 5 * 1024 * 1024 * 1024 /\
  Put honest_backend demo_dir (demo_upload ChunkThreshold) [] =
    putSingleFile honest_backend "big.bin" ChunkThreshold 1
      (demo_upload ChunkThreshold) [EvDbFirstFile "big.bin" "1"] /\
  Put honest_backend demo_dir (demo_upload ChunkThreshold) [] <>
    putChunkedFile honest_backend "big.bin" ChunkThreshold 1
      (demo_upload ChunkThreshold) [EvDbFirstFile "big.bin" "1"] /\
  ~ In EvCacheFullInTempFile
      (snd (Put honest_backend demo_dir (demo_upload ChunkThreshold) [])).
Proof.
  split; [unfold demo_upload, ChunkThreshold; cbn [size]; lia|].
  split; [reflexivity|]. split.
  - intros H. vm_compute in H. discriminate H.
  - vm_compute. intros H. repeat (destruct H as [H|H]; [discriminate H|]).
    exact H.
Qed.

(** ** The chunk plan *)

Section Plan.

Variable be : Backend.
Variables maxChunkSize fsize : Z.
Hypothesis Hcoop : cooperative be.
Hypothesis Hmax : 0 < maxChunkSize.
Hypothesis Hsize : 0 < fsize.
Hypothesis Hfit : fsize + maxChunkSize - 1 <= I64.max_int.

(** The loop, started at index [i] for [n] rounds that all begin inside
    the file, appends the planned record of each index in turn. *)
Lemma uploadChunks_plan (fileName : string) (fID : Z) (file : FileStreamer)
    (n : nat) :
  forall i acc w,
    0 <= i ->
    (i + Z.of_nat n) * maxChunkSize < fsize + maxChunkSize ->
    exists new w',
      uploadChunks be maxChunkSize fileName fsize fID file n i acc w =
        (inr (acc ++ new), w') /\
      extends w w' /\
      List.length new = n /\
      forall k, (k < n)%nat ->
        exists chunk, nth_error new k = Some chunk /\
                      planned maxChunkSize fsize (i + Z.of_nat k) chunk.
Proof.
  destruct Hcoop as (Hcancel & _ & Hpage & Hupload & _ & _).
  induction n as [|n IH]; intros i acc w Hi Hin.
  - exists [], w. cbn. rewrite app_nil_r.
    repeat split; [apply extends_refl|]. intros k Hk. lia.
  - cbn [uploadChunks]. unfold bind at 1, call at 1. rewrite Hcancel.
    assert (Him : 0 <= i * maxChunkSize < fsize) by nia.
    rewrite mul_small by (in64; lia).
    rewrite add_small by (in64; lia).
    set (endOffset := if i * maxChunkSize + maxChunkSize >? fsize
                      then fsize else i * maxChunkSize + maxChunkSize).
    assert (Eend : endOffset =
                   Z.min (i * maxChunkSize + maxChunkSize) fsize).
    { unfold endOffset.
      destruct (Z.gtb_spec (i * maxChunkSize + maxChunkSize) fsize); lia. }
    rewrite (sub_small endOffset) by (in64; lia).
    unfold bind at 1, call at 1.
    destruct (Hpage (w ++ [EvIsCanceled])
                (fileName ++ ".chunk" ++ Itoa i)%string) as [pageID ->].
    unfold bind at 1, call at 1.
    match goal with
    | |- context [UploadAndUpdateFilePut be ?w0 ?s0 ?p0] =>
        destruct (Hupload w0 s0 p0) as [hash ->]
    end.
    rewrite add_small by (in64; nia).
    match goal with
    | |- context [uploadChunks _ _ _ _ _ _ n (i + 1) (acc ++ [?c]) ?w0] =>
        destruct (IH (i + 1) (acc ++ [c]) w0 ltac:(lia) ltac:(nia))
          as (new & w' & E & Hext & Hlen & Hnth);
        exists (c :: new), w'
    end.
    rewrite E, <- app_assoc. split; [reflexivity|].
    split; [eapply extends_trans; [|exact Hext]; ext|].
    split; [cbn; lia|].
    intros [|k] Hk.
    + eexists. split; [reflexivity|]. unfold planned. cbn.
      rewrite Z.add_0_r. repeat split; lia.
    + destruct (Hnth k ltac:(lia)) as (chunk & Hc & Hp).
      exists chunk. split; [exact Hc|].
      replace (i + Z.of_nat (S k)) with (i + 1 + Z.of_nat k) by lia.
      exact Hp.
Qed.

Lemma planned_contiguous (l : list FileChunk) :
  forall i,
    0 <= i ->
    (forall k, (k < List.length l)%nat ->
       exists chunk, nth_error l k = Some chunk /\
                     planned maxChunkSize fsize (i + Z.of_nat k) chunk) ->
    (i + Z.of_nat (List.length l) - 1) * maxChunkSize < fsize ->
    fsize <= (i + Z.of_nat (List.length l)) * maxChunkSize ->
    contiguous (Z.min (i * maxChunkSize) fsize) l fsize.
Proof.
  induction l as [|c l IH]; intros i Hi Hnth Hlast Hcover.
  - cbn in *. lia.
  - cbn [contiguous]. cbn [List.length] in *.
    destruct (Hnth 0%nat ltac:(lia)) as (c0 & E0 & P0).
    injection E0 as <-. destruct P0 as (_ & Hs & He & _).
    rewrite Z.add_0_r in *.
    assert (i * maxChunkSize < fsize) by nia.
    split; [lia|]. split; [lia|].
    rewrite He.
    replace (i * maxChunkSize + maxChunkSize) with ((i + 1) * maxChunkSize)
      by lia.
    apply IH; try lia.
    intros k Hk. destruct (Hnth (S k) ltac:(lia)) as (ch & Ec & Pc).
    exists ch. split; [exact Ec|].
    replace (i + 1 + Z.of_nat k) with (i + Z.of_nat (S k)) by lia. exact Pc.
Qed.

Lemma chunkCount_exact :
  let count := I64.div (I64.sub (I64.add fsize maxChunkSize) 1) maxChunkSize in
  count = (fsize + maxChunkSize - 1) / maxChunkSize /\
  0 < count /\
  (count - 1) * maxChunkSize < fsize <= count * maxChunkSize.
Proof.
  cbv zeta. rewrite sub_add_small by (in64; lia).
  unfold I64.div. rewrite Z.quot_div_nonneg by lia.
  pose proof (Z.mul_div_le (fsize + maxChunkSize - 1) maxChunkSize Hmax).
  pose proof (Z.mul_succ_div_gt (fsize + maxChunkSize - 1) maxChunkSize Hmax).
  set (q := (fsize + maxChunkSize - 1) / maxChunkSize) in *.
  assert (0 < q) by nia.
  rewrite wrap_small by (in64; nia).
  split; [reflexivity|]. split; [assumption|]. nia.
Qed.

End Plan.

(** C2.  For a file size and a chunk size that are positive, with
    [fileSize + maxChunkSize - 1] inside [int64], and collaborators that do
    not fail, [putChunkedFile] saves [ceil (fileSize / maxChunkSize)] chunk
    records; the record at position [i] has index [i], starts at
    [i * maxChunkSize] and ends at [min (start + maxChunkSize) fileSize];
    the records are contiguous from 0 to [fileSize], none is empty or
    larger than [maxChunkSize], and all but the last have exactly that
    size. *)
Theorem chunk_plan (be : Backend) (maxChunkSize : Z) (fileName : string)
    (fsize dirID : Z) (file : FileStreamer) (w : trace) :
  cooperative be ->
  0 < fsize -> 0 < maxChunkSize ->
  fsize + maxChunkSize - 1 <= I64.max_int ->
  exists obj t saved,
    putChunkedFileWith maxChunkSize be fileName fsize dirID file w =
      (inr obj, w ++ t) /\
    In (EvDbCreateChunks saved) t /\
    let count := Z.of_nat (List.length saved) in
    (count - 1) * maxChunkSize < fsize <= count * maxChunkSize /\
    (forall k, (k < List.length saved)%nat ->
       exists chunk, nth_error saved k = Some chunk /\
                     planned maxChunkSize fsize (Z.of_nat k) chunk) /\
    contiguous 0 saved fsize /\
    (forall chunk, In chunk saved ->
       0 < EndOffset chunk - StartOffset chunk <= maxChunkSize) /\
    (forall k chunk, nth_error saved k = Some chunk ->
       (S k < List.length saved)%nat ->
       EndOffset chunk - StartOffset chunk = maxChunkSize).
Proof.
  intros Hcoop Hsize Hmax Hfit.
  destruct (chunkCount_exact maxChunkSize fsize Hmax Hsize Hfit)
    as (Ecount & Hpos & Hceil).
  pose proof Hcoop as (_ & Hcache & _ & _ & Hfile & Hsave).
  unfold putChunkedFileWith.
  set (count := I64.div (I64.sub (I64.add fsize maxChunkSize) 1)
                  maxChunkSize) in *.
  unfold bind at 1, call at 1. rewrite Hcache.
  unfold bind at 1. unfold bind at 1, call at 1.
  match goal with
  | |- context [DbCreateFile be ?w0 ?f0] =>
      destruct (Hfile w0 f0) as [id ->]
  end.
  unfold bind at 1.
  match goal with
  | |- context [uploadChunks be maxChunkSize fileName fsize id file ?n 0 []
                  ?w0] =>
      destruct (uploadChunks_plan be maxChunkSize fsize Hcoop Hmax Hsize Hfit
                  fileName id file n 0 [] w0 ltac:(lia)
                  ltac:(rewrite Z2Nat.id by lia; lia))
        as (saved & w' & E & [t' ->] & Hlen & Hnth)
  end.
  assert (Hne : saved <> []) by (intros ->; cbn in Hlen; lia).
  rewrite E. cbn [app]. unfold bind at 1, call at 1.
  rewrite Hsave by exact Hne.
  unfold ret at 1. unfold bind at 1, call at 1. unfold ret.
  assert (Elen : Z.of_nat (List.length saved) = count).
  { rewrite Hlen, Z2Nat.id by lia. reflexivity. }
  eexists. eexists. exists saved. split.
  { rewrite <- !app_assoc. reflexivity. }
  split.
  { cbn [app]. right. right. apply in_or_app. right. cbn. tauto. }
  cbv zeta. rewrite Elen. split; [exact Hceil|].
  assert (Hnth' : forall k, (k < List.length saved)%nat ->
            exists chunk, nth_error saved k = Some chunk /\
                          planned maxChunkSize fsize (Z.of_nat k) chunk).
  { intros k Hk. rewrite Hlen in Hk. exact (Hnth k Hk). }
  split; [exact Hnth'|]. split; [|split].
  - pose proof (planned_contiguous maxChunkSize fsize Hmax saved 0
                  ltac:(lia)) as Hc.
    replace (Z.min (0 * maxChunkSize) fsize) with 0 in Hc by lia.
    apply Hc; try lia. intros k Hk. exact (Hnth' k Hk).
  - intros chunk Hin. apply In_nth_error in Hin. destruct Hin as [k Hk].
    assert (Hlt : (k < List.length saved)%nat)
      by (apply nth_error_Some; congruence).
    destruct (Hnth' k Hlt) as (ch & Ech & _ & Hs & He & _).
    assert (ch = chunk) by congruence. subst ch.
    rewrite Hs, He. nia.
  - intros k chunk Hk Hnext.
    destruct (Hnth' k ltac:(lia)) as (ch & Ech & _ & Hs & He & _).
    assert (ch = chunk) by congruence. subst ch.
    rewrite Hs, He. nia.
Qed.

Lemma demo_cooperative : cooperative honest_backend.
Proof.
  unfold cooperative.
  do 5 (split; [intros; try eexists; reflexivity|]).
  intros w [|c chunks] H; [contradiction | reflexivity].
Qed.

(** The spec's scenario: 10 000 000 000 bytes in chunks of 4 500 000 000
    give the three chunks [0, 4.5e9), [4.5e9, 9e9) and [9e9, 1e10). *)
Lemma chunk_plan_witness :
  exists obj t saved,
    putChunkedFileWith 4500000000 honest_backend "big.bin" 10000000000 1
      (demo_upload 10000000000) [] = (inr obj, t) /\
    In (EvDbCreateChunks saved) t /\
    map (fun c => (ChunkIndex c, StartOffset c, EndOffset c)) saved =
      [(0, 0, 4500000000); (1, 4500000000, 9000000000);
       (2, 9000000000, 10000000000)].
Proof.
  destruct (chunk_plan honest_backend 4500000000 "big.bin" 10000000000 1
              (demo_upload 10000000000) [] demo_cooperative
              ltac:(lia) ltac:(lia) ltac:(in64; lia))
    as (obj & t & saved & E & Hin & _).
  exists obj, t, saved. split; [exact E|]. split; [exact Hin|].
  vm_compute in E. injection E as _ <-.
  repeat (destruct Hin as [Hin|Hin]; [try discriminate Hin|]);
    [|destruct Hin].
  injection Hin as <-. reflexivity.
Defined.

(** ** Slices of the file *)

Lemma firstn_plus {A : Type} (m n : nat) :
  forall l : list A, firstn (m + n) l = firstn m l ++ firstn n (skipn m l).
Proof.
  induction m as [|m IH]; intros l; [reflexivity|].
  destruct l as [|x l]; cbn.
  - now rewrite firstn_nil.
  - now rewrite IH.
Qed.

Lemma slice_empty (data : list byte) (a b : Z) : b <= a -> slice data a b = [].
Proof.
  intros H. unfold slice. replace (Z.to_nat (b - a)) with 0%nat by lia.
  reflexivity.
Qed.

Lemma slice_length (data : list byte) (a b : Z) :
  0 <= a <= b -> b <= Z.of_nat (List.length data) ->
  List.length (slice data a b) = Z.to_nat (b - a).
Proof.
  intros H1 H2. unfold slice. rewrite length_firstn, length_skipn. lia.
Qed.

Lemma slice_app (data : list byte) (a b c : Z) :
  0 <= a <= b -> b <= c ->
  slice data a b ++ slice data b c = slice data a c.
Proof.
  intros H1 H2. unfold slice.
  replace (Z.to_nat (c - a)) with (Z.to_nat (b - a) + Z.to_nat (c - b))%nat
    by lia.
  rewrite firstn_plus, skipn_skipn.
  replace (Z.to_nat (b - a) + Z.to_nat a)%nat with (Z.to_nat b) by lia.
  reflexivity.
Qed.

Lemma slice_slice (data : list byte) (a b lo hi : Z) :
  0 <= a -> 0 <= lo <= hi -> hi <= b - a ->
  slice (slice data a b) lo hi = slice data (a + lo) (a + hi).
Proof.
  intros Ha Hlo Hhi. unfold slice.
  rewrite skipn_firstn_comm, firstn_firstn, skipn_skipn.
  f_equal; [lia|]. f_equal. lia.
Qed.

(** The range the reader asks of a chunk object that holds the bytes
    [StartOffset, EndOffset) of the file is the part of the request that
    lies in the chunk. *)
Lemma serve_sub_range (data : list byte) (s e : Z) (c : FileChunk) :
  0 <= s < e -> e <= I64.max_int ->
  0 <= StartOffset c <= EndOffset c -> EndOffset c <= I64.max_int ->
  StartOffset c < e -> EndOffset c > s ->
  let lo := I64.sub (I64.max s (StartOffset c)) (StartOffset c) in
  let hi := I64.sub (I64.min e (EndOffset c)) (StartOffset c) in
  serve (slice data (StartOffset c) (EndOffset c))
    (rangeHeader lo (I64.sub hi lo)) =
  sub_range data s e c.
Proof.
  intros Hs He Hc Hce Hlt Hgt. cbv zeta.
  rewrite max_is_Zmax, min_is_Zmin.
  rewrite (sub_small (Z.max s (StartOffset c))) by (in64; lia).
  rewrite (sub_small (Z.min e (EndOffset c))) by (in64; lia).
  rewrite sub_small by (in64; lia).
  unfold sub_range.
  destruct (Z.eq_dec (StartOffset c) (EndOffset c)) as [E|E].
  - replace (Z.min e (EndOffset c) - StartOffset c -
             (Z.max s (StartOffset c) - StartOffset c)) with 0 by lia.
    cbn [rangeHeader Z.gtb Z.compare serve].
    replace (Z.max s (StartOffset c) - StartOffset c) with 0 by lia.
    cbn [Z.to_nat skipn]. rewrite !slice_empty by lia. reflexivity.
  - rewrite rangeHeader_bounded by lia. cbn [serve].
    replace (Z.min e (EndOffset c) - StartOffset c - 1 + 1)
      with (Z.min e (EndOffset c) - StartOffset c) by lia.
    rewrite slice_slice by lia. f_equal; lia.
Qed.

(** On a contiguous list, the parts of the request in the selected chunks,
    in order, make up the request. *)
Lemma selection_covers (data : list byte) (s e : Z) (cs : list FileChunk) :
  0 <= s <= e ->
  forall from to, contiguous from cs to ->
    List.concat (map (sub_range data s e) (filter (overlaps s e) cs)) =
    slice data (Z.max s (Z.min e from)) (Z.max s (Z.min e to)).
Proof.
  intros Hse. induction cs as [|c cs IH]; intros from to H;
    cbn [contiguous] in H.
  - subst to. cbn. rewrite slice_empty by lia. reflexivity.
  - destruct H as (Hfrom & Hle & Hrest).
    destruct (contiguous_bounds _ _ _ Hrest) as (Hto & _).
    specialize (IH _ _ Hrest). cbn [filter]. unfold overlaps at 1.
    destruct (Z.ltb_spec (StartOffset c) e);
      destruct (Z.gtb_spec (EndOffset c) s); cbn [andb map List.concat].
    + rewrite IH. unfold sub_range.
      rewrite <- (slice_app data (Z.max s (Z.min e from))
                    (Z.max s (Z.min e (EndOffset c)))
                    (Z.max s (Z.min e to))) by lia.
      f_equal. f_equal; lia.
    + rewrite IH. f_equal. lia.
    + rewrite IH. f_equal. lia.
    + rewrite IH. f_equal. lia.
Qed.

Lemma selection_nonempty (s e : Z) (cs : list FileChunk) :
  s < e ->
  forall from to, contiguous from cs to -> from <= s < to ->
    filter (overlaps s e) cs <> [].
Proof.
  intros Hse. induction cs as [|c cs IH]; intros from to H Hin;
    cbn [contiguous] in H; [lia|].
  destruct H as (Hfrom & Hle & Hrest). cbn [filter]. unfold overlaps at 1.
  destruct (Z.ltb_spec (StartOffset c) e); [|lia].
  destruct (Z.gtb_spec (EndOffset c) s); cbn [andb]; [discriminate|].
  apply (IH _ _ Hrest). lia.
Qed.

(** ** Delivery of the requested range *)

Lemma skipn_nth_error {A : Type} (l : list A) :
  forall n x, nth_error l n = Some x -> skipn n l = x :: skipn (S n) l.
Proof.
  induction l as [|a l IH]; intros [|n] x H; try discriminate.
  - injection H as ->. reflexivity.
  - cbn in H. change (skipn n l = x :: skipn (S n) l). exact (IH _ _ H).
Qed.

Lemma pending_past (data : list byte) (r : ChunkedReader) :
  currentReader r = None ->
  (List.length (chunks r) <= currentChunk r)%nat ->
  pending data r = [].
Proof.
  intros Hcur Hlen. unfold pending. rewrite Hcur, skipn_all2 by exact Hlen.
  reflexivity.
Qed.

(** [deliver] on an open read, with the arithmetic inside its range. *)
Lemma deliver_open (r : ChunkedReader) (p : nat) (w : trace) (b : Body) :
  currentReader r = Some b ->
  I64.in_range (requestEnd r - requestStart r) ->
  0 <= totalRead r < requestEnd r - requestStart r ->
  let L := requestEnd r - requestStart r in
  let p' := Nat.min p (Z.to_nat (L - totalRead r)) in
  let out := fst (fst (body_read b p')) in
  let err := snd (fst (body_read b p')) in
  let b' := snd (body_read b p') in
  let total := totalRead r + Z.of_nat (List.length out) in
  deliver r p w =
  match err with
  | None =>
      ((out, None), with_progress r (Some b') (currentChunk r) total,
       w ++ [EvBodyRead p'])
  | Some e0 =>
      if is_EOF e0 then
        ((out, if (total <? L)
                  && (S (currentChunk r) <? List.length (chunks r))%nat
               then None else Some e0),
         with_progress r None (S (currentChunk r)) total,
         w ++ [EvBodyRead p'; EvBodyClose])
      else
        ((out, Some e0), with_progress r None (currentChunk r) total,
         w ++ [EvBodyRead p'; EvBodyClose])
  end.
Proof.
  intros Hcur Hr Ht. cbv zeta. unfold deliver.
  rewrite (sub_small (requestEnd r)) by assumption.
  rewrite sub_small by (in64; lia).
  destruct (Z.ltb_spec (requestEnd r - requestStart r - totalRead r) 0);
    [lia|].
  rewrite andb_false_r, Hcur. run.
  replace (if Z.of_nat p >? requestEnd r - requestStart r - totalRead r
           then Z.to_nat (requestEnd r - requestStart r - totalRead r)
           else p)
    with (Nat.min p (Z.to_nat (requestEnd r - requestStart r - totalRead r)))
    by (destruct (Z.gtb_spec (Z.of_nat p)
                    (requestEnd r - requestStart r - totalRead r)); lia).
  set (p' := Nat.min p _).
  pose proof (body_read_length b p') as Hlen.
  destruct (body_read b p') as [[out err] b']. cbn [fst snd] in *.
  rewrite add_small by (in64; lia).
  destruct err as [e0|]; [|reflexivity].
  destruct (is_EOF e0); [|rewrite <- app_assoc; reflexivity].
  cbn [with_progress totalRead requestEnd requestStart currentChunk chunks].
  rewrite sub_small by assumption.
  destruct (_ && _); rewrite <- app_assoc; reflexivity.
Qed.

Lemma body_read_cases (b : Body) (k : nat) :
  let n := Nat.min k (Pos.to_nat (burst b)) in
  let b' := {| payload := skipn n (payload b); burst := burst b;
               final := final b; eager := eager b |} in
  (payload b = [] /\ body_read b k = ([], Some (final b), b)) \/
  (payload b <> [] /\
   (body_read b k = (firstn n (payload b), None, b') \/
    skipn n (payload b) = [] /\
    body_read b k = (firstn n (payload b), Some (final b), b'))).
Proof.
  cbv zeta. unfold body_read. destruct (payload b) as [|x l] eqn:E.
  - left. split; reflexivity.
  - right. split; [discriminate|].
    destruct (skipn _ (x :: l)) eqn:Esk; [destruct (eager b)|].
    + right. split; reflexivity.
    + left. reflexivity.
    + left. reflexivity.
Qed.

Section Delivery.

Variable be : Backend.
Variable data : list byte.
Variable client : NotionService.
Variable needed : list FileChunk.
Variables s e : Z.

Hypothesis Hs : 0 <= s <= e.
Hypothesis He : e <= Z.of_nat (List.length data).
Hypothesis Hdata : Z.of_nat (List.length data) <= I64.max_int.
Hypothesis Hneeded : forall c, In c needed ->
  0 <= StartOffset c <= EndOffset c /\
  EndOffset c <= Z.of_nat (List.length data) /\
  StartOffset c < e /\ EndOffset c > s.
Hypothesis Hhonest : honest be (filePageID client) data needed.

Lemma target_length : List.length (slice data s e) = Z.to_nat (e - s).
Proof. apply slice_length; lia. Qed.

Lemma flight_complete (acc : list byte) (r : ChunkedReader) :
  in_flight data client needed s e acc r ->
  e - s <= Z.of_nat (List.length acc) ->
  acc = slice data s e.
Proof.
  intros (_ & _ & _ & _ & _ & Hacc & _) Hfull.
  pose proof target_length as Hl. rewrite <- Hacc, length_app in Hl.
  assert (Hp : List.length (pending data r) = 0%nat) by lia.
  apply length_zero_iff_nil in Hp. rewrite Hp, app_nil_r in Hacc. exact Hacc.
Qed.

(** An entry into a chunk succeeds at the first attempt and opens a read
    on the part of the request in that chunk. *)
Lemma openCurrent_honest (acc : list byte) (r : ChunkedReader) (w : trace)
    (chunk : FileChunk) :
  in_flight data client needed s e acc r ->
  currentReader r = None ->
  s < e ->
  nth_error needed (currentChunk r) = Some chunk ->
  exists body w1,
    openCurrent be r w =
      (inr (with_reader r (Some body) (chunkStartOf r chunk)), w1) /\
    payload body = sub_range data s e chunk /\ final body = EOF.
Proof.
  intros (Hch & Hrs & Hre & Hcl & _) Hcur Hlt Hnth.
  assert (Hin : In chunk needed) by (eapply nth_error_In; eassumption).
  destruct (Hneeded chunk Hin) as (Hc1 & Hc2 & Hc3 & Hc4).
  unfold openCurrent. rewrite Hcur, Hch, Hnth. unfold bind at 1.
  change (Z.to_nat maxRetries) with 3%nat. cbn [retryLoop].
  unfold bind at 1, call at 1. rewrite Hcl.
  destruct (Hhonest chunk Hin w)
    as (property & file0 & files & Hres & Hfiles & Hnew & Hdo).
  rewrite Hres, Hfiles. unfold bind at 1, createChunkReader. rewrite Hnew.
  unfold bind at 1, call at 1.
  match goal with
  | |- context [Do be ?w0 ?req] =>
      destruct (Hdo w0 req eq_refl) as (resp & Eresp & Hstatus & Hpay & Hfin)
  end.
  rewrite Eresp.
  assert (Hcode : negb (StatusCode resp =? StatusPartialContent)
                  && negb (StatusCode resp =? StatusOK) = false).
  { destruct Hstatus as [-> | ->]; reflexivity. }
  rewrite Hcode. unfold ret.
  eexists. eexists. split; [reflexivity|]. split; [|exact Hfin].
  rewrite Hpay. cbn [chunkRequest Req_Range].
  unfold chunkStartOf, chunkEndOf. rewrite Hrs, Hre.
  apply serve_sub_range; lia.
Qed.

Lemma flight_advance (acc : list byte) (r : ChunkedReader) (b : Body) :
  in_flight data client needed s e acc r ->
  currentReader r = Some b ->
  in_flight data client needed s e (acc ++ payload b)
    (with_progress r None (S (currentChunk r))
       (totalRead r + Z.of_nat (List.length (payload b)))).
Proof.
  intros (Hch & Hrs & Hre & Hcl & Htot & Hacc & Hopen) Hcur.
  unfold in_flight, pending in *. rewrite Hcur in Hacc. cbn.
  repeat split; try assumption.
  - rewrite Htot, length_app. lia.
  - rewrite <- app_assoc. exact Hacc.
  - discriminate.
  - discriminate.
Qed.

Lemma flight_partial (acc : list byte) (r : ChunkedReader) (b : Body)
    (n : nat) :
  in_flight data client needed s e acc r ->
  currentReader r = Some b ->
  in_flight data client needed s e (acc ++ firstn n (payload b))
    (with_progress r
       (Some {| payload := skipn n (payload b); burst := burst b;
                final := final b; eager := eager b |})
       (currentChunk r)
       (totalRead r + Z.of_nat (List.length (firstn n (payload b))))).
Proof.
  intros (Hch & Hrs & Hre & Hcl & Htot & Hacc & Hopen) Hcur.
  destruct (Hopen b Hcur) as [Hfin Hlt].
  unfold in_flight, pending in *. rewrite Hcur in Hacc. cbn.
  repeat split; try assumption.
  - rewrite Htot, length_app. lia.
  - rewrite <- app_assoc, (app_assoc (firstn n (payload b))), firstn_skipn.
    exact Hacc.
  - injection H as <-. exact Hfin.
Qed.

(** One [deliver] on an open read. *)
Lemma deliver_step (acc : list byte) (r : ChunkedReader) (p : nat)
    (w : trace) (b : Body) :
  in_flight data client needed s e acc r ->
  currentReader r = Some b ->
  Z.of_nat (List.length acc) < e - s ->
  forall out err r' w',
    deliver r p w = ((out, err), r', w') ->
    in_flight data client needed s e (acc ++ out) r' /\
    (err = None /\ ((0 < p)%nat -> (budget data r' < budget data r)%nat) \/
     err = Some EOF /\ acc ++ out = slice data s e).
Proof.
  intros Hfl Hcur Hlt out err r' w' H.
  pose proof Hfl as (Hch & Hrs & Hre & Hcl & Htot & Hacc & Hopen).
  destruct (Hopen b Hcur) as [Hfin Hcursor].
  rewrite deliver_open with (b := b) in H;
    [|assumption | rewrite Hrs, Hre; in64; lia | rewrite Hrs, Hre; lia].
  cbv zeta in H. rewrite Hrs, Hre, Htot, Hch in H.
  set (p' := Nat.min p (Z.to_nat (e - s - Z.of_nat (List.length acc)))) in *.
  assert (Hp' : (0 < p)%nat -> (0 < p')%nat) by (unfold p'; lia).
  set (n := Nat.min p' (Pos.to_nat (burst b))).
  assert (Hn : (0 < p)%nat -> (0 < n)%nat) by (unfold n; lia).
  assert (Hbud : forall x,
            (budget data (with_progress r None (S (currentChunk r)) x)
             + List.length (payload b) < budget data r)%nat).
  { intros x. unfold budget, pending. rewrite Hcur. cbn. rewrite Hch.
    rewrite length_app. lia. }
  destruct (body_read_cases b p') as [[Epay E]|[Hne [E|[Erest E]]]];
    fold n in E; try fold n in Erest; rewrite E in H; cbn [fst snd] in H.
  - (* the body is at its end *)
    rewrite Hfin in H. cbn [is_EOF] in H.
    pose proof (flight_advance acc r b Hfl Hcur) as Hadv.
    rewrite Epay, Htot in Hadv.
    match type of H with
    | context [if ?c then None else Some EOF] => destruct c eqn:Etest
    end; injection H as <- <- <- _; (split; [exact Hadv|]).
    + left. split; [reflexivity|]. intros _.
      match goal with
      | |- (budget data (with_progress r None _ ?x) < _)%nat =>
          specialize (Hbud x)
      end. lia.
    + right. split; [reflexivity|].
      apply andb_false_iff in Etest. destruct Etest as [Et|Et].
      * apply Z.ltb_ge in Et. cbn in Et. lia.
      * apply Nat.ltb_ge in Et.
        destruct Hadv as (_ & _ & _ & _ & _ & Hacc' & _).
        rewrite pending_past in Hacc'
          by (cbn [with_progress currentReader chunks currentChunk];
              try reflexivity; rewrite Hch; lia).
        rewrite app_nil_r in Hacc'. exact Hacc'.
  - (* bytes, more to come or the end not yet reported *)
    pose proof (flight_partial acc r b n Hfl Hcur) as Hpar.
    rewrite Htot in Hpar.
    injection H as <- <- <- _. split; [exact Hpar|].
    left. split; [reflexivity|]. intros Hp.
    unfold budget, pending. rewrite Hcur. cbn. rewrite !length_app.
    rewrite length_skipn.
    destruct (payload b) as [|x l]; [contradiction|]. cbn [List.length].
    specialize (Hn Hp). lia.
  - (* the last bytes, with the end of the body *)
    rewrite Hfin in H. cbn [is_EOF] in H.
    assert (Eall : firstn n (payload b) = payload b).
    { rewrite <- (firstn_skipn n (payload b)) at 2.
      rewrite Erest, app_nil_r. reflexivity. }
    rewrite Eall in H.
    pose proof (flight_advance acc r b Hfl Hcur) as Hadv.
    rewrite Htot in Hadv.
    match type of H with
    | context [if ?c then None else Some EOF] => destruct c eqn:Etest
    end; injection H as <- <- <- _; (split; [exact Hadv|]).
    + left. split; [reflexivity|]. intros _.
      match goal with
      | |- (budget data (with_progress r None _ ?x) < _)%nat =>
          specialize (Hbud x)
      end. lia.
    + right. split; [reflexivity|].
      apply andb_false_iff in Etest. destruct Etest as [Et|Et].
      * apply Z.ltb_ge in Et. apply (flight_complete _ _ Hadv).
        rewrite length_app. lia.
      * apply Nat.ltb_ge in Et.
        destruct Hadv as (_ & _ & _ & _ & _ & Hacc' & _).
        rewrite pending_past in Hacc'
          by (cbn [with_progress currentReader chunks currentChunk];
              try reflexivity; rewrite Hch; lia).
        rewrite app_nil_r in Hacc'. exact Hacc'.
Qed.

Lemma flight_opened (acc : list byte) (r : ChunkedReader) (chunk : FileChunk)
    (body : Body) (offset : Z) :
  in_flight data client needed s e acc r ->
  currentReader r = None ->
  nth_error needed (currentChunk r) = Some chunk ->
  payload body = sub_range data s e chunk ->
  final body = EOF ->
  in_flight data client needed s e acc (with_reader r (Some body) offset) /\
  budget data (with_reader r (Some body) offset) = budget data r.
Proof.
  intros (Hch & Hrs & Hre & Hcl & Htot & Hacc & Hopen) Hcur Hnth Hpay Hfin.
  assert (Hpend : pending data (with_reader r (Some body) offset) =
                  pending data r).
  { unfold pending. rewrite Hcur.
    cbn [with_reader currentReader requestStart requestEnd chunks
         currentChunk].
    rewrite Hch, (skipn_nth_error needed _ _ Hnth), Hpay, Hrs, Hre.
    reflexivity. }
  split.
  - unfold in_flight. rewrite Hpend.
    cbn [with_reader currentReader requestStart requestEnd chunks
         currentChunk notionClient totalRead].
    repeat split; try assumption.
    + injection H as <-. exact Hfin.
    + apply nth_error_Some. congruence.
  - unfold budget. rewrite Hpend. reflexivity.
Qed.

(** One [Read] of a reader in flight: it stays in flight, and either hands
    out the next bytes of the range and comes closer to the end, or reports
    EOF with the whole range handed out. *)
Lemma Read_step (acc : list byte) (r : ChunkedReader) (p : nat) (w : trace) :
  in_flight data client needed s e acc r ->
  forall out err r' w',
    Read be r p w = ((out, err), r', w') ->
    in_flight data client needed s e (acc ++ out) r' /\
    (err = None /\ ((0 < p)%nat -> (budget data r' < budget data r)%nat) \/
     err = Some EOF /\ acc ++ out = slice data s e).
Proof.
  intros Hfl out err r' w' H.
  pose proof Hfl as (Hch & Hrs & Hre & Hcl & Htot & Hacc & Hopen).
  unfold Read in H. rewrite Hre, Hrs, Htot in H.
  rewrite sub_small in H by (in64; lia).
  destruct (Z.geb_spec (Z.of_nat (List.length acc)) (e - s)).
  - injection H as <- <- <- _. rewrite app_nil_r. split; [exact Hfl|].
    right. split; [reflexivity|]. apply (flight_complete _ _ Hfl). lia.
  - unfold bind at 1 in H.
    destruct (currentReader r) as [b|] eqn:Ecur.
    + unfold openCurrent in H. rewrite Ecur in H. unfold ret at 1 in H.
      eapply deliver_step; eassumption.
    + destruct (nth_error needed (currentChunk r)) as [chunk|] eqn:Enth.
      * destruct (openCurrent_honest acc r w chunk Hfl Ecur ltac:(lia) Enth)
          as (body & w1 & E & Hpay & Hfin).
        rewrite E in H.
        destruct (flight_opened acc r chunk body (chunkStartOf r chunk)
                    Hfl Ecur Enth Hpay Hfin) as [Hfl1 Hbud].
        rewrite <- Hbud.
        eapply deliver_step; try eassumption. reflexivity.
      * unfold openCurrent in H. rewrite Ecur, Hch, Enth in H.
        injection H as <- <- <- _. rewrite app_nil_r. split; [exact Hfl|].
        right. split; [reflexivity|].
        rewrite pending_past in Hacc.
        -- rewrite app_nil_r in Hacc. exact Hacc.
        -- exact Ecur.
        -- rewrite Hch. apply nth_error_None. exact Enth.
Qed.

Lemma reads_flight (ps : list nat) :
  forall acc r w outs r' w',
    in_flight data client needed s e acc r ->
    reads be r ps w = (outs, r', w') ->
    in_flight data client needed s e (acc ++ delivered outs) r' /\
    Forall clean outs /\
    (Forall (fun p => (0 < p)%nat) ps ->
     (budget data r < List.length ps)%nat ->
     acc ++ delivered outs = slice data s e /\ Exists at_EOF outs).
Proof.
  induction ps as [|p ps IH]; intros acc r w outs r' w' Hfl H.
  - injection H as <- <- _. unfold delivered. cbn. rewrite app_nil_r.
    split; [exact Hfl|]. split; [constructor|]. intros _ Hb. cbn in Hb. lia.
  - cbn [reads] in H. unfold bind in H.
    destruct (Read be r p w) as [[[out err] r1] w1] eqn:E1.
    destruct (reads be r1 ps w1) as [[outs1 r2] w2] eqn:E2.
    injection H as <- <- _.
    destruct (Read_step acc r p w Hfl _ _ _ _ E1) as [Hfl1 Hcase].
    destruct (IH _ _ _ _ _ _ Hfl1 E2) as (Hfl2 & Hclean & Hdone).
    unfold delivered in *. cbn [map List.concat fst].
    rewrite app_assoc. split; [exact Hfl2|]. split.
    { constructor; [|exact Hclean]. unfold clean. cbn.
      destruct Hcase as [[-> _]|[-> _]]; auto. }
    intros Hpos Hb. inversion Hpos as [|? ? Hp Hps]; subst.
    cbn [List.length] in Hb.
    destruct Hcase as [[-> Hdec]|[-> Hfull]].
    + destruct (Hdone Hps ltac:(specialize (Hdec Hp); lia)) as [Hall Hex].
      split; [exact Hall|]. apply Exists_cons_tl. exact Hex.
    + split; [|apply Exists_cons_hd; reflexivity].
      destruct Hfl2 as (_ & _ & _ & _ & _ & Hacc2 & _).
      pose proof target_length as Hl. pose proof Hl as Hl2.
      rewrite <- Hacc2, !length_app in Hl.
      rewrite <- Hfull, length_app in Hl2.
      assert (Hnil : List.length (List.concat (map fst outs1)) = 0%nat)
        by lia.
      apply length_zero_iff_nil in Hnil. rewrite Hnil, app_nil_r.
      exact Hfull.
Qed.

End Delivery.

Lemma wrap_over (z : Z) :
  I64.max_int < z <= 2 * I64.max_int + 1 -> I64.wrap z = z - 2 ^ 64.
Proof.
  unfold I64.max_int, I64.wrap. intros H.
  replace (z + 2 ^ 63) with (z + 2 ^ 63 - 2 ^ 64 + 1 * 2 ^ 64) by lia.
  rewrite Z_mod_plus_full, Z.mod_small by lia. lia.
Qed.


Lemma filter_length_le {A : Type} (f : A -> bool) (l : list A) :
  (List.length (filter f l) <= List.length l)%nat.
Proof.
  induction l as [|a l IH]; cbn; [lia|]. destruct (f a); cbn; lia.
Qed.


Lemma demo_honest : honest honest_backend "files" demo_data demo_chunks.
Proof.
  intros c Hin w.
  exists (demo_property [NotionPageID c]).
  exists {| FileObject_Type := "file"; FileObject_Name := NotionPageID c;
            FileObject_File := {| URL := NotionPageID c;
                                  ExpiryTime := "" |} |}.
  exists []. split; [reflexivity|]. split; [reflexivity|].
  split; [reflexivity|]. intros w' req Hurl. cbn in Hurl.
  eexists. split; [reflexivity|]. split; [left; reflexivity|].
  split; [|reflexivity]. cbn [Resp_Body payload]. rewrite Hurl.
  destruct Hin as [<-|[<-|[<-|[]]]]; reflexivity.
Qed.


(** * Further properties of the reader *)

(** ** Lengths at the edges *)

Lemma clampRange_end (fsize : Z) (httpRange : Range) :
  valid_request fsize httpRange ->
  fsize <= I64.max_int ->
  Start httpRange + Length httpRange <= I64.max_int ->
  snd (clampRange fsize httpRange) = requested_end fsize httpRange.
Proof.
  intros [Hs HL] Hf Hov. unfold requested_end.
  destruct (Z.eqb_spec (Length httpRange) (-1)) as [E|E].
  - rewrite clampRange_sentinel by assumption. reflexivity.
  - rewrite clampRange_length; try assumption; [reflexivity|]. in64. lia.
Qed.

(** X1.  A length that reaches the end of the file or runs beyond it is
    the sentinel: [RangeRead] answers it as it answers length [-1]. *)
Theorem length_beyond_end_is_sentinel (c : ChunkedRangeReadCloser)
    (start length : Z) (w : trace) :
  0 <= start < fileSize c ->
  fileSize c <= I64.max_int ->
  fileSize c - start <= length ->
  start + length <= I64.max_int ->
  RangeRead c {| Start := start; Length := length |} w =
  RangeRead c {| Start := start; Length := -1 |} w.
Proof.
  intros Hs Hf HL Hov.
  rewrite !RangeRead_in_bounds by assumption. cbv zeta.
  rewrite (clampRange_sentinel (fileSize c) {| Start := start; Length := -1 |})
    by (cbn [Start Length]; assumption || lia).
  rewrite (clampRange_length (fileSize c)
             {| Start := start; Length := length |});
    cbn [Start Length snd]; try assumption; try lia; [|in64; lia].
  replace (Z.min (start + length) (fileSize c)) with (fileSize c) by lia.
  reflexivity.
Qed.

Lemma length_beyond_end_is_sentinel_witness :
  RangeRead demo_closer {| Start := 8; Length := 100 |} [] =
  RangeRead demo_closer {| Start := 8; Length := -1 |} [].
Proof.
  apply length_beyond_end_is_sentinel; cbn; in64; lia.
Defined.



(** ** The shape of the selection *)

Lemma selection_tail_run (s e : Z) (cs : list FileChunk) :
  forall from to, contiguous from cs to -> s < from -> e <= to ->
  exists b, contiguous from (filter (overlaps s e) cs) b /\ e <= b.
Proof.
  induction cs as [|c cs IH]; intros from to H Hs He; cbn [contiguous] in H.
  - exists from. cbn. split; [reflexivity | lia].
  - destruct H as (Hfrom & Hle & Hrest). cbn [filter]. unfold overlaps at 1.
    destruct (Z.ltb_spec (StartOffset c) e);
      destruct (Z.gtb_spec (EndOffset c) s); cbn [andb]; try lia.
    + destruct (IH _ _ Hrest ltac:(lia) He) as (b & Hb & Hbe).
      exists b. cbn [contiguous]. auto.
    + exists from. rewrite filter_nil.
      * cbn. split; [reflexivity | lia].
      * intros x Hx. destruct (contiguous_bounds _ _ _ Hrest) as (_ & Hb).
        specialize (Hb x Hx). unfold overlaps.
        destruct (Z.ltb_spec (StartOffset x) e); [lia | reflexivity].
Qed.

Lemma selection_run (s e : Z) (cs : list FileChunk) :
  s < e ->
  forall from to, contiguous from cs to -> from <= s < to -> e <= to ->
  exists a b, contiguous a (filter (overlaps s e) cs) b /\
              a <= s /\ e <= b /\ filter (overlaps s e) cs <> [].
Proof.
  intros Hse. induction cs as [|c cs IH]; intros from to H Hs He;
    cbn [contiguous] in H; [lia|].
  destruct H as (Hfrom & Hle & Hrest). cbn [filter].
  destruct (overlaps s e c) eqn:Hc; unfold overlaps in Hc.
  - apply andb_true_iff in Hc. rewrite Z.ltb_lt, Z.gtb_gt in Hc.
    destruct (selection_tail_run s e cs _ _ Hrest ltac:(lia) He)
      as (b & Hb & Hbe).
    exists from, b. cbn [contiguous].
    split; [auto|]. split; [lia|]. split; [lia | discriminate].
  - apply andb_false_iff in Hc. rewrite Z.ltb_ge in Hc.
    apply (IH _ _ Hrest); [|lia].
    destruct Hc as [Hc|Hc]; [lia|].
    destruct (Z.gtb_spec (EndOffset c) s); [discriminate | lia].
Qed.

(** X3.  On a contiguous chunk list, the chunks [RangeRead] selects for a
    request that asks for at least one byte are themselves contiguous: a
    run of the list that starts at or before the start of the request,
    ends at or after its end, and holds no chunk that lies outside the
    request. *)
Theorem selection_is_a_run (c : ChunkedRangeReadCloser) (httpRange : Range)
    (w : trace) :
  contiguous 0 (crc_chunks c) (fileSize c) ->
  fileSize c <= I64.max_int ->
  valid_request (fileSize c) httpRange ->
  Length httpRange <> 0 ->
  Start httpRange + Length httpRange <= I64.max_int ->
  exists r a b,
    RangeRead c httpRange w = (inr r, w) /\
    contiguous a (chunks r) b /\
    a <= requestStart r /\ requestEnd r <= b /\
    forall x, In x (chunks r) ->
      StartOffset x < requestEnd r /\ requestStart r < EndOffset x.
Proof.
  intros Hcont Hf Hv Hne Hov. pose proof Hv as [Hs HL].
  rewrite RangeRead_in_bounds by assumption. cbv zeta.
  rewrite clampRange_end by assumption.
  set (e := requested_end (fileSize c) httpRange).
  assert (He : Start httpRange < e <= fileSize c).
  { unfold e, requested_end.
    destruct (Z.eqb_spec (Length httpRange) (-1)); lia. }
  destruct (selection_run (Start httpRange) e (crc_chunks c) ltac:(lia)
              0 (fileSize c) Hcont ltac:(lia) ltac:(lia))
    as (a & b & Hrun & Ha & Hb & Hsel).
  destruct (filter _ _) as [|c0 sel] eqn:E; [contradiction|].
  eexists. exists a, b. split; [reflexivity|].
  cbn [chunks requestStart requestEnd].
  split; [exact Hrun|]. split; [exact Ha|]. split; [exact Hb|].
  intros x Hx. rewrite <- E in Hx. apply filter_In in Hx.
  destruct Hx as [_ Hx]. unfold overlaps in Hx.
  apply andb_true_iff in Hx. rewrite Z.ltb_lt, Z.gtb_gt in Hx. lia.
Qed.

(** Offsets 8 to 15 of the demo file: the run is the first two chunks,
    from 0 to 20. *)
Lemma selection_is_a_run_witness :
  exists r a b,
    RangeRead demo_closer {| Start := 8; Length := 7 |} [] = (inr r, []) /\
    contiguous a (chunks r) b /\ a <= 8 /\ 15 <= b.
Proof.
  destruct (selection_is_a_run demo_closer {| Start := 8; Length := 7 |} []
              ltac:(cbn; repeat split; lia) ltac:(cbn; in64; lia)
              ltac:(unfold valid_request; cbn; in64; lia)
              ltac:(cbn; lia) ltac:(cbn; in64; lia))
    as (r & a & b & E & Hrun & Ha & Hb & _).
  exists r, a, b. split; [exact E|]. split; [exact Hrun|].
  injection E as <-. cbn in Ha, Hb. split; assumption.
Defined.

Lemma tiles_selection (s e : Z) (cs : list FileChunk) :
  s <= e ->
  forall from to, contiguous from cs to ->
    tiles (Z.max s (Z.min e from))
      (map (fun c => (Z.max s (StartOffset c), Z.min e (EndOffset c)))
         (filter (overlaps s e) cs))
      (Z.max s (Z.min e to)).
Proof.
  intros Hse. induction cs as [|c cs IH]; intros from to H;
    cbn [contiguous] in H.
  - subst to. reflexivity.
  - destruct H as (Hfrom & Hle & Hrest). specialize (IH _ _ Hrest).
    destruct (contiguous_bounds _ _ _ Hrest) as (Hto & _).
    cbn [filter]. unfold overlaps at 1.
    destruct (Z.ltb_spec (StartOffset c) e);
      destruct (Z.gtb_spec (EndOffset c) s); cbn [andb map tiles].
    + split; [lia|]. split; [lia|].
      replace (Z.min e (EndOffset c))
        with (Z.max s (Z.min e (EndOffset c))) by lia.
      exact IH.
    + replace (Z.max s (Z.min e from))
        with (Z.max s (Z.min e (EndOffset c))) by lia. exact IH.
    + replace (Z.max s (Z.min e from))
        with (Z.max s (Z.min e (EndOffset c))) by lia. exact IH.
    + replace (Z.max s (Z.min e from))
        with (Z.max s (Z.min e (EndOffset c))) by lia. exact IH.
Qed.

(** X4.  For a reader that [RangeRead] returns on a contiguous chunk
    list, the ranges [Read] computes for its chunks lie inside the chunks
    and, taken as file offsets in the order of the list, follow one
    another from the start of the request to its end, without gap or
    overlap. *)
Theorem sub_ranges_tile (c : ChunkedRangeReadCloser) (httpRange : Range)
    (w : trace) (r : ChunkedReader) :
  contiguous 0 (crc_chunks c) (fileSize c) ->
  fileSize c <= I64.max_int ->
  valid_request (fileSize c) httpRange ->
  Start httpRange + Length httpRange <= I64.max_int ->
  fst (RangeRead c httpRange w) = inr r ->
  tiles (requestStart r) (map (file_range r) (chunks r)) (requestEnd r) /\
  forall x, In x (chunks r) ->
    0 <= chunkStartOf r x <= chunkEndOf r x /\
    chunkEndOf r x <= EndOffset x - StartOffset x.
Proof.
  intros Hcont Hf Hv Hov H.
  destruct (RangeRead_valid c httpRange w r Hv Hf Hov H)
    as (Hrs & Hre & Hle & Hch & _).
  destruct Hv as [Hs _]. rewrite <- Hrs in Hle.
  set (s := requestStart r) in *. set (e := requestEnd r) in *.
  assert (Hin : forall x, In x (chunks r) ->
            0 <= StartOffset x <= EndOffset x /\
            EndOffset x <= fileSize c /\ StartOffset x < e /\ s < EndOffset x).
  { intros x Hx. rewrite Hch in Hx. apply filter_In in Hx.
    destruct Hx as [Hx Hov']. unfold overlaps in Hov'.
    apply andb_true_iff in Hov'. rewrite Z.ltb_lt, Z.gtb_gt in Hov'.
    destruct (contiguous_bounds _ _ _ Hcont) as (_ & Hb).
    specialize (Hb x Hx). lia. }
  assert (Hlo : forall x, In x (chunks r) ->
            chunkStartOf r x = Z.max s (StartOffset x) - StartOffset x).
  { intros x Hx. specialize (Hin x Hx). unfold chunkStartOf. fold s.
    rewrite max_is_Zmax. apply sub_small. in64. lia. }
  assert (Hhi : forall x, In x (chunks r) ->
            chunkEndOf r x = Z.min e (EndOffset x) - StartOffset x).
  { intros x Hx. specialize (Hin x Hx). unfold chunkEndOf. fold e.
    rewrite min_is_Zmin. apply sub_small. in64. lia. }
  split.
  - rewrite (map_ext_in (file_range r)
               (fun x => (Z.max s (StartOffset x), Z.min e (EndOffset x)))).
    + rewrite Hch.
      pose proof (tiles_selection s e (crc_chunks c) ltac:(lia)
                    0 (fileSize c) Hcont) as Ht.
      replace (Z.max s (Z.min e 0)) with s in Ht by lia.
      replace (Z.max s (Z.min e (fileSize c))) with e in Ht by lia.
      exact Ht.
    + intros x Hx. unfold file_range. rewrite (Hlo x Hx), (Hhi x Hx).
      f_equal; lia.
  - intros x Hx. rewrite (Hlo x Hx), (Hhi x Hx). specialize (Hin x Hx). lia.
Qed.

(** Offsets 8 to 15 of the demo file: bytes 8 to 10 come from the first
    chunk and bytes 10 to 15 from the second. *)
Lemma sub_ranges_tile_witness :
  exists r,
    fst (RangeRead demo_closer {| Start := 8; Length := 7 |} []) = inr r /\
    map (file_range r) (chunks r) = [(8, 10); (10, 15)] /\
    tiles 8 (map (file_range r) (chunks r)) 15.
Proof.
  eexists. split; [reflexivity|]. split; [reflexivity|].
  apply (sub_ranges_tile demo_closer {| Start := 8; Length := 7 |} [] _
           ltac:(cbn; repeat split; lia) ltac:(cbn; in64; lia)
           ltac:(unfold valid_request; cbn; in64; lia)
           ltac:(cbn; in64; lia) eq_refl).
Defined.

(** ** Response bodies are closed *)

Lemma responses_app (be : Backend) (t1 t2 : trace) :
  forall pre,
  responses be pre (t1 ++ t2) =
  (responses be pre t1 + responses be (pre ++ t1) t2)%nat.
Proof.
  induction t1 as [|ev t1 IH]; intros pre; cbn [app responses].
  - now rewrite app_nil_r.
  - rewrite IH, <- app_assoc. cbn [app]. lia.
Qed.

Lemma closes_app (t1 t2 : trace) :
  closes (t1 ++ t2) = (closes t1 + closes t2)%nat.
Proof. unfold closes. now rewrite filter_app, length_app. Qed.

Lemma createChunkReader_balance (be : Backend) (url : string)
    (offset length : Z) (w : trace) (res : Result Body) (w' : trace) :
  createChunkReader be url offset length w = (res, w') ->
  exists t, w' = w ++ t /\
    responses be w t =
    (closes t + match res with inr _ => 1 | inl _ => 0 end)%nat.
Proof.
  unfold createChunkReader. destruct (NewRequest be url); run.
  { intros [= <- <-]. exists []. now rewrite app_nil_r. }
  destruct (Do be w _) as [err|resp] eqn:E.
  { intros [= <- <-]. eexists. split; [reflexivity|]. cbn. now rewrite E. }
  destruct (_ && _); intros [= <- <-].
  - exists [EvDo (chunkRequest url offset length); EvBodyClose].
    rewrite <- app_assoc. split; [reflexivity|]. cbn. now rewrite E.
  - eexists. split; [reflexivity|]. cbn. now rewrite E.
Qed.

Lemma retryLoop_balance (be : Backend) (r : ChunkedReader)
    (chunk : FileChunk) (lo hi : Z) (n : nat) :
  forall retry w ex w',
  retryLoop be r chunk lo hi n retry w = (ex, w') ->
  exists t, w' = w ++ t /\
    responses be w t =
    (closes t + match ex with LoopLeft (Some _) => 1 | _ => 0 end)%nat.
Proof.
  induction n as [|n IH]; intros retry w ex w'; cbn [retryLoop].
  - intros [= <- <-]. exists []. rewrite app_nil_r. split; reflexivity.
  - unfold bind at 1, call at 1.
    set (ev := EvGetPageProperty (NotionPageID chunk)
                 (filePageID (notionClient r))).
    destruct (GetPageProperty be w _ _) as [err|property].
    + destruct (retry =? maxRetries - 1); run.
      * intros [= <- <-]. exists [ev]. split; reflexivity.
      * intros H. destruct (IH _ _ _ _ H) as (t & -> & Ht).
        exists ([ev] ++ [EvSleep (I64.mul Second (I64.add retry 1))] ++ t).
        split; [now rewrite <- !app_assoc|].
        rewrite !responses_app, !closes_app, ?app_assoc, Ht. cbn. lia.
    + destruct (Files property) as [|file0 files].
      { run. intros [= <- <-]. exists [ev]. split; reflexivity. }
      unfold bind at 1.
      destruct (createChunkReader be _ lo _ _) as [[err|body] w1] eqn:Ec;
        destruct (createChunkReader_balance _ _ _ _ _ _ _ Ec)
          as (t1 & -> & B1).
      * destruct (retry =? maxRetries - 1).
        -- unfold ret. intros [= <- <-].
           exists ([ev] ++ t1). split; [now rewrite <- !app_assoc|].
           rewrite responses_app, closes_app, B1. cbn. lia.
        -- unfold bind, call. intros H.
           destruct (IH _ _ _ _ H) as (t & -> & Ht).
           exists ([ev] ++ t1 ++
                   [EvSleep (I64.mul Second (I64.add retry 1))] ++ t).
           split; [now rewrite <- !app_assoc|].
           rewrite !responses_app, !closes_app, ?app_assoc, B1, Ht.
           cbn. lia.
      * unfold ret. intros [= <- <-]. exists ([ev] ++ t1).
        split; [now rewrite <- !app_assoc|].
        rewrite responses_app, closes_app, B1. cbn. lia.
Qed.

Lemma deliver_balance (be : Backend) (r : ChunkedReader) (p : nat)
    (w : trace) (out : list byte * option error) (r' : ChunkedReader)
    (w' : trace) :
  deliver r p w = (out, r', w') ->
  exists t, w' = w ++ t /\
    responses be w t = 0%nat /\ holds r = (closes t + holds r')%nat.
Proof.
  unfold deliver. destruct (_ && _); run.
  { intros [= <- <- <-]. exists []. rewrite app_nil_r.
    split; [reflexivity|]. split; reflexivity. }
  unfold holds at 1. destruct (currentReader r) as [body|] eqn:Ecur.
  2:{ intros [= <- <- <-]. exists []. rewrite app_nil_r. unfold holds.
      rewrite Ecur. split; [reflexivity|]. split; reflexivity. }
  destruct (body_read body _) as [[data [e0|]] body'].
  - destruct (is_EOF e0); [destruct (_ && _)|]; intros [= <- <- <-];
      eexists; rewrite <- app_assoc; (split; [reflexivity|]);
      split; reflexivity.
  - intros [= <- <- <-]. eexists. split; [reflexivity|]. split; reflexivity.
Qed.

Lemma Read_balance (be : Backend) (r : ChunkedReader) (p : nat) (w : trace)
    (out : list byte * option error) (r' : ChunkedReader) (w' : trace) :
  Read be r p w = (out, r', w') ->
  exists t, w' = w ++ t /\
    (responses be w t + holds r = closes t + holds r')%nat.
Proof.
  unfold Read. destruct (_ >=? _).
  { intros [= <- <- <-]. exists []. rewrite app_nil_r.
    split; [reflexivity | cbn; lia]. }
  unfold bind, openCurrent.
  destruct (currentReader r) as [body|] eqn:Ecur.
  - unfold ret. intros H.
    destruct (deliver_balance be _ _ _ _ _ _ H) as (t & -> & R & Hh).
    exists t. split; [reflexivity|]. rewrite R, Hh. lia.
  - assert (Hr : holds r = 0%nat) by (unfold holds; now rewrite Ecur).
    destruct (nth_error (chunks r) (currentChunk r)) as [chunk|].
    2:{ intros [= <- <- <-]. exists []. rewrite app_nil_r.
        split; [reflexivity | cbn; lia]. }
    unfold bind.
    destruct (retryLoop be r chunk _ _ _ 0 w) as [[err|reader] w1] eqn:El;
      destruct (retryLoop_balance _ _ _ _ _ _ _ _ _ _ El) as (t1 & -> & B1);
      unfold ret.
    + intros [= <- <- <-]. exists t1. split; [reflexivity|]. lia.
    + intros H.
      destruct (deliver_balance be _ _ _ _ _ _ H) as (t2 & -> & R2 & H2).
      exists (t1 ++ t2). split; [now rewrite app_assoc|].
      rewrite responses_app, closes_app, R2.
      assert (Hh : holds (with_reader r reader (chunkStartOf r chunk)) =
                   match reader with Some _ => 1%nat | None => 0%nat end)
        by reflexivity.
      destruct reader; lia.
Qed.

Lemma reads_balance (be : Backend) (ps : list nat) :
  forall r w outs r' w',
  reads be r ps w = (outs, r', w') ->
  exists t, w' = w ++ t /\
    (responses be w t + holds r = closes t + holds r')%nat.
Proof.
  induction ps as [|p ps IH]; intros r w outs r' w'; cbn [reads].
  - intros [= <- <- <-]. exists []. rewrite app_nil_r.
    split; [reflexivity | cbn; lia].
  - unfold bind at 1.
    destruct (Read be r p w) as [[out r1] w1] eqn:E1.
    destruct (Read_balance _ _ _ _ _ _ _ E1) as (t1 & -> & B1).
    unfold bind at 1.
    destruct (reads be r1 ps (w ++ t1)) as [[outs2 r2] w2] eqn:E2.
    destruct (IH _ _ _ _ _ E2) as (t2 & -> & B2).
    unfold ret. intros [= <- <- <-].
    exists (t1 ++ t2). split; [now rewrite app_assoc|].
    rewrite responses_app, closes_app. lia.
Qed.

(** X5.  Whatever the backend answers and whatever the caller reads, the
    reader holds at most one response body: over any run of [Read] calls,
    the bodies obtained from the server, with the one held before, are the
    bodies closed, with the one held after.  A response that is refused
    for its status is therefore closed within the [Read] that obtained
    it. *)
Theorem reader_holds_one_body (be : Backend) (r : ChunkedReader)
    (ps : list nat) (w : trace) :
  let '(_, r', w') := reads be r ps w in
  exists t, w' = w ++ t /\
    (responses be w t + holds r = closes t + holds r')%nat /\
    (holds r' <= 1)%nat.
Proof.
  destruct (reads be r ps w) as [[outs r'] w'] eqn:E.
  destruct (reads_balance be ps _ _ _ _ _ E) as (t & Et & B).
  exists t. split; [exact Et|]. split; [exact B|].
  unfold holds. destruct (currentReader _); lia.
Qed.

(** X6.  No response body is left open: for a reader that [RangeRead]
    returned, after any run of [Read] calls, ended by errors or not, and
    one [Close], every body obtained from the server has been closed. *)
Theorem Close_releases (be : Backend) (c : ChunkedRangeReadCloser)
    (httpRange : Range) (w0 : trace) (r : ChunkedReader) (ps : list nat)
    (w : trace) :
  fst (RangeRead c httpRange w0) = inr r ->
  let '(_, r', w') := reads be r ps w in
  exists t, snd (Close r' w') = w ++ t /\ responses be w t = closes t.
Proof.
  intros H.
  assert (Hr : holds r = 0%nat).
  { unfold RangeRead in H.
    destruct (_ <? 0); [discriminate|]. destruct (_ >=? _); [discriminate|].
    destruct (clampRange _ _) as [rng e].
    destruct (_ =? _)%nat; [discriminate|]. cbn in H. now injection H as <-. }
  destruct (reads be r ps w) as [[outs r'] w'] eqn:E.
  destruct (reads_balance be ps _ _ _ _ _ E) as (t & -> & B).
  rewrite Hr in B. unfold Close, holds in *.
  destruct (currentReader r'); run.
  - exists (t ++ [EvBodyClose]). split; [now rewrite app_assoc|].
    rewrite responses_app, closes_app. cbn. lia.
  - exists t. split; [reflexivity | lia].
Qed.

(** Four bytes of offsets 8 to 15 of the demo file are read and the
    reader is closed: the two bodies obtained were closed, the first at
    its end and the second by [Close]. *)
Lemma Close_releases_witness :
  exists r,
    fst (RangeRead demo_closer {| Start := 8; Length := 7 |} []) = inr r /\
    let '(_, r', w') := reads honest_backend r [4; 4]%nat [] in
    exists t, snd (Close r' w') = [] ++ t /\
              responses honest_backend [] t = closes t.
Proof.
  eexists. split; [reflexivity|].
  exact (Close_releases honest_backend demo_closer
           {| Start := 8; Length := 7 |} [] _ [4; 4]%nat [] eq_refl).
Defined.

(** ** The chunk cursor *)


(** ** From a link to the bytes *)

Lemma RangeRead_succeeds (c : ChunkedRangeReadCloser) (httpRange : Range)
    (w : trace) :
  contiguous 0 (crc_chunks c) (fileSize c) ->
  fileSize c <= I64.max_int ->
  valid_request (fileSize c) httpRange ->
  Length httpRange <> 0 ->
  Start httpRange + Length httpRange <= I64.max_int ->
  exists r, RangeRead c httpRange w = (inr r, w).
Proof.
  intros Hcont Hf Hv Hne Hov. pose proof Hv as [Hs HL].
  rewrite RangeRead_in_bounds by assumption. cbv zeta.
  rewrite clampRange_end by assumption.
  assert (He : Start httpRange < requested_end (fileSize c) httpRange).
  { unfold requested_end.
    destruct (Z.eqb_spec (Length httpRange) (-1)); lia. }
  pose proof (selection_nonempty _ _ _ He 0 _ Hcont ltac:(lia)) as Hsel.
  destruct (filter _ _); [contradiction|]. eexists. reflexivity.
Qed.

(** What a reader of [RangeRead] hands out on a contiguous chunk list
    whose chunks are all served. *)
Lemma reader_delivers (be : Backend) (client : NotionService)
    (data : list byte) (cs : list FileChunk) (httpRange : Range)
    (w0 : trace) (r : ChunkedReader) (ps : list nat) (w : trace)
    (outs : list (list byte * option error)) (r' : ChunkedReader)
    (w' : trace) :
  Z.of_nat (List.length data) <= I64.max_int ->
  contiguous 0 cs (Z.of_nat (List.length data)) ->
  honest be (filePageID client) data cs ->
  valid_request (Z.of_nat (List.length data)) httpRange ->
  Start httpRange + Length httpRange <= I64.max_int ->
  fst (RangeRead (NewChunkedRangeReadCloser client cs
                    (Z.of_nat (List.length data))) httpRange w0) = inr r ->
  reads be r ps w = (outs, r', w') ->
  (exists rest,
     delivered outs ++ rest =
     slice data (Start httpRange)
       (requested_end (Z.of_nat (List.length data)) httpRange)) /\
  Forall clean outs /\
  (Forall (fun p => (0 < p)%nat) ps ->
   (List.length (slice data (Start httpRange)
                   (requested_end (Z.of_nat (List.length data)) httpRange))
    + List.length cs < List.length ps)%nat ->
   delivered outs =
     slice data (Start httpRange)
       (requested_end (Z.of_nat (List.length data)) httpRange) /\
   Exists at_EOF outs).
Proof.
  set (fsize := Z.of_nat (List.length data)).
  intros Hf Hcont Hhon Hv Hok E0 Er. pose proof Hv as [Hst HL].
  set (c := NewChunkedRangeReadCloser client cs fsize) in *.
  destruct (RangeRead_valid c httpRange w0 r Hv Hf Hok E0)
    as (Hrs & Hre & Hle & Hch & Hcl & Hcur0 & Hnone & Htot).
  unfold c in Hre, Hle, Hch, Hcl.
  cbn [fileSize crc_chunks crc_notionClient NewChunkedRangeReadCloser]
    in Hre, Hle, Hch, Hcl.
  rewrite <- Hre, <- Hrs.
  set (s := requestStart r) in *. set (e := requestEnd r) in *.
  assert (Hbounds : forall x, In x (chunks r) ->
            0 <= StartOffset x <= EndOffset x /\
            EndOffset x <= Z.of_nat (List.length data) /\
            StartOffset x < e /\ EndOffset x > s).
  { intros x Hx. rewrite Hch in Hx. apply filter_In in Hx.
    destruct Hx as [Hx Hov]. unfold overlaps in Hov.
    apply andb_true_iff in Hov. rewrite Z.ltb_lt, Z.gtb_gt in Hov.
    destruct (contiguous_bounds _ _ _ Hcont) as (_ & Hb).
    specialize (Hb x Hx). fold fsize. lia. }
  assert (Hhon' : honest be (filePageID client) data (chunks r)).
  { intros x Hx. apply Hhon. rewrite Hch in Hx. apply filter_In in Hx.
    tauto. }
  assert (Hfl : in_flight data client (chunks r) s e [] r).
  { unfold in_flight.
    do 4 (split; [reflexivity || assumption|]).
    split; [exact Htot|]. split.
    - cbn [app]. unfold pending. rewrite Hnone, Hcur0. cbn [skipn].
      fold s e. rewrite Hch at 1.
      rewrite (selection_covers data s e cs ltac:(lia) 0 fsize Hcont).
      f_equal; lia.
    - intros b Hb. rewrite Hnone in Hb. discriminate Hb. }
  destruct (reads_flight be data client (chunks r) s e ltac:(lia)
              ltac:(fold fsize; lia) Hf Hbounds Hhon' ps [] r w
              outs r' w' Hfl Er) as (Hfl' & Hclean & Hdone).
  cbn [app] in *. split; [|split; [exact Hclean|]].
  - exists (pending data r'). apply Hfl'.
  - intros Hpos Hlen. apply Hdone; [exact Hpos|].
    unfold budget. destruct Hfl as (_ & _ & _ & _ & _ & Hacc & _).
    cbn [app] in Hacc. rewrite Hacc, Hcur0, Nat.sub_0_r.
    pose proof (filter_length_le (overlaps s e) cs) as Hfil.
    rewrite <- Hch in Hfil. lia.
Qed.

(** X8.  [Link] of a chunked file whose chunk rows are contiguous from 0
    to the size of the file row makes no call to Notion and returns a
    range reader and no URL.  Through that reader, on a backend that
    serves every chunk, a request of at least one byte is answered with
    exactly the requested bytes of the file, once enough reads with
    non-empty buffers were made. *)
Theorem Link_serves_range (be : Backend) (db : Database)
    (client : NotionService) (NotionFilePageID : string) (file : Obj)
    (f : File) (cs : list FileChunk) (data : list byte)
    (httpRange : Range) (ps : list nat) (w : trace) :
  FileByID db (Obj_ID file) = inr f ->
  File_IsChunked f = true ->
  ChunksOf db (File_ID f) = inr cs ->
  File_Size f = Z.of_nat (List.length data) ->
  File_Size f <= I64.max_int ->
  contiguous 0 cs (File_Size f) ->
  honest be (filePageID client) data cs ->
  valid_request (File_Size f) httpRange ->
  Length httpRange <> 0 ->
  Start httpRange + Length httpRange <= I64.max_int ->
  Forall (fun p => (0 < p)%nat) ps ->
  (List.length (slice data (Start httpRange)
                  (requested_end (File_Size f) httpRange))
   + List.length cs < List.length ps)%nat ->
  exists closer r,
    Link be db client NotionFilePageID file w =
      (inr {| Link_URL := ""; RangeReadCloser := Some closer |}, w) /\
    RangeRead closer httpRange w = (inr r, w) /\
    let outs := fst (fst (reads be r ps w)) in
    delivered outs =
      slice data (Start httpRange) (requested_end (File_Size f) httpRange) /\
    Forall clean outs /\ Exists at_EOF outs.
Proof.
  intros Hfile Hchunked Hcs Hsize Hf Hcont Hhon Hv Hne Hov Hpos Hlen.
  unfold Link. rewrite Hfile, Hchunked, Hcs.
  assert (Hnil : cs <> []).
  { intros ->. cbn in Hcont. destruct Hv as [Hs _]. lia. }
  destruct cs as [|c0 cs0] eqn:Ecs; [contradiction|].
  cbn [List.length Nat.eqb]. rewrite <- Ecs in *. clear Hnil.
  set (closer := NewChunkedRangeReadCloser client cs (File_Size f)).
  destruct (RangeRead_succeeds closer httpRange w Hcont Hf Hv Hne Hov)
    as [r Er].
  exists closer, r. split; [reflexivity|]. split; [exact Er|].
  cbv zeta. destruct (reads be r ps w) as [[outs r'] w'] eqn:Ereads.
  cbn [fst]. unfold closer in Er. rewrite Hsize in *.
  destruct (reader_delivers be client data cs httpRange w r ps w outs r' w'
              Hf Hcont Hhon Hv Hov ltac:(now rewrite Er) Ereads)
    as (_ & Hclean & Hdone).
  destruct (Hdone Hpos Hlen) as [Hall Heof].
  split; [exact Hall|]. split; assumption.
Qed.

(** The demo file through its link: offsets 8 to 15, read through buffers
    of four bytes, are the bytes "ijklmno". *)
Lemma Link_serves_range_witness :
  exists closer r,
    Link honest_backend demo_db demo_client "files" demo_dir [] =
      (inr {| Link_URL := ""; RangeReadCloser := Some closer |}, []) /\
    RangeRead closer {| Start := 8; Length := 7 |} [] = (inr r, []) /\
    delivered (fst (fst (reads honest_backend r (repeat 4%nat 11) []))) =
      list_byte_of_string "ijklmno".
Proof.
  destruct (Link_serves_range honest_backend demo_db demo_client "files"
              demo_dir demo_file demo_chunks demo_data
              {| Start := 8; Length := 7 |} (repeat 4%nat 11) []
              eq_refl eq_refl eq_refl eq_refl
              ltac:(cbn; in64; lia) ltac:(cbn; repeat split; lia)
              demo_honest
              ltac:(unfold valid_request; cbn; in64; lia)
              ltac:(cbn; lia) ltac:(cbn; in64; lia)
              ltac:(repeat constructor) ltac:(vm_compute; lia))
    as (closer & r & HL & HR & Hd & _).
  exists closer, r. split; [exact HL|]. split; [exact HR|]. exact Hd.
Defined.

(** * Further properties of the upload path *)

Lemma uploads_app (t1 t2 : trace) :
  uploads (t1 ++ t2) = uploads t1 ++ uploads t2.
Proof. unfold uploads. apply flat_map_app. Qed.

Lemma db_writes_app (t1 t2 : trace) :
  db_writes (t1 ++ t2) = db_writes t1 ++ db_writes t2.
Proof. unfold db_writes. apply filter_app. Qed.

Lemma seq_from (i : Z) (n : nat) :
  map (fun k => i + Z.of_nat k) (seq 0 (S n)) =
  i :: map (fun k => i + 1 + Z.of_nat k) (seq 0 n).
Proof.
  cbn [seq map]. f_equal; [lia|].
  rewrite <- seq_shift, map_map. apply map_ext. intros k. lia.
Qed.

(** One run of the upload loop, whatever the backend answers: the uploads
    it makes are those of consecutive chunks from index [i] on, cut as the
    loop cuts them; it writes nothing to the database; it returns the
    records of all [n] chunks, or stops at the first refusal. *)
Lemma uploadChunks_run (be : Backend) (maxChunkSize : Z) (fileName : string)
    (fsize fID : Z) (file : FileStreamer) (n : nat) :
  forall i acc w res w',
    uploadChunks be maxChunkSize fileName fsize fID file n i acc w =
      (res, w') ->
    0 <= i -> i + Z.of_nat n <= I64.max_int ->
    exists t cs,
      w' = w ++ t /\ db_writes t = [] /\
      uploads t = map (upload_of fileName (mimetype file)) cs /\
      map ChunkIndex cs =
        map (fun k => i + Z.of_nat k) (seq 0 (List.length cs)) /\
      Forall (fun c => ID c = 0 /\ FileID c = fID /\ Deleted c = false /\
                       cut maxChunkSize fsize c) cs /\
      (List.length cs <= n)%nat /\
      match res with
      | inr out => out = acc ++ cs /\ List.length cs = n
      | inl err =>
          n <> 0%nat /\
          (err = Canceled \/
           (exists e, err = CreateChunkPageFailed e) \/
           (exists k e, err = UploadChunkFailed k e /\
                        i <= k < i + Z.of_nat n))
      end.
Proof.
  induction n as [|n IH]; intros i acc w res w' H Hi Hn.
  - cbn in H. injection H as <- <-. exists [], [].
    rewrite !app_nil_r. cbn. repeat split; auto.
  - cbn [uploadChunks] in H. cbv zeta in H.
    unfold bind at 1, call at 1 in H.
    destruct (IsCanceled be w).
    { injection H as <- <-. exists [EvIsCanceled], []. cbn.
      repeat split; auto; lia. }
    unfold bind at 1, call at 1 in H.
    destruct (CreateDatabasePage be _ _) as [e|pageID].
    { injection H as <- <-. rewrite <- app_assoc. eexists _, [].
      split; [reflexivity|]. cbn. repeat split; eauto; lia. }
    unfold bind at 1, call at 1 in H.
    set (endOffset := if I64.add (I64.mul i maxChunkSize) maxChunkSize
                           >? fsize
                      then fsize
                      else I64.add (I64.mul i maxChunkSize) maxChunkSize)
      in *.
    set (c0 := fun hash1 =>
                 {| ID := 0; FileID := fID; ChunkIndex := i;
                    ChunkSize := I64.sub endOffset (I64.mul i maxChunkSize);
                    StartOffset := I64.mul i maxChunkSize;
                    EndOffset := endOffset; NotionPageID := pageID;
                    SHA1 := hash1; Deleted := false |}).
    assert (Hc0 : forall h, ID (c0 h) = 0 /\ FileID (c0 h) = fID /\
                            Deleted (c0 h) = false /\
                            cut maxChunkSize fsize (c0 h)).
    { intros h. unfold cut, c0. cbn. repeat split; reflexivity. }
    destruct (UploadAndUpdateFilePut be _ _ _) as [e|hash1].
    { injection H as <- <-. rewrite <- !app_assoc. eexists _, [c0 ""%string].
      split; [reflexivity|]. split; [reflexivity|].
      split; [reflexivity|]. split; [cbn; f_equal; lia|].
      split; [constructor; [apply Hc0 | constructor]|].
      split; [cbn; lia|]. split; [lia|].
      right. right. exists i, e. split; [reflexivity | lia]. }
    rewrite add_small in H by (in64; lia).
    destruct (IH _ _ _ _ _ H ltac:(lia) ltac:(lia))
      as (t & cs & -> & Hdb & Hup & Hidx & Hcut & Hlen & Hres).
    rewrite <- !app_assoc. eexists _, (c0 hash1 :: cs).
    split; [reflexivity|].
    split; [cbn [app]; exact Hdb|].
    split; [cbn [app map]; change (uploads (?a :: ?b :: ?c :: t))
                             with (uploads [a; b; c] ++ uploads t);
            rewrite Hup; reflexivity|].
    split; [cbn [List.length map]; rewrite seq_from, Hidx; reflexivity|].
    split; [constructor; [apply Hc0 | exact Hcut]|].
    split; [cbn; lia|].
    destruct res as [err|out].
    + destruct Hres as [Hn0 Herr]. split; [lia|].
      destruct Herr as [->|[[e ->]|(k & e & -> & Hk)]]; auto.
      * right. left. eauto.
      * right. right. exists k, e. split; [reflexivity | lia].
    + destruct Hres as [-> Hl]. rewrite <- app_assoc.
      split; [reflexivity | cbn; lia].
Qed.

Lemma chunkCount_fits (fsize maxChunkSize : Z) :
  0 + Z.of_nat (Z.to_nat (I64.div (I64.sub (I64.add fsize maxChunkSize) 1)
                            maxChunkSize)) <= I64.max_int.
Proof.
  pose proof (wrap_in_range (Z.quot (I64.sub (I64.add fsize maxChunkSize) 1)
                               maxChunkSize)) as H.
  unfold I64.div. in64. lia.
Qed.

(** A run of [putChunkedFile] that succeeds. *)
Lemma putChunkedFileWith_success (be : Backend) (maxChunkSize : Z)
    (fileName : string) (fsize dirID : Z) (file : FileStreamer)
    (w : trace) (obj : Object) (w' : trace) :
  putChunkedFileWith maxChunkSize be fileName fsize dirID file w =
    (inr obj, w') ->
  exists id saved t,
    w' = w ++ t /\
    obj = object_of (with_ID (chunked_row maxChunkSize fileName fsize dirID)
                       id) /\
    db_writes t =
      [EvDbCreateFile (chunked_row maxChunkSize fileName fsize dirID);
       EvDbCreateChunks saved] /\
    uploads t = map (upload_of fileName (mimetype file)) saved /\
    map ChunkIndex saved = map Z.of_nat (seq 0 (List.length saved)) /\
    Forall (fun c => FileID c = id /\ cut maxChunkSize fsize c) saved /\
    last t EvIsCanceled = EvCloseTempFile /\
    List.length saved =
      Z.to_nat (I64.div (I64.sub (I64.add fsize maxChunkSize) 1)
                  maxChunkSize).
Proof.
  unfold putChunkedFileWith. cbv zeta. fold (chunked_row maxChunkSize
                                               fileName fsize dirID).
  set (f0 := chunked_row maxChunkSize fileName fsize dirID).
  unfold bind at 1, call at 1.
  destruct (CacheFullInTempFile be w); [discriminate|].
  unfold bind at 1 2, call at 1.
  destruct (DbCreateFile be _ f0) as [e|id]; [discriminate|].
  unfold bind at 1.
  destruct (uploadChunks be _ _ _ _ _ _ _ _ _) as [[err|chunks] w1] eqn:Eup;
    [discriminate|].
  destruct (uploadChunks_run _ _ _ _ _ _ _ _ _ _ _ _ Eup ltac:(lia)
              (chunkCount_fits fsize maxChunkSize))
    as (t & cs & -> & Hdb & Hup & Hidx & Hcut & _ & Hout & Hcount).
  cbn [app] in Hout. subst chunks.
  unfold bind, call, ret.
  destruct (DbCreateChunks be _ cs); [discriminate|].
  intros [= <- <-]. exists id, cs.
  exists ([EvCacheFullInTempFile; EvDbCreateFile f0] ++ t ++
          [EvDbCreateChunks cs; EvCloseTempFile]).
  split; [now rewrite <- !app_assoc|]. split; [reflexivity|].
  split; [rewrite !db_writes_app, Hdb; reflexivity|].
  split; [rewrite !uploads_app, Hup; cbn; now rewrite app_nil_r|].
  split; [rewrite Hidx; apply map_ext; intros; lia|].
  split; [eapply Forall_impl; [|exact Hcut]; cbn; intros c H; tauto|].
  split; [|exact Hcount].
  rewrite !app_assoc.
  change ([EvDbCreateChunks cs; EvCloseTempFile])
    with ([EvDbCreateChunks cs] ++ [EvCloseTempFile]).
  rewrite app_assoc. apply last_last.
Qed.


(** X9.  When [putChunkedFile] succeeds, whatever the sizes and the
    backend: it wrote the file row and then, once, the chunk records, and
    nothing else; the uploads it made are, in order, those of the saved
    records, each the section of the cached file that its record names, of
    the size of the record, sent to the page of the record; the records are
    numbered from 0 and carry the ID the database gave the file row; the
    cached file is closed last. *)
Theorem chunk_records_match_uploads (be : Backend) (maxChunkSize : Z)
    (fileName : string) (fsize dirID : Z) (file : FileStreamer)
    (w : trace) (obj : Object) (w' : trace) :
  putChunkedFileWith maxChunkSize be fileName fsize dirID file w =
    (inr obj, w') ->
  exists id saved t,
    w' = w ++ t /\
    obj = object_of (with_ID (chunked_row maxChunkSize fileName fsize dirID)
                       id) /\
    db_writes t =
      [EvDbCreateFile (chunked_row maxChunkSize fileName fsize dirID);
       EvDbCreateChunks saved] /\
    uploads t = map (upload_of fileName (mimetype file)) saved /\
    map ChunkIndex saved = map Z.of_nat (seq 0 (List.length saved)) /\
    Forall (fun c => FileID c = id /\ cut maxChunkSize fsize c) saved /\
    last t EvIsCanceled = EvCloseTempFile.
Proof.
  intros H.
  destruct (putChunkedFileWith_success _ _ _ _ _ _ _ _ _ H)
    as (id & saved & t & E & Hobj & Hdb & Hup & Hidx & Hcut & Hlast & _).
  exists id, saved, t. auto 8.
Qed.

(** The 26 bytes of the demo file in chunks of 10: three uploads, of the
    sections at 0, 10 and 20, of 10, 10 and 6 bytes. *)
Lemma chunk_records_match_uploads_witness :
  exists obj w' id saved t,
    putChunkedFileWith 10 honest_backend "alphabet.txt" 26 1 alphabet [] =
      (inr obj, w') /\
    w' = [] ++ t /\ Object_ID obj = Itoa id /\
    uploads t = map (upload_of "alphabet.txt" "text/plain") saved /\
    map (fun u => reader (fst u)) (uploads t) =
      [SectionReader 0 10; SectionReader 10 10; SectionReader 20 6].
Proof.
  destruct (chunk_records_match_uploads honest_backend 10 "alphabet.txt" 26 1
              alphabet [] _ _ eq_refl)
    as (id & saved & t & E & Hobj & _ & Hup & _).
  eexists _, _, id, saved, t. split; [reflexivity|]. split; [exact E|].
  split; [rewrite Hobj; reflexivity|]. split; [exact Hup|].
  cbn [app] in E. subst t. reflexivity.
Defined.

(** X10.  When [putChunkedFile] fails, whatever the sizes and the
    backend: if caching failed, nothing else was done; otherwise the cached
    file is closed last.  A failure after the file row was inserted, by
    cancellation, by a page that could not be created or by an upload that
    was refused, leaves that row and the pages already uploaded, with no
    chunk record written: nothing is rolled back. *)
Theorem failed_chunked_upload (be : Backend) (maxChunkSize : Z)
    (fileName : string) (fsize dirID : Z) (file : FileStreamer)
    (w : trace) (err : error) (w' : trace) :
  putChunkedFileWith maxChunkSize be fileName fsize dirID file w =
    (inl err, w') ->
  let row := chunked_row maxChunkSize fileName fsize dirID in
  exists t,
    w' = w ++ t /\
    ((exists e, err = CacheFailed e) /\ t = [EvCacheFullInTempFile] \/
     last t EvIsCanceled = EvCloseTempFile /\
     ((exists e, err = CreateFileRecordFailed e) /\
      t = [EvCacheFullInTempFile; EvDbCreateFile row; EvCloseTempFile] \/
      (exists id, DbCreateFile be (w ++ [EvCacheFullInTempFile]) row
                  = inr id) /\
      ((exists e saved, err = SaveChunksFailed e /\
          db_writes t = [EvDbCreateFile row; EvDbCreateChunks saved] /\
          uploads t = map (upload_of fileName (mimetype file)) saved) \/
       (err = Canceled \/ (exists e, err = CreateChunkPageFailed e) \/
        (exists k e, err = UploadChunkFailed k e /\ 0 <= k)) /\
       db_writes t = [EvDbCreateFile row]))).
Proof.
  unfold putChunkedFileWith. cbv zeta. fold (chunked_row maxChunkSize
                                               fileName fsize dirID).
  set (f0 := chunked_row maxChunkSize fileName fsize dirID).
  unfold bind at 1, call at 1.
  destruct (CacheFullInTempFile be w).
  { intros [= <- <-]. eexists. split; [reflexivity|]. left. eauto. }
  unfold bind at 1 2, call at 1.
  destruct (DbCreateFile be _ f0) as [e|id] eqn:Efile.
  { unfold bind, call, ret. intros [= <- <-]. eexists.
    rewrite <- !app_assoc. split; [reflexivity|]. right.
    split; [reflexivity|]. left. eauto. }
  unfold bind at 1.
  destruct (uploadChunks be _ _ _ _ _ _ _ _ _) as [[err0|chunks] w1] eqn:Eup;
    destruct (uploadChunks_run _ _ _ _ _ _ _ _ _ _ _ _ Eup ltac:(lia)
                (chunkCount_fits fsize maxChunkSize))
      as (t & cs & -> & Hdb & Hup & Hidx & Hcut & _ & Hout).
  - unfold bind, call, ret. intros [= <- <-].
    exists ([EvCacheFullInTempFile; EvDbCreateFile f0] ++ t ++
            [EvCloseTempFile]).
    split; [now rewrite <- !app_assoc|]. right.
    split; [rewrite !app_assoc; apply last_last|]. right.
    split; [eauto|]. right.
    split; [|rewrite !db_writes_app, Hdb; reflexivity].
    destruct Hout as [_ [->|[[e ->]|(k & e & -> & Hk)]]]; eauto.
    right. right. exists k, e. split; [reflexivity | lia].
  - destruct Hout as [Hout _]. cbn [app] in Hout. subst chunks.
    unfold bind, call, ret.
    destruct (DbCreateChunks be _ cs) as [e|]; [|discriminate].
    intros [= <- <-].
    exists ([EvCacheFullInTempFile; EvDbCreateFile f0] ++ t ++
            [EvDbCreateChunks cs; EvCloseTempFile]).
    split; [now rewrite <- !app_assoc|]. right. split.
    { rewrite !app_assoc.
      change ([EvDbCreateChunks cs; EvCloseTempFile])
        with ([EvDbCreateChunks cs] ++ [EvCloseTempFile]).
      rewrite app_assoc. apply last_last. }
    right. split; [eauto|]. left. exists e, cs.
    split; [reflexivity|].
    split; [rewrite !db_writes_app, Hdb; reflexivity|].
    rewrite !uploads_app, Hup. cbn. now rewrite app_nil_r.
Qed.

(** The upload of the second chunk of the demo file is refused: the file
    row and the first chunk, already uploaded, stay. *)
Lemma failed_chunked_upload_witness :
  exists err w' t,
    putChunkedFileWith 10 refusing_backend "alphabet.txt" 26 1 alphabet [] =
      (inl err, w') /\
    w' = [] ++ t /\
    err = UploadChunkFailed 1 (External "upload refused") /\
    db_writes t = [EvDbCreateFile (chunked_row 10 "alphabet.txt" 26 1)] /\
    List.length (uploads t) = 2%nat.
Proof.
  destruct (failed_chunked_upload refusing_backend 10 "alphabet.txt" 26 1
              alphabet [] _ _ eq_refl) as (t & E & _).
  eexists _, _, t. split; [reflexivity|]. split; [exact E|].
  cbn [app] in E. subst t. split; [reflexivity|].
  split; reflexivity.
Defined.

(** ** What is sent to Notion *)

Lemma putChunkedFileWith_uploads (be : Backend) (maxChunkSize : Z)
    (fileName : string) (fsize dirID : Z) (file : FileStreamer)
    (w : trace) :
  exists t cs,
    snd (putChunkedFileWith maxChunkSize be fileName fsize dirID file w) =
      w ++ t /\
    uploads t = map (upload_of fileName (mimetype file)) cs /\
    map ChunkIndex cs = map Z.of_nat (seq 0 (List.length cs)) /\
    Forall (cut maxChunkSize fsize) cs /\
    (List.length cs <=
     Z.to_nat (I64.div (I64.sub (I64.add fsize maxChunkSize) 1)
                 maxChunkSize))%nat.
Proof.
  unfold putChunkedFileWith. cbv zeta.
  unfold bind at 1, call at 1.
  destruct (CacheFullInTempFile be w).
  { exists [EvCacheFullInTempFile], []. cbn.
    repeat split; auto; lia. }
  unfold bind at 1 2, call at 1.
  destruct (DbCreateFile be _ _) as [e|id].
  { unfold bind, call, ret. cbn [snd]. rewrite <- !app_assoc.
    eexists _, []. split; [reflexivity|]. cbn. repeat split; auto; lia. }
  unfold bind at 1.
  destruct (uploadChunks be _ _ _ _ _ _ _ _ _) as [[err0|chunks] w1] eqn:Eup;
    destruct (uploadChunks_run _ _ _ _ _ _ _ _ _ _ _ _ Eup ltac:(lia)
                (chunkCount_fits fsize maxChunkSize))
      as (t & cs & -> & Hdb & Hup & Hidx & Hcut & Hlen & Hout);
    unfold bind, call, ret; cbn [snd].
  - eexists (_ :: _ :: t ++ [EvCloseTempFile]), cs.
    split; [rewrite <- !app_assoc; reflexivity|].
    split; [change (uploads (?a :: ?b :: ?l))
              with (uploads [a; b] ++ uploads l);
            rewrite uploads_app, Hup; cbn; now rewrite app_nil_r|].
    split; [rewrite Hidx; apply map_ext; intros; lia|].
    split; [|exact Hlen].
    eapply Forall_impl; [|exact Hcut]. cbn. intros c H. tauto.
  - eexists (_ :: _ :: t ++ [EvDbCreateChunks chunks; EvCloseTempFile]), cs.
    split.
    { destruct (DbCreateChunks be _ chunks); cbn [snd];
        rewrite <- !app_assoc; reflexivity. }
    split; [change (uploads (?a :: ?b :: ?l))
              with (uploads [a; b] ++ uploads l);
            rewrite uploads_app, Hup; cbn; now rewrite app_nil_r|].
    split; [rewrite Hidx; apply map_ext; intros; lia|].
    split; [|exact Hlen].
    eapply Forall_impl; [|exact Hcut]. cbn. intros c H. tauto.
Qed.

Lemma index_of_record (cs : list FileChunk) (c : FileChunk) :
  map ChunkIndex cs = map Z.of_nat (seq 0 (List.length cs)) ->
  In c cs ->
  0 <= ChunkIndex c < Z.of_nat (List.length cs).
Proof.
  intros Hidx Hin. apply (in_map ChunkIndex) in Hin. rewrite Hidx in Hin.
  apply in_map_iff in Hin. destruct Hin as (k & <- & Hk).
  apply in_seq in Hk. lia.
Qed.

(** A chunk that starts inside the file is cut as planned. *)
Lemma cut_inside (maxChunkSize fsize : Z) (c : FileChunk) :
  0 < maxChunkSize ->
  fsize + maxChunkSize - 1 <= I64.max_int ->
  0 <= ChunkIndex c ->
  ChunkIndex c * maxChunkSize < fsize ->
  cut maxChunkSize fsize c ->
  planned maxChunkSize fsize (ChunkIndex c) c /\
  0 < ChunkSize c <= maxChunkSize.
Proof.
  intros Hmax Hfit Hi Hin (Hs & He & Hz).
  assert (Him : 0 <= ChunkIndex c * maxChunkSize) by nia.
  rewrite mul_small in Hs by (in64; lia).
  rewrite Hs in He, Hz. rewrite add_small in He by (in64; lia).
  assert (Eend : EndOffset c =
                 Z.min (ChunkIndex c * maxChunkSize + maxChunkSize) fsize).
  { rewrite He.
    destruct (Z.gtb_spec (ChunkIndex c * maxChunkSize + maxChunkSize) fsize);
      lia. }
  rewrite sub_small in Hz by (in64; lia).
  unfold planned. rewrite Hs. repeat split; try assumption; lia.
Qed.

Lemma chunkCount_overflow (fsize maxChunkSize : Z) :
  I64.in_range fsize -> 0 < maxChunkSize <= I64.max_int ->
  fsize + maxChunkSize - 1 > I64.max_int ->
  Z.to_nat (I64.div (I64.sub (I64.add fsize maxChunkSize) 1) maxChunkSize)
  = 0%nat.
Proof.
  intros Hf Hmax Hover. unfold I64.add.
  rewrite wrap_over by (in64; lia).
  rewrite sub_small by (in64; lia).
  unfold I64.div.
  assert (Hq : Z.quot (fsize + maxChunkSize - 2 ^ 64 - 1) maxChunkSize <= 0).
  { apply Z.quot_le_upper_bound; [lia|]. in64. lia. }
  assert (Hq' : I64.min_int <=
                Z.quot (fsize + maxChunkSize - 2 ^ 64 - 1) maxChunkSize).
  { apply Z.quot_le_lower_bound; [lia|]. in64. nia. }
  rewrite wrap_small by (in64; lia). lia.
Qed.

(** The uploads of [putChunkedFile] are sections inside the file, none
    empty and none larger than the chunk size. *)
Lemma putChunkedFileWith_sections (be : Backend) (maxChunkSize : Z)
    (fileName : string) (fsize dirID : Z) (file : FileStreamer)
    (w : trace) :
  0 < maxChunkSize <= I64.max_int -> 0 < fsize -> I64.in_range fsize ->
  exists t,
    snd (putChunkedFileWith maxChunkSize be fileName fsize dirID file w) =
      w ++ t /\
    Forall (fun u => exists off,
              reader (fst u) = SectionReader off (size (fst u)) /\
              0 <= off /\ 0 < size (fst u) <= maxChunkSize /\
              off + size (fst u) <= fsize) (uploads t).
Proof.
  intros Hmax Hsize Hrange.
  destruct (putChunkedFileWith_uploads be maxChunkSize fileName fsize dirID
              file w) as (t & cs & E & Hup & Hidx & Hcut & Hlen).
  exists t. split; [exact E|]. rewrite Hup.
  destruct (Z_le_gt_dec (fsize + maxChunkSize - 1) I64.max_int)
    as [Hfit|Hover].
  - destruct (chunkCount_exact maxChunkSize fsize ltac:(lia) Hsize Hfit)
      as (_ & Hpos & Hlast & _).
    apply Forall_forall. intros u Hu. apply in_map_iff in Hu.
    destruct Hu as (c & <- & Hc).
    pose proof (index_of_record cs c Hidx Hc) as Hi.
    rewrite Forall_forall in Hcut.
    destruct (cut_inside maxChunkSize fsize c ltac:(lia) Hfit ltac:(lia)
                ltac:(nia) (Hcut c Hc)) as [(_ & Hs & He & Hz) Hb].
    exists (StartOffset c). unfold upload_of. cbn [fst reader size].
    split; [reflexivity|]. split; [nia|]. split; [exact Hb | lia].
  - rewrite chunkCount_overflow in Hlen by (assumption || lia).
    destruct cs; [constructor | cbn in Hlen; lia].
Qed.

(** X11.  Nothing larger than the threshold is sent to Notion.  Whatever
    the backend answers, every upload [Put] makes is either the incoming
    file itself, of a size up to [ChunkThreshold], or a section of the
    cached file that lies inside the file, is not empty and has at most
    [MaxChunkSize] bytes. *)
Theorem Put_upload_sizes (be : Backend) (dstDir : Obj) (file : FileStreamer)
    (w : trace) :
  I64.in_range (size file) ->
  exists t,
    snd (Put be dstDir file w) = w ++ t /\
    Forall (fun u =>
              size (fst u) <= ChunkThreshold /\
              (fst u = file \/
               exists off,
                 reader (fst u) = SectionReader off (size (fst u)) /\
                 0 <= off /\ 0 < size (fst u) <= MaxChunkSize /\
                 off + size (fst u) <= size file)) (uploads t).
Proof.
  intros Hrange. unfold Put, bind at 1, call at 1.
  set (ev := EvDbFirstFile (Base be (name file)) (Obj_ID dstDir)).
  destruct (DbFirstFile be w _ _).
  1, 3: exists [ev]; split; [reflexivity | constructor].
  destruct (Z.gtb_spec (size file) ChunkThreshold) as [Hbig|Hsmall].
  - destruct (putChunkedFileWith_sections be MaxChunkSize
                (Base be (name file)) (size file)
                (Atoi be (Obj_ID dstDir)) file (w ++ [ev])
                ltac:(unfold MaxChunkSize; in64; lia)
                ltac:(unfold ChunkThreshold in Hbig; lia) Hrange)
      as (t & E & Hall).
    exists (ev :: t). unfold putChunkedFile. rewrite E, <- app_assoc.
    split; [reflexivity|]. change (uploads (ev :: t)) with (uploads t).
    eapply Forall_impl; [|exact Hall]. cbn beta.
    intros u (off & Hr & Hoff & Hsz & Hend).
    split; [unfold MaxChunkSize, ChunkThreshold in *; lia|].
    right. exists off. auto.
  - unfold putSingleFile, bind at 1, call at 1.
    destruct (CreateDatabasePage be _ _) as [e|pageID]; unfold ret.
    { eexists [ev; _]. cbn [snd]. rewrite <- app_assoc.
      split; [reflexivity | constructor]. }
    unfold bind at 1, call at 1.
    destruct (UploadAndUpdateFilePut be _ _ _) as [e|hash1].
    { eexists [ev; _; _]. cbn [snd]. rewrite <- !app_assoc.
      split; [reflexivity|]. cbn. constructor; [|constructor]. auto. }
    unfold bind, call.
    eexists [ev; _; _; _]. split.
    { destruct (DbCreateFile be _ _); cbn [snd]; rewrite <- !app_assoc;
        reflexivity. }
    cbn. constructor; [|constructor]. auto.
Qed.

(** A file of 6 000 000 000 bytes goes up in two sections, of
    4 831 838 208 and 1 168 161 792 bytes. *)
Lemma Put_upload_sizes_witness :
  exists t,
    snd (Put honest_backend demo_dir (demo_upload 6000000000) []) = [] ++ t /\
    map (fun u => size (fst u)) (uploads t) = [4831838208; 1168161792] /\
    Forall (fun u => size (fst u) <= ChunkThreshold) (uploads t).
Proof.
  destruct (Put_upload_sizes honest_backend demo_dir
              (demo_upload 6000000000) [] ltac:(cbn; in64; lia))
    as (t & E & Hall).
  exists t. split; [exact E|]. split.
  - cbn [app] in E. subst t. reflexivity.
  - eapply Forall_impl; [|exact Hall]. cbn beta. tauto.
Defined.

(** X12.  The chunk count overflows for a file so large that
    [fileSize + MaxChunkSize - 1] is beyond [int64]: the count is not
    positive and the loop does not run.  Whatever the backend answers,
    [Put] of a new file of such a size creates no page and uploads
    nothing, and the only chunk list it hands to the database is the empty
    one.  When the file is cached and its row inserted, the outcome is
    that of the insert of the empty list: the error of saving the chunk
    records when the database refuses it, as gorm's [Create] does, with
    the chunked file row left behind, and success if the database accepts
    it. *)
Theorem Put_size_overflow (be : Backend) (dstDir : Obj) (file : FileStreamer)
    (w : trace) :
  DbFirstFile be w (Base be (name file)) (Obj_ID dstDir) = RecordNotFound ->
  I64.in_range (size file) ->
  size file + MaxChunkSize - 1 > I64.max_int ->
  let row := chunked_row MaxChunkSize (Base be (name file)) (size file)
               (Atoi be (Obj_ID dstDir)) in
  let lookup := EvDbFirstFile (Base be (name file)) (Obj_ID dstDir) in
  exists t,
    snd (Put be dstDir file w) = w ++ t /\
    uploads t = [] /\
    (forall title, ~ In (EvCreateDatabasePage title) t) /\
    (forall saved, In (EvDbCreateChunks saved) t -> saved = []) /\
    forall id,
      CacheFullInTempFile be (w ++ [lookup]) = None ->
      DbCreateFile be (w ++ [lookup; EvCacheFullInTempFile]) row = inr id ->
      t = [lookup; EvCacheFullInTempFile; EvDbCreateFile row;
           EvDbCreateChunks []; EvCloseTempFile] /\
      fst (Put be dstDir file w) =
        match DbCreateChunks be
                (w ++ [lookup; EvCacheFullInTempFile; EvDbCreateFile row])
                [] with
        | Some e => inl (SaveChunksFailed e)
        | None => inr (object_of (with_ID row id))
        end.
Proof.
  intros Hnew Hrange Hover row lookup. subst row lookup.
  unfold chunked_row.
  set (lookup := EvDbFirstFile (Base be (name file)) (Obj_ID dstDir)).
  assert (A1 : (w ++ [lookup]) ++ [EvCacheFullInTempFile] =
               w ++ [lookup; EvCacheFullInTempFile])
    by (rewrite <- app_assoc; reflexivity).
  assert (A2 : forall ev, (w ++ [lookup; EvCacheFullInTempFile]) ++ [ev] =
                          w ++ [lookup; EvCacheFullInTempFile; ev])
    by (intros ev; rewrite <- app_assoc; reflexivity).
  assert (A3 : forall ev ev', (w ++ [lookup; EvCacheFullInTempFile; ev]) ++
                              [ev'] =
                              w ++ [lookup; EvCacheFullInTempFile; ev; ev'])
    by (intros ev ev'; rewrite <- app_assoc; reflexivity).
  assert (A4 : forall ev ev' ev'',
             (w ++ [lookup; EvCacheFullInTempFile; ev; ev']) ++ [ev''] =
             w ++ [lookup; EvCacheFullInTempFile; ev; ev'; ev''])
    by (intros ev ev' ev''; rewrite <- app_assoc; reflexivity).
  unfold Put, putChunkedFile, putChunkedFileWith. cbv zeta.
  rewrite chunkCount_overflow
    by (assumption || (unfold MaxChunkSize; in64; lia)).
  cbn [Z.to_nat uploadChunks].
  cbv beta iota delta [bind call ret]. rewrite Hnew. fold lookup.
  destruct (Z.gtb_spec (size file) ChunkThreshold) as [Hbig|Hsmall];
    [|unfold MaxChunkSize, ChunkThreshold in *; in64; lia].
  cbv beta iota. rewrite A1.
  destruct (CacheFullInTempFile be (w ++ [lookup])) as [e|].
  { exists [lookup; EvCacheFullInTempFile]. cbn [snd].
    split; [reflexivity|]. split; [reflexivity|].
    split; [intros title [H|[H|[]]]; discriminate H|].
    split; [intros saved [H|[H|[]]]; discriminate H|].
    intros id H. discriminate H. }
  cbv beta. rewrite A2.
  destruct (DbCreateFile be (w ++ [lookup; EvCacheFullInTempFile]) _)
    as [e|id].
  { eexists [lookup; EvCacheFullInTempFile; EvDbCreateFile _;
             EvCloseTempFile].
    cbn [snd]. rewrite A3.
    split; [reflexivity|]. split; [reflexivity|].
    split; [intros title [H|[H|[H|[H|[]]]]]; discriminate H|].
    split; [intros saved [H|[H|[H|[H|[]]]]]; discriminate H|].
    intros id _ H. discriminate H. }
  cbv beta. rewrite A3.
  eexists [lookup; EvCacheFullInTempFile; EvDbCreateFile _;
           EvDbCreateChunks []; EvCloseTempFile].
  split.
  { destruct (DbCreateChunks be _ []); cbn [snd]; rewrite A4; reflexivity. }
  split; [reflexivity|].
  split; [intros title [H|[H|[H|[H|[H|[]]]]]]; discriminate H|].
  split.
  { intros saved [H|[H|[H|[H|[H|[]]]]]]; try discriminate H.
    now injection H as <-. }
  intros id' _ [= <-]. split; [reflexivity|].
  destruct (DbCreateChunks be _ []); reflexivity.
Qed.

(** A file of [2^63 - 1] bytes, on a database that refuses an empty list
    of records as gorm does: [Put] fails at the insert of the chunk
    records, with nothing uploaded and the file row written. *)
Lemma Put_size_overflow_witness :
  exists t,
    Put honest_backend demo_dir (demo_upload (2 ^ 63 - 1)) [] =
      (inl (SaveChunksFailed (External "empty slice found")), [] ++ t) /\
    uploads t = [] /\
    In (EvDbCreateFile (chunked_row MaxChunkSize "big.bin" (2 ^ 63 - 1) 1)) t.
Proof.
  destruct (Put_size_overflow honest_backend demo_dir
              (demo_upload (2 ^ 63 - 1)) [] eq_refl
              ltac:(cbn; in64; lia)
              ltac:(cbn; unfold MaxChunkSize; in64; lia))
    as (t & E & Hup & _ & _ & Hout).
  destruct (Hout 7 eq_refl eq_refl) as [Et Hres].
  exists t. split; [|split; [exact Hup|]].
  - rewrite (surjective_pairing (Put _ _ _ _)), E, Hres. reflexivity.
  - rewrite Et. right. right. left. reflexivity.
Defined.

(** * From [Put] to [Read] *)

(** The records of a complete run are the plan: contiguous from 0 to the
    size of the file. *)
Lemma saved_plan (maxChunkSize fsize : Z) (cs : list FileChunk) :
  0 < maxChunkSize -> 0 < fsize ->
  fsize + maxChunkSize - 1 <= I64.max_int ->
  map ChunkIndex cs = map Z.of_nat (seq 0 (List.length cs)) ->
  Forall (cut maxChunkSize fsize) cs ->
  List.length cs =
    Z.to_nat (I64.div (I64.sub (I64.add fsize maxChunkSize) 1)
                maxChunkSize) ->
  contiguous 0 cs fsize /\ cs <> [] /\
  Forall (fun c => ChunkSize c = EndOffset c - StartOffset c) cs.
Proof.
  intros Hmax Hsize Hfit Hidx Hcut Hlen.
  destruct (chunkCount_exact maxChunkSize fsize Hmax Hsize Hfit)
    as (_ & Hpos & Hlast & Hcover).
  assert (Hn : Z.of_nat (List.length cs) =
               I64.div (I64.sub (I64.add fsize maxChunkSize) 1) maxChunkSize)
    by lia.
  rewrite <- Hn in *. clear Hn Hlen.
  assert (Hplanned : forall c, In c cs ->
            planned maxChunkSize fsize (ChunkIndex c) c).
  { intros c Hc. pose proof (index_of_record cs c Hidx Hc) as Hi.
    rewrite Forall_forall in Hcut.
    apply (cut_inside maxChunkSize fsize c Hmax Hfit); auto; [lia | nia]. }
  split; [|split].
  - replace 0 with (Z.min (0 * maxChunkSize) fsize) at 1 by lia.
    apply (planned_contiguous maxChunkSize fsize Hmax cs 0); try lia.
    intros k Hk. destruct (nth_error cs k) as [c|] eqn:Ec.
    2:{ apply nth_error_None in Ec. lia. }
    exists c. split; [reflexivity|].
    pose proof (map_nth_error ChunkIndex _ _ Ec) as Hm.
    rewrite Hidx, nth_error_map, nth_error_seq in Hm.
    destruct (Nat.ltb_spec k (List.length cs)); [|lia].
    cbn in Hm. injection Hm as Hm. rewrite Z.add_0_l, Hm.
    apply Hplanned. eapply nth_error_In. exact Ec.
  - destruct cs; [cbn in Hpos; lia | discriminate].
  - apply Forall_forall. intros c Hc. apply (Hplanned c Hc).
Qed.

Lemma stored_contiguous (cs rows : list FileChunk) :
  Forall2 stored_as cs rows ->
  forall from to, contiguous from cs to -> contiguous from rows to.
Proof.
  induction 1 as [|c row cs rows Hst _ IH]; intros from to Hc;
    [exact Hc|].
  destruct Hst as (_ & _ & _ & Hs & He & _). cbn [contiguous] in *.
  rewrite Hs, He. destruct Hc as (H1 & H2 & H3). auto.
Qed.

(** Rows whose uploads are served are served. *)
Lemma stored_honest (be : Backend) (propertyID : string) (data : list byte)
    (fileName mime : string) (cs rows : list FileChunk) :
  Forall2 stored_as cs rows ->
  Forall (fun c => ChunkSize c = EndOffset c - StartOffset c) cs ->
  Forall (serves be propertyID data) (map (upload_of fileName mime) cs) ->
  honest be propertyID data rows.
Proof.
  induction 1 as [|c row cs rows Hst _ IH]; intros Hsz Hserve row' Hin;
    [destruct Hin|].
  inversion Hsz as [|? ? Hc Hsz']; subst.
  cbn [map] in Hserve. inversion Hserve as [|? ? Hu Hserve']; subst.
  destruct Hin as [<-|Hin]; [|exact (IH Hsz' Hserve' row' Hin)].
  destruct Hst as (_ & _ & _ & Hs & He & Hp & _).
  unfold serves, upload_of in Hu. cbn [fst snd reader] in Hu.
  rewrite Hs, He, Hp.
  replace (StartOffset c + ChunkSize c) with (EndOffset c) in Hu by lia.
  exact Hu.
Qed.

(** X13.  What [putChunkedFile] stored is what the reader of [Link] hands
    out.  A file is uploaded in chunks and the upload succeeds; the tables
    then hold the rows that were written, and the server holds, under each
    page, the section that was uploaded to it.  Then [Link] of the object
    that the upload returned gives a range reader, and a request of at
    least one byte is answered through it with exactly the requested bytes
    of the file, once enough reads with non-empty buffers were made. *)
Theorem upload_then_read (be : Backend) (db : Database)
    (client : NotionService) (NotionFilePageID : string)
    (maxChunkSize : Z) (fileName : string) (data : list byte) (dirID : Z)
    (file : FileStreamer) (w : trace) (obj : Object) (t : trace)
    (httpRange : Range) (ps : list nat) (w2 : trace) :
  let fsize := Z.of_nat (List.length data) in
  0 < maxChunkSize -> 0 < fsize ->
  fsize + maxChunkSize - 1 <= I64.max_int ->
  putChunkedFileWith maxChunkSize be fileName fsize dirID file w =
    (inr obj, w ++ t) ->
  table_holds db t (Object_ID obj) ->
  Forall (serves be (filePageID client) data) (uploads t) ->
  valid_request fsize httpRange ->
  Length httpRange <> 0 ->
  Start httpRange + Length httpRange <= I64.max_int ->
  Forall (fun p => (0 < p)%nat) ps ->
  (List.length (slice data (Start httpRange)
                  (requested_end fsize httpRange))
   + List.length (uploads t) < List.length ps)%nat ->
  exists closer r,
    Link be db client NotionFilePageID {| Obj_ID := Object_ID obj |} w2 =
      (inr {| Link_URL := ""; RangeReadCloser := Some closer |}, w2) /\
    RangeRead closer httpRange w2 = (inr r, w2) /\
    let outs := fst (fst (reads be r ps w2)) in
    delivered outs =
      slice data (Start httpRange) (requested_end fsize httpRange) /\
    Forall clean outs /\ Exists at_EOF outs.
Proof.
  intros fsize Hmax Hsize Hfit Hput Htab Hserve Hv Hne Hov Hpos Hlen.
  destruct (putChunkedFileWith_success _ _ _ _ _ _ _ _ _ Hput)
    as (id & cs & t' & E & Hobj & Hdb & Hup & Hidx & Hcut & _ & Hcount).
  apply app_inv_head in E. subst t'.
  destruct (saved_plan maxChunkSize fsize cs Hmax Hsize Hfit Hidx
              ltac:(eapply Forall_impl; [|exact Hcut]; cbn; tauto) Hcount)
    as (Hcont & Hnil & Hsz).
  destruct Htab as (f & rows & Hf & Hrow & Hrows & Hst).
  set (f0 := chunked_row maxChunkSize fileName fsize dirID) in *.
  assert (Hin0 : In (EvDbCreateFile f0) t).
  { assert (H : In (EvDbCreateFile f0) (db_writes t))
      by (rewrite Hdb; left; reflexivity).
    apply filter_In in H. tauto. }
  assert (Hin1 : In (EvDbCreateChunks cs) t).
  { assert (H : In (EvDbCreateChunks cs) (db_writes t))
      by (rewrite Hdb; right; left; reflexivity).
    apply filter_In in H. tauto. }
  specialize (Hrow f0 Hin0). specialize (Hst cs Hin1).
  assert (Hchunked : File_IsChunked f = true) by (rewrite Hrow; reflexivity).
  assert (Hfsize : File_Size f = fsize) by (rewrite Hrow; reflexivity).
  pose proof (Forall2_length Hst) as Hlen2.
  pose proof (stored_contiguous cs rows Hst 0 fsize Hcont) as Hcont'.
  rewrite Hup in Hserve.
  pose proof (stored_honest be (filePageID client) data fileName
                (mimetype file) cs rows Hst Hsz Hserve) as Hhon.
  assert (Hf64 : fsize <= I64.max_int) by lia.
  unfold Link. cbn [Obj_ID]. rewrite Hf, Hchunked, Hrows.
  destruct rows as [|row0 rows0] eqn:Erows.
  { destruct cs; [contradiction | discriminate]. }
  cbn [List.length Nat.eqb]. rewrite <- Erows in *. rewrite Hfsize.
  set (closer := NewChunkedRangeReadCloser client rows fsize).
  destruct (RangeRead_succeeds closer httpRange w2 Hcont' Hf64 Hv Hne Hov)
    as [r Er].
  exists closer, r. split; [reflexivity|]. split; [exact Er|].
  cbv zeta. destruct (reads be r ps w2) as [[outs r'] w'] eqn:Ereads.
  cbn [fst].
  destruct (reader_delivers be client data rows httpRange w2 r ps w2 outs r'
              w' Hf64 Hcont' Hhon Hv Hov ltac:(fold fsize closer;
                                               now rewrite Er) Ereads)
    as (_ & Hclean & Hdone).
  rewrite Hup, length_map, Hlen2 in Hlen.
  destruct (Hdone Hpos Hlen) as [Hall Heof].
  split; [exact Hall|]. split; assumption.
Qed.

Lemma store_holds :
  table_holds store_db
    (snd (putChunkedFileWith 10 store_backend "alphabet.txt" 26 1 alphabet
            [])) "7".
Proof.
  exists (with_ID (chunked_row 10 "alphabet.txt" 26 1) 7).
  exists [stored_chunk 0 0 10 "0"; stored_chunk 1 10 20 "1";
          stored_chunk 2 20 26 "2"].
  split; [reflexivity|]. split.
  { intros f0 Hin. vm_compute in Hin.
    repeat (destruct Hin as [Hin|Hin]; [try discriminate Hin|]);
      [|destruct Hin].
    injection Hin as <-. reflexivity. }
  split; [reflexivity|].
  intros saved Hin. vm_compute in Hin.
  repeat (destruct Hin as [Hin|Hin]; [try discriminate Hin|]);
    [|destruct Hin].
  injection Hin as <-.
  repeat (constructor;
          [unfold stored_as; repeat (split; [reflexivity|]); reflexivity|]).
  constructor.
Qed.

Lemma store_serves :
  Forall (serves store_backend "files" demo_data)
    (uploads (snd (putChunkedFileWith 10 store_backend "alphabet.txt" 26 1
                     alphabet []))).
Proof.
  remember (uploads _) as u eqn:Eu. vm_compute in Eu. subst u.
  repeat (constructor;
          [unfold serves; cbn [fst snd reader]; intros w;
           eexists (demo_property [_]), _, [];
           split; [reflexivity|]; split; [reflexivity|];
           split; [reflexivity|]; intros w' req Hurl; cbn in Hurl;
           eexists; split; [reflexivity|]; split; [left; reflexivity|];
           split; [|reflexivity]; cbn [Resp_Body payload]; rewrite Hurl;
           reflexivity|]).
  constructor.
Qed.

(** The demo file is uploaded in chunks of 10 bytes and linked; offsets 8
    to 15, read through buffers of four bytes, are the bytes "ijklmno". *)
Lemma upload_then_read_witness :
  exists obj t closer r,
    putChunkedFileWith 10 store_backend "alphabet.txt" 26 1 alphabet [] =
      (inr obj, t) /\
    Link store_backend store_db demo_client "files"
      {| Obj_ID := Object_ID obj |} [] =
      (inr {| Link_URL := ""; RangeReadCloser := Some closer |}, []) /\
    RangeRead closer {| Start := 8; Length := 7 |} [] = (inr r, []) /\
    delivered (fst (fst (reads store_backend r (repeat 4%nat 11) []))) =
      list_byte_of_string "ijklmno".
Proof.
  destruct (upload_then_read store_backend store_db demo_client "files" 10
              "alphabet.txt" demo_data 1 alphabet [] _ _
              {| Start := 8; Length := 7 |} (repeat 4%nat 11) []
              ltac:(lia) ltac:(cbn; lia) ltac:(cbn; in64; lia) eq_refl
              store_holds store_serves
              ltac:(unfold valid_request; cbn; in64; lia)
              ltac:(cbn; lia) ltac:(cbn; in64; lia)
              ltac:(repeat constructor) ltac:(vm_compute; lia))
    as (closer & r & HL & HR & Hd & _).
  eexists _, _, closer, r. split; [reflexivity|].
  split; [exact HL|]. split; [exact HR | exact Hd].
Defined.

(** * [Copy] and [Link] *)

(** X14.  [Copy] of a file forgets that the file is chunked.  The row it
    inserts takes the name, the size, the hash and the page of the source
    row and is not chunked, and no chunk record is written.  For the row
    of a chunked file, [Link] of the copy therefore never returns a range
    reader: it resolves the page named in the file row of the source,
    which holds none of the bytes, and does not look at any chunk. *)
Theorem Copy_forgets_chunks (be : Backend) (db : Database)
    (client : NotionService) (NotionFilePageID : string)
    (srcObj dstDir : Obj) (f : File) (w : trace) (obj : Object)
    (w' : trace) :
  FileByID db (Obj_ID srcObj) = inr f ->
  Copy_file be db srcObj dstDir w = (inr obj, w') ->
  exists row id,
    w' = w ++ [EvDbCreateFile row] /\
    obj = object_of (with_ID row id) /\
    File_Name row = File_Name f /\ File_Size row = File_Size f /\
    File_SHA1 row = File_SHA1 f /\
    File_NotionPageID row = File_NotionPageID f /\
    File_IsChunked row = false /\
    forall db' w2,
      FileByID db' (Object_ID obj) = inr (with_ID row id) ->
      snd (Link be db' client NotionFilePageID
             {| Obj_ID := Object_ID obj |} w2) =
        w2 ++ [EvGetPageProperty (File_NotionPageID f) NotionFilePageID] /\
      forall link,
        fst (Link be db' client NotionFilePageID
               {| Obj_ID := Object_ID obj |} w2) = inr link ->
        RangeReadCloser link = None.
Proof.
  intros Hsrc. unfold Copy_file. rewrite Hsrc. cbv zeta.
  unfold bind, call, ret.
  destruct (DbCreateFile be w _) as [e|id]; [discriminate|].
  intros [= <- <-]. eexists _, id. split; [reflexivity|].
  do 6 (split; [reflexivity|]).
  intros db' w2 Hrow. unfold Link. cbn [Obj_ID]. rewrite Hrow.
  cbn [File_IsChunked with_ID File_NotionPageID]. unfold bind, call, ret.
  destruct (GetPageProperty be w2 _ _) as [e|property]; cbn [fst snd].
  - split; [reflexivity | discriminate].
  - destruct (Files property); cbn [fst snd];
      (split; [reflexivity|]); [discriminate|].
    intros link [= <-]. reflexivity.
Qed.

(** The chunked demo file is copied: the copy is a row that is not
    chunked, and its link asks for the page of the file row, which is
    empty. *)
Lemma Copy_forgets_chunks_witness :
  exists obj w' row,
    Copy_file honest_backend demo_db demo_dir demo_dir [] = (inr obj, w') /\
    w' = [] ++ [EvDbCreateFile row] /\
    File_IsChunked demo_file = true /\ File_IsChunked row = false /\
    File_NotionPageID row = ""%string.
Proof.
  destruct (Copy_forgets_chunks honest_backend demo_db demo_client "files"
              demo_dir demo_dir demo_file [] _ _ eq_refl eq_refl)
    as (row & id & E & _ & _ & _ & _ & Hpage & Hch & _).
  eexists _, _, row. split; [cbn; reflexivity|]. split; [exact E|].
  split; [reflexivity|]. split; [exact Hch | exact Hpage].
Defined.

(** * The effort of one [Read] *)

Lemma requests_app (t1 t2 : trace) :
  requests (t1 ++ t2) = (requests t1 + requests t2)%nat.
Proof. unfold requests. now rewrite filter_app, length_app. Qed.

Lemma body_reads_app (t1 t2 : trace) :
  body_reads (t1 ++ t2) = (body_reads t1 + body_reads t2)%nat.
Proof. unfold body_reads. now rewrite filter_app, length_app. Qed.

Lemma createChunkReader_effort (be : Backend) (url : string)
    (offset length : Z) (w : trace) :
  exists t, snd (createChunkReader be url offset length w) = w ++ t /\
            resolutions t = 0%nat /\ sleeps t = [] /\
            (requests t <= 1)%nat /\ body_reads t = 0%nat.
Proof.
  unfold createChunkReader. destruct (NewRequest be url); run.
  { exists []. rewrite app_nil_r. cbn. repeat split; auto. }
  destruct (Do be w _) as [err|resp]; cbn [snd].
  { eexists. split; [reflexivity|]. cbn. repeat split; auto. }
  destruct (_ && _); cbn [snd].
  - exists [EvDo (chunkRequest url offset length); EvBodyClose].
    rewrite <- app_assoc. cbn. repeat split; auto.
  - eexists. split; [reflexivity|]. cbn. repeat split; auto.
Qed.

(** The rounds of the retry loop that are left at [retry] sleep for
    [retry + 1], [retry + 2], ... seconds, and not after the last one. *)
Lemma retryLoop_effort (be : Backend) (r : ChunkedReader)
    (chunk : FileChunk) (lo hi : Z) (n : nat) :
  forall retry w,
  retry = maxRetries - Z.of_nat n -> 0 <= retry ->
  exists t m,
    snd (retryLoop be r chunk lo hi n retry w) = w ++ t /\
    (requests t <= resolutions t <= n)%nat /\
    (m <= n - 1)%nat /\
    sleeps t = map (fun k => Second * (retry + 1 + Z.of_nat k)) (seq 0 m) /\
    body_reads t = 0%nat.
Proof.
  unfold maxRetries.
  induction n as [|n IH]; intros retry w Hretry H0; cbn [retryLoop].
  - exists [], 0%nat. rewrite app_nil_r. cbn. repeat split; lia.
  - unfold bind at 1, call at 1.
    set (ev := EvGetPageProperty (NotionPageID chunk)
                 (filePageID (notionClient r))).
    assert (Hsleep : I64.mul Second (I64.add retry 1) = Second * (retry + 1)).
    { rewrite add_small by (in64; lia).
      apply mul_small. unfold Second. in64. lia. }
    assert (Hnext : I64.add retry 1 = retry + 1)
      by (apply add_small; in64; lia).
    assert (Hstep : forall t0,
              (requests t0 <= resolutions t0 <= 1)%nat ->
              sleeps t0 = [] -> body_reads t0 = 0%nat ->
              retry <> 2 ->
              exists t m,
                snd (retryLoop be r chunk lo hi n (I64.add retry 1)
                       ((w ++ t0) ++
                        [EvSleep (I64.mul Second (I64.add retry 1))])) =
                  w ++ t /\
                (requests t <= resolutions t <= S n)%nat /\
                (m <= S n - 1)%nat /\
                sleeps t = map (fun k => Second * (retry + 1 + Z.of_nat k))
                             (seq 0 m) /\
                body_reads t = 0%nat).
    { intros t0 Hcnt Hsl Hbr Hne.
      destruct (IH (I64.add retry 1)
                  ((w ++ t0) ++ [EvSleep (I64.mul Second (I64.add retry 1))])
                  ltac:(lia) ltac:(lia)) as (t & m & -> & Hc & Hm & Hs & Hb).
      exists (t0 ++ [EvSleep (I64.mul Second (I64.add retry 1))] ++ t), (S m).
      split; [now rewrite <- !app_assoc|].
      rewrite !requests_app, !resolutions_app, !sleeps_app, !body_reads_app.
      rewrite Hsl, Hs, Hbr, Hb, Hsleep, Hnext.
      change (requests [EvSleep _]) with 0%nat.
      change (resolutions [EvSleep _]) with 0%nat.
      change (body_reads [EvSleep _]) with 0%nat.
      split; [lia|]. split; [lia|]. split; [|lia].
      cbn [app sleeps flat_map seq map]. f_equal; [f_equal; lia|].
      rewrite <- seq_shift, map_map. apply map_ext. intros k. f_equal. lia. }
    destruct (GetPageProperty be w _ _) as [err|property].
    + match goal with
      | |- context [if ?c then _ else _] => destruct c eqn:Elast
      end; run.
      * exists [ev], 0%nat. cbn. repeat split; lia.
      * apply Z.eqb_neq in Elast. unfold maxRetries in Elast.
        apply (Hstep [ev]); cbn; auto; lia.
    + destruct (Files property) as [|file0 files]; run.
      { exists [ev], 0%nat. cbn. repeat split; lia. }
      destruct (createChunkReader_effort be (URL (FileObject_File file0)) lo
                  (I64.sub hi lo) (w ++ [ev]))
        as (t1 & E1 & R1 & S1 & Q1 & B1).
      destruct (createChunkReader be _ lo _ _) as [[err|body] w1];
        cbn [snd] in E1; subst w1.
      * match goal with
        | |- context [if ?c then _ else _] => destruct c eqn:Elast
        end.
        -- exists ([ev] ++ t1), 0%nat. split; [now rewrite <- !app_assoc|].
           rewrite requests_app, resolutions_app, sleeps_app, body_reads_app,
             R1, S1, B1. cbn. repeat split; lia.
        -- apply Z.eqb_neq in Elast. unfold maxRetries in Elast.
           rewrite <- (app_assoc w [ev] t1).
           apply (Hstep ([ev] ++ t1)); auto;
             rewrite ?requests_app, ?resolutions_app, ?sleeps_app,
               ?body_reads_app, ?R1, ?S1, ?B1; cbn; auto; lia.
      * exists ([ev] ++ t1), 0%nat. split; [now rewrite <- !app_assoc|].
        rewrite requests_app, resolutions_app, sleeps_app, body_reads_app,
          R1, S1, B1. cbn. repeat split; lia.
Qed.

Lemma deliver_effort (r : ChunkedReader) (p : nat) (w : trace) :
  exists t, snd (deliver r p w) = w ++ t /\ resolutions t = 0%nat /\
            requests t = 0%nat /\ sleeps t = [] /\ (body_reads t <= 1)%nat.
Proof.
  unfold deliver. destruct (_ && _); run.
  { exists []. rewrite app_nil_r. cbn. repeat split; auto. }
  destruct (currentReader r) as [body|].
  2:{ exists []. rewrite app_nil_r. cbn. repeat split; auto. }
  destruct (body_read body _) as [[data [e0|]] body']; cbn [snd].
  - destruct (is_EOF e0); [destruct (_ && _)|]; cbn [snd];
      eexists; rewrite <- app_assoc; (split; [reflexivity|]); cbn; repeat split; auto.
  - eexists. split; [reflexivity|]. cbn. repeat split; auto.
Qed.

(** X15.  The effort of one [Read], whatever the backend answers: at most
    three resolutions, at most one request for each of them, at most one
    read of a body, and sleeps of one second and then two seconds at
    most. *)
Theorem Read_effort (be : Backend) (r : ChunkedReader) (p : nat)
    (w : trace) :
  exists t,
    snd (Read be r p w) = w ++ t /\
    (requests t <= resolutions t <= 3)%nat /\
    (body_reads t <= 1)%nat /\
    (sleeps t = [] \/ sleeps t = [Second] \/
     sleeps t = [Second; 2 * Second]).
Proof.
  unfold Read. destruct (_ >=? _).
  { exists []. rewrite app_nil_r. cbn.
    split; [reflexivity|]. split; [lia|]. split; [lia | auto]. }
  unfold bind at 1, openCurrent.
  destruct (currentReader r) as [body|] eqn:Ecur.
  - unfold ret at 1.
    destruct (deliver_effort r p w) as (t & -> & R & Q & S & B).
    exists t. rewrite R, Q, S.
    split; [reflexivity|]. split; [lia|]. split; [lia | auto].
  - destruct (nth_error (chunks r) (currentChunk r)) as [chunk|].
    2:{ exists []. rewrite app_nil_r. cbn.
    split; [reflexivity|]. split; [lia|]. split; [lia | auto]. }
    unfold bind at 1.
    destruct (retryLoop_effort be r chunk (chunkStartOf r chunk)
                (chunkEndOf r chunk) (Z.to_nat maxRetries) 0 w
                eq_refl ltac:(lia))
      as (t1 & m & E1 & C1 & Hm & S1 & B1).
    change (Z.to_nat maxRetries) with 3%nat in *.
    assert (Hsl : sleeps t1 = [] \/ sleeps t1 = [Second] \/
                  sleeps t1 = [Second; 2 * Second]).
    { rewrite S1. destruct m as [|[|[|m]]]; [auto | auto | auto | lia]. }
    destruct (retryLoop be r chunk _ _ 3 0 w) as [[err|reader] w1];
      cbn [snd] in E1; subst w1; run.
    + exists t1. rewrite B1.
      split; [reflexivity|]. split; [lia|]. split; [lia | exact Hsl].
    + destruct (deliver_effort
                  (with_reader r reader (chunkStartOf r chunk)) p (w ++ t1))
        as (t2 & -> & R2 & Q2 & S2 & B2).
      exists (t1 ++ t2). split; [now rewrite app_assoc|].
      rewrite requests_app, resolutions_app, body_reads_app, sleeps_app,
        R2, Q2, S2, B1, app_nil_r.
      split; [lia|]. split; [lia | exact Hsl].
Qed.

(** * A single file, from [Put] to [Link] *)

(** X16.  The page [putSingleFile] uploads to is the page [Link]
    resolves.  When the upload of a single file succeeded and the file
    table holds the row that was written, [Link] of the returned object
    makes one resolution, of the page the file was uploaded to, and
    returns the URL of the first file that page lists and no range
    reader. *)
Theorem single_upload_then_link (be : Backend) (db : Database)
    (client : NotionService) (NotionFilePageID : string)
    (fileName : string) (fileSize dirID : Z) (file : FileStreamer)
    (w : trace) (obj : Object) (t : trace) (w2 : trace) :
  putSingleFile be fileName fileSize dirID file w = (inr obj, w ++ t) ->
  row_holds db t (Object_ID obj) ->
  exists pageID,
    uploads t = [(file, pageID)] /\
    snd (Link be db client NotionFilePageID {| Obj_ID := Object_ID obj |} w2)
      = w2 ++ [EvGetPageProperty pageID NotionFilePageID] /\
    forall property file0 rest,
      GetPageProperty be w2 pageID NotionFilePageID = inr property ->
      Files property = file0 :: rest ->
      fst (Link be db client NotionFilePageID
             {| Obj_ID := Object_ID obj |} w2) =
        inr {| Link_URL := URL (FileObject_File file0);
               RangeReadCloser := None |}.
Proof.
  unfold putSingleFile, bind at 1, call at 1.
  destruct (CreateDatabasePage be w fileName) as [e|pageID];
    [discriminate|].
  unfold bind at 1, call at 1.
  destruct (UploadAndUpdateFilePut be _ file pageID) as [e|hash1];
    [discriminate|].
  unfold bind, call, ret.
  destruct (DbCreateFile be _ _) as [e|id]; [discriminate|].
  intros [= <- E] (f & Hf & Hrow).
  rewrite <- !app_assoc in E. apply app_inv_head in E. subst t.
  exists pageID. split; [reflexivity|].
  specialize (Hrow _ (or_intror (or_intror (or_introl eq_refl)))).
  unfold Link. cbn [Obj_ID]. rewrite Hf, Hrow.
  cbn [File_IsChunked with_ID File_NotionPageID]. unfold bind, call, ret.
  split.
  - destruct (GetPageProperty be w2 pageID NotionFilePageID)
      as [e|property]; [reflexivity|].
    destruct (Files property); reflexivity.
  - intros property file0 rest -> Hfiles. cbn [fst]. rewrite Hfiles.
    reflexivity.
Qed.

(** The demo file goes up as a single file and is linked: the page
    "page:alphabet.txt" is resolved and its URL returned. *)
Lemma single_upload_then_link_witness :
  exists obj t pageID,
    putSingleFile honest_backend "alphabet.txt" 26 1 alphabet [] =
      (inr obj, t) /\
    uploads t = [(alphabet, pageID)] /\
    Link honest_backend single_db demo_client "files"
      {| Obj_ID := Object_ID obj |} [] =
      (inr {| Link_URL := pageID; RangeReadCloser := None |},
       [EvGetPageProperty pageID "files"]).
Proof.
  assert (Hrow : row_holds single_db
                   (snd (putSingleFile honest_backend "alphabet.txt" 26 1
                           alphabet [])) "7").
  { eexists. split; [reflexivity|]. intros f0 Hin. vm_compute in Hin.
    repeat (destruct Hin as [Hin|Hin]; [try discriminate Hin|]);
      [|destruct Hin].
    injection Hin as <-. reflexivity. }
  destruct (single_upload_then_link honest_backend single_db demo_client
              "files" "alphabet.txt" 26 1 alphabet [] _ _ [] eq_refl Hrow)
    as (pageID & Hup & Htrace & Hres).
  eexists _, _, pageID. split; [cbn; reflexivity|]. split; [exact Hup|].
  injection Hup as <-. reflexivity.
Defined.

(** * A length that overflows *)

(** X17.  A length so large that [start + length] leaves [int64] is not
    clamped to the end of the file: the sum wraps below zero, no chunk of
    a contiguous list overlaps, and [RangeRead] fails with the error of an
    empty selection, though the request covers the file from [start] to
    its end. *)
Theorem RangeRead_length_overflow (c : ChunkedRangeReadCloser)
    (start length : Z) (w : trace) :
  contiguous 0 (crc_chunks c) (fileSize c) ->
  fileSize c <= I64.max_int ->
  0 <= start < fileSize c ->
  0 <= length <= I64.max_int ->
  start + length > I64.max_int ->
  RangeRead c {| Start := start; Length := length |} w =
    (inl (NoChunksFound start (I64.sub (start + length - 2 ^ 64) 1)
            (fileSize c) (List.length (crc_chunks c))), w).
Proof.
  intros Hcont Hf Hs HL Hover.
  rewrite RangeRead_in_bounds by assumption. cbv zeta.
  assert (He : snd (clampRange (fileSize c)
                      {| Start := start; Length := length |}) =
               start + length - 2 ^ 64).
  { unfold clampRange. cbv beta iota delta [Start Length].
    destruct (Z.eqb_spec length (-1)); [lia|].
    unfold I64.add. rewrite wrap_over by (in64; lia).
    destruct (Z.gtb_spec (start + length - 2 ^ 64) (fileSize c));
      [in64; lia | reflexivity]. }
  rewrite He. cbn [Start]. rewrite filter_nil.
  - reflexivity.
  - intros x Hx. destruct (contiguous_bounds _ _ _ Hcont) as (_ & Hb).
    specialize (Hb x Hx). unfold overlaps.
    destruct (Z.ltb_spec (StartOffset x) (start + length - 2 ^ 64));
      [in64; lia | reflexivity].
Qed.

(** The demo file from offset 1 with the largest length there is. *)
Lemma RangeRead_length_overflow_witness :
  exists e,
    RangeRead demo_closer {| Start := 1; Length := 2 ^ 63 - 1 |} [] =
      (inl (NoChunksFound 1 e 26 3), []) /\
    fst (RangeRead demo_closer {| Start := 0; Length := 2 ^ 63 - 1 |} []) =
      fst (RangeRead demo_closer {| Start := 0; Length := -1 |} []).
Proof.
  eexists. split; [|reflexivity].
  exact (RangeRead_length_overflow demo_closer 1 (2 ^ 63 - 1) []
           ltac:(cbn; repeat split; lia) ltac:(cbn; in64; lia)
           ltac:(cbn; lia) ltac:(in64; lia) ltac:(in64; lia)).
Defined.

(** * Failures that the retry loop absorbs *)

Section Recovery.

Variable be : Backend.
Variable data : list byte.
Variable client : NotionService.
Variable needed : list FileChunk.
Variables s e : Z.

Hypothesis Hs : 0 <= s <= e.
Hypothesis He : e <= Z.of_nat (List.length data).
Hypothesis Hdata : Z.of_nat (List.length data) <= I64.max_int.
Hypothesis Hneeded : forall c, In c needed ->
  0 <= StartOffset c <= EndOffset c /\
  EndOffset c <= Z.of_nat (List.length data) /\
  StartOffset c < e /\ EndOffset c > s.
Hypothesis Hsettles : settles be (filePageID client) data needed.

(** An entry into a chunk opens a read on the part of the request in that
    chunk, after the attempts it takes. *)
Lemma openCurrent_settles (acc : list byte) (r : ChunkedReader) (w : trace)
    (chunk : FileChunk) :
  in_flight data client needed s e acc r ->
  currentReader r = None ->
  s < e ->
  nth_error needed (currentChunk r) = Some chunk ->
  exists body w1,
    openCurrent be r w =
      (inr (with_reader r (Some body) (chunkStartOf r chunk)), w1) /\
    payload body = sub_range data s e chunk /\ final body = EOF.
Proof.
  intros (Hch & Hrs & Hre & Hcl & _) Hcur Hlt Hnth.
  assert (Hin : In chunk needed) by (eapply nth_error_In; eassumption).
  destruct (Hneeded chunk Hin) as (Hc1 & Hc2 & Hc3 & Hc4).
  unfold openCurrent. rewrite Hcur, Hch, Hnth. unfold bind.
  destruct (Hsettles chunk Hin r (chunkStartOf r chunk) (chunkEndOf r chunk)
              w ltac:(now rewrite Hcl)) as (body & w1 & E & Hpay & Hfin).
  rewrite E. unfold ret. exists body, w1.
  split; [reflexivity|]. split; [|exact Hfin].
  rewrite Hpay. unfold chunkStartOf, chunkEndOf. rewrite Hrs, Hre.
  apply serve_sub_range; lia.
Qed.

Lemma Read_step_settles (acc : list byte) (r : ChunkedReader) (p : nat)
    (w : trace) :
  in_flight data client needed s e acc r ->
  forall out err r' w',
    Read be r p w = ((out, err), r', w') ->
    in_flight data client needed s e (acc ++ out) r' /\
    (err = None /\ ((0 < p)%nat -> (budget data r' < budget data r)%nat) \/
     err = Some EOF /\ acc ++ out = slice data s e).
Proof.
  intros Hfl out err r' w' H.
  pose proof Hfl as (Hch & Hrs & Hre & Hcl & Htot & Hacc & Hopen).
  unfold Read in H. rewrite Hre, Hrs, Htot in H.
  rewrite sub_small in H by (in64; lia).
  destruct (Z.geb_spec (Z.of_nat (List.length acc)) (e - s)).
  - injection H as <- <- <- _. rewrite app_nil_r. split; [exact Hfl|].
    right. split; [reflexivity|].
    apply (flight_complete data client needed s e Hs He _ _ Hfl). lia.
  - unfold bind at 1 in H.
    destruct (currentReader r) as [b|] eqn:Ecur.
    + unfold openCurrent in H. rewrite Ecur in H. unfold ret at 1 in H.
      eapply (deliver_step data client needed s e Hs He Hdata);
        eassumption.
    + destruct (nth_error needed (currentChunk r)) as [chunk|] eqn:Enth.
      * destruct (openCurrent_settles acc r w chunk Hfl Ecur ltac:(lia) Enth)
          as (body & w1 & E & Hpay & Hfin).
        rewrite E in H.
        destruct (flight_opened data client needed s e acc r chunk body
                    (chunkStartOf r chunk) Hfl Ecur Enth Hpay Hfin)
          as [Hfl1 Hbud].
        rewrite <- Hbud.
        eapply (deliver_step data client needed s e Hs He Hdata);
          try eassumption. reflexivity.
      * unfold openCurrent in H. rewrite Ecur, Hch, Enth in H.
        injection H as <- <- <- _. rewrite app_nil_r. split; [exact Hfl|].
        right. split; [reflexivity|].
        rewrite pending_past in Hacc.
        -- rewrite app_nil_r in Hacc. exact Hacc.
        -- exact Ecur.
        -- rewrite Hch. apply nth_error_None. exact Enth.
Qed.

Lemma reads_flight_settles (ps : list nat) :
  forall acc r w outs r' w',
    in_flight data client needed s e acc r ->
    reads be r ps w = (outs, r', w') ->
    in_flight data client needed s e (acc ++ delivered outs) r' /\
    Forall clean outs /\
    (Forall (fun p => (0 < p)%nat) ps ->
     (budget data r < List.length ps)%nat ->
     acc ++ delivered outs = slice data s e /\ Exists at_EOF outs).
Proof.
  induction ps as [|p ps IH]; intros acc r w outs r' w' Hfl H.
  - injection H as <- <- _. unfold delivered. cbn. rewrite app_nil_r.
    split; [exact Hfl|]. split; [constructor|]. intros _ Hb. cbn in Hb. lia.
  - cbn [reads] in H. unfold bind in H.
    destruct (Read be r p w) as [[[out err] r1] w1] eqn:E1.
    destruct (reads be r1 ps w1) as [[outs1 r2] w2] eqn:E2.
    injection H as <- <- _.
    destruct (Read_step_settles acc r p w Hfl _ _ _ _ E1) as [Hfl1 Hcase].
    destruct (IH _ _ _ _ _ _ Hfl1 E2) as (Hfl2 & Hclean & Hdone).
    unfold delivered in *. cbn [map List.concat fst].
    rewrite app_assoc. split; [exact Hfl2|]. split.
    { constructor; [|exact Hclean]. unfold clean. cbn.
      destruct Hcase as [[-> _]|[-> _]]; auto. }
    intros Hpos Hb. inversion Hpos as [|? ? Hp Hps]; subst.
    cbn [List.length] in Hb.
    destruct Hcase as [[-> Hdec]|[-> Hfull]].
    + destruct (Hdone Hps ltac:(specialize (Hdec Hp); lia)) as [Hall Hex].
      split; [exact Hall|]. apply Exists_cons_tl. exact Hex.
    + split; [|apply Exists_cons_hd; reflexivity].
      destruct Hfl2 as (_ & _ & _ & _ & _ & Hacc2 & _).
      pose proof (target_length data s e Hs He) as Hl. pose proof Hl as Hl2.
      rewrite <- Hacc2, !length_app in Hl.
      rewrite <- Hfull, length_app in Hl2.
      assert (Hnil : List.length (List.concat (map fst outs1)) = 0%nat)
        by lia.
      apply length_zero_iff_nil in Hnil. rewrite Hnil, app_nil_r.
      exact Hfull.
Qed.

End Recovery.

(** X18.  Failures that the retry loop absorbs leave no mark on the
    stream.  On a contiguous chunk list, if every entry into a chunk ends,
    within its three attempts, with a read that the server answers with
    the bytes asked for, then, however many resolutions and opens failed
    on the way, the bytes that successive [Read] calls hand out are a
    prefix of the requested range, no call reports an error other than
    EOF, and once enough calls with non-empty buffers were made the bytes
    handed out are exactly the requested range, each byte once. *)
Theorem retries_are_transparent (be : Backend) (client : NotionService)
    (data : list byte) (cs : list FileChunk) (httpRange : Range)
    (w0 : trace) (r : ChunkedReader) (ps : list nat) (w : trace) :
  let fsize := Z.of_nat (List.length data) in
  let target := slice data (Start httpRange)
                  (requested_end fsize httpRange) in
  fsize <= I64.max_int ->
  contiguous 0 cs fsize ->
  settles be (filePageID client) data cs ->
  valid_request fsize httpRange ->
  Start httpRange + Length httpRange <= I64.max_int ->
  fst (RangeRead (NewChunkedRangeReadCloser client cs fsize) httpRange w0)
    = inr r ->
  let outs := fst (fst (reads be r ps w)) in
  (exists rest, delivered outs ++ rest = target) /\
  Forall clean outs /\
  (Forall (fun p => (0 < p)%nat) ps ->
   (List.length target + List.length cs < List.length ps)%nat ->
   delivered outs = target /\ Exists at_EOF outs).
Proof.
  intros fsize target Hf Hcont Hset Hv Hok E0. pose proof Hv as [Hst HL].
  set (c := NewChunkedRangeReadCloser client cs fsize) in *.
  destruct (RangeRead_valid c httpRange w0 r Hv Hf Hok E0)
    as (Hrs & Hre & Hle & Hch & Hcl & Hcur0 & Hnone & Htot).
  unfold c in Hre, Hle, Hch, Hcl.
  cbn [fileSize crc_chunks crc_notionClient NewChunkedRangeReadCloser]
    in Hre, Hle, Hch, Hcl.
  unfold target. rewrite <- Hre, <- Hrs.
  set (s := requestStart r) in *. set (e := requestEnd r) in *.
  assert (Hbounds : forall x, In x (chunks r) ->
            0 <= StartOffset x <= EndOffset x /\
            EndOffset x <= Z.of_nat (List.length data) /\
            StartOffset x < e /\ EndOffset x > s).
  { intros x Hx. rewrite Hch in Hx. apply filter_In in Hx.
    destruct Hx as [Hx Hov]. unfold overlaps in Hov.
    apply andb_true_iff in Hov. rewrite Z.ltb_lt, Z.gtb_gt in Hov.
    destruct (contiguous_bounds _ _ _ Hcont) as (_ & Hb).
    specialize (Hb x Hx). fold fsize. lia. }
  assert (Hset' : settles be (filePageID client) data (chunks r)).
  { intros x Hx. apply Hset. rewrite Hch in Hx. apply filter_In in Hx.
    tauto. }
  assert (Hfl : in_flight data client (chunks r) s e [] r).
  { unfold in_flight.
    do 4 (split; [reflexivity || assumption|]).
    split; [exact Htot|]. split.
    - cbn [app]. unfold pending. rewrite Hnone, Hcur0. cbn [skipn].
      fold s e. rewrite Hch at 1.
      rewrite (selection_covers data s e cs ltac:(lia) 0 fsize Hcont).
      f_equal; lia.
    - intros b Hb. rewrite Hnone in Hb. discriminate Hb. }
  cbv zeta. destruct (reads be r ps w) as [[outs r'] w'] eqn:Er. cbn [fst].
  destruct (reads_flight_settles be data client (chunks r) s e ltac:(lia)
              ltac:(fold fsize; lia) Hf Hbounds Hset' ps [] r w
              outs r' w' Hfl Er) as (Hfl' & Hclean & Hdone).
  cbn [app] in *. split; [|split; [exact Hclean|]].
  - exists (pending data r'). apply Hfl'.
  - intros Hpos Hlen. apply Hdone; [exact Hpos|].
    unfold budget. destruct Hfl as (_ & _ & _ & _ & _ & Hacc & _).
    cbn [app] in Hacc. rewrite Hacc, Hcur0, Nat.sub_0_r.
    pose proof (filter_length_le (overlaps s e) cs) as Hfil.
    rewrite <- Hch in Hfil. lia.
Qed.

Lemma flaky_attempt_fails (r : ChunkedReader) (c : FileChunk) (lo hi : Z)
    (n : nat) (retry : Z) (w : trace) :
  (resolutions w < 2)%nat -> retry <> maxRetries - 1 ->
  exists w1,
    (resolutions w1 = resolutions w + 1)%nat /\
    retryLoop flaky_backend r c lo hi (S n) retry w =
    retryLoop flaky_backend r c lo hi n (I64.add retry 1) w1.
Proof.
  intros Hres Hretry. cbn [retryLoop]. unfold bind at 1, call at 1.
  cbn [GetPageProperty flaky_backend demo_backend]. unfold resolve_flaky.
  destruct (Nat.ltb_spec (resolutions w) 2); [|lia].
  destruct (Z.eqb_spec retry (maxRetries - 1)); [contradiction|].
  unfold bind, call. eexists. split; [|reflexivity].
  rewrite !resolutions_app. cbn. lia.
Qed.

Lemma flaky_attempt_succeeds (r : ChunkedReader) (c : FileChunk) (lo hi : Z)
    (n : nat) (retry : Z) (w : trace) :
  (2 <= resolutions w)%nat ->
  exists body w',
    retryLoop flaky_backend r c lo hi (S n) retry w =
      (LoopLeft (Some body), w') /\
    payload body =
      serve (demo_object (NotionPageID c)) (rangeHeader lo (I64.sub hi lo)) /\
    final body = EOF.
Proof.
  intros Hres. cbn [retryLoop]. unfold bind at 1, call at 1.
  cbn [GetPageProperty flaky_backend demo_backend]. unfold resolve_flaky.
  destruct (Nat.ltb_spec (resolutions w) 2); [lia|].
  cbn [Files demo_property map]. unfold bind, createChunkReader, call, ret.
  cbn. eexists _, _. split; [reflexivity|]. split; reflexivity.
Qed.

Lemma flaky_settles : settles flaky_backend "files" demo_data demo_chunks.
Proof.
  intros c Hin r lo hi w _. change (Z.to_nat maxRetries) with 3%nat.
  assert (Hobj : demo_object (NotionPageID c) =
                 slice demo_data (StartOffset c) (EndOffset c)).
  { destruct Hin as [<-|[<-|[<-|[]]]]; reflexivity. }
  rewrite <- Hobj.
  destruct (le_lt_dec 2 (resolutions w)) as [H2|H2];
    [apply flaky_attempt_succeeds; exact H2|].
  destruct (flaky_attempt_fails r c lo hi 2 0 w H2 ltac:(discriminate))
    as (w1 & Hw1 & ->).
  destruct (le_lt_dec 2 (resolutions w1)) as [H3|H3];
    [apply flaky_attempt_succeeds; exact H3|].
  destruct (flaky_attempt_fails r c lo hi 1 (I64.add 0 1) w1 H3
              ltac:(discriminate)) as (w2 & Hw2 & ->).
  apply flaky_attempt_succeeds. lia.
Qed.

(** Offsets 8 to 15 of the demo file on a backend whose first two
    resolutions fail: the first [Read] succeeds at its third attempt, and
    the bytes are "ijklmno". *)
Lemma retries_are_transparent_witness :
  exists r,
    fst (RangeRead demo_closer {| Start := 8; Length := 7 |} []) = inr r /\
    resolutions (snd (Read flaky_backend r 4 [])) = 3%nat /\
    delivered (fst (fst (reads flaky_backend r (repeat 4%nat 11) []))) =
      list_byte_of_string "ijklmno".
Proof.
  eexists. split; [reflexivity|]. split; [reflexivity|].
  apply (retries_are_transparent flaky_backend demo_client demo_data
           demo_chunks {| Start := 8; Length := 7 |} [] _
           (repeat 4%nat 11) []
           ltac:(cbn; in64; lia) ltac:(cbn; repeat split; lia)
           flaky_settles
           ltac:(unfold valid_request; cbn; in64; lia)
           ltac:(cbn; in64; lia) eq_refl);
    [repeat constructor | vm_compute; lia].
Defined.
